(** * SmartSortierer: the document pipeline core, embedded and verified

    Shallow embedding of the storage sandbox, the Redis job queue, the
    ingest endpoint, the rules engine and the four worker handlers of
    [services/smartsortierer], with the properties the specification
    states about them.

    Conventions.
    - A Python [str] is a [string]; its characters are code points below
      256.  The text decoded by the extraction handler is a list of
      Unicode code points ([list N]).
    - A raised exception is a value of [exn]; a function that may raise
      returns a [result]; a function that also changes a store returns
      the new store next to its result.
    - Values the code draws from its environment (uuid4, the clock, HTTP
      replies) are arguments of the embedded function. *)

From Stdlib Require Import ZArith QArith List String Ascii Strings.Byte Bool Lia.
From Stdlib Require Import Sorted Permutation DecimalString Finite.
From stdpp Require Import gmap strings.
Import ListNotations.

Set Warnings "-register-all".

Local Open Scope Z_scope.
Local Open Scope string_scope.
Local Open Scope list_scope.

(** ** Exceptions and results *)

Inductive exn : Type :=
| PathTraversalError (msg : string)   (* subclass of StorageError *)
| StorageError (msg : string)
| OSError (msg : string)              (* FileNotFoundError, IsADirectoryError, ... *)
| RuntimeError (msg : string)         (* pathlib: symlink loop *)
| UnicodeDecodeError
| AttributeError (msg : string)
| TypeError (msg : string)
| ReError (msg : string)              (* re.error *)
| IntegrityError (msg : string)       (* violated UNIQUE constraint *)
| HTTPException (code : Z) (detail : string)
| KeyError (key : string)
| Exception (msg : string).

Inductive result (A : Type) : Type :=
| Ok (a : A)
| Raise (e : exn).
Arguments Ok {A} a.
Arguments Raise {A} e.

Definition is_ok {A} (r : result A) : bool :=
  match r with Ok _ => true | Raise _ => false end.

(** [except StorageError] also catches its subclass. *)
Definition is_StorageError (e : exn) : bool :=
  match e with
  | PathTraversalError _ | StorageError _ => true
  | _ => false
  end.

(** A computation over a store [S] that may raise.  What was written to
    the store before an exception stays written. *)
Definition io (S A : Type) : Type := S -> result A * S.

Definition ret {S A} (a : A) : io S A := fun s => (Ok a, s).
Definition raise {S A} (e : exn) : io S A := fun s => (Raise e, s).
Definition bind {S A B} (m : io S A) (k : A -> io S B) : io S B :=
  fun s => match m s with
           | (Ok a, s') => k a s'
           | (Raise e, s') => (Raise e, s')
           end.
Definition get {S} : io S S := fun s => (Ok s, s).
Definition put {S} (s : S) : io S unit := fun _ => (Ok tt, s).

Declare Scope io_scope.
Delimit Scope io_scope with io.
Notation "'let*' x ':=' m 'in' k" := (bind m (fun x => k))
  (at level 10, x name, m at level 100, k at level 200, only parsing) : io_scope.
Notation "'run' m 'in' k" := (bind m (fun _ => k))
  (at level 10, m at level 100, k at level 200, only parsing) : io_scope.

(** ** Strings *)

Definition dq : string := String "034"%char EmptyString.
Definition nl : string := String "010"%char EmptyString.

(** [s.split(sep)] for a one-character separator. *)
Fixpoint split_on (sep : ascii) (s : string) : list string :=
  match s with
  | EmptyString => [EmptyString]
  | String c s' =>
      if Ascii.eqb c sep then EmptyString :: split_on sep s'
      else match split_on sep s' with
           | [] => [String c EmptyString]
           | w :: ws => String c w :: ws
           end
  end.

Definition startswith (s p : string) : bool := String.prefix p s.

(** [needle in hay]. *)
Fixpoint contains (needle hay : string) : bool :=
  String.prefix needle hay ||
  match hay with
  | EmptyString => false
  | String _ hay' => contains needle hay'
  end.

Definition lower_char (c : ascii) : ascii :=
  let n := N_of_ascii c in
  if ((65 <=? n) && (n <=? 90))%N then ascii_of_N (n + 32) else c.

Fixpoint lower (s : string) : string :=
  match s with
  | EmptyString => EmptyString
  | String c s' => String (lower_char c) (lower s')
  end.

Definition len (s : string) : Z := Z.of_nat (String.length s).

Definition str_of_Z (z : Z) : string := NilZero.string_of_int (Z.to_int z).

(** ** Stable insertion sort, as [sorted(..., key=...)] and ORDER BY *)

Section Sorting.
Context {A : Type} (le : A -> A -> bool).

Fixpoint insert_sorted (x : A) (l : list A) : list A :=
  match l with
  | [] => [x]
  | y :: l' => if le y x then y :: insert_sorted x l' else x :: l
  end.

Definition sort_by (l : list A) : list A :=
  fold_left (fun acc x => insert_sorted x acc) l [].
End Sorting.

(** ** Storage sandbox ([api/app/services/storage.py]) *)

Module Storage.

(** An absolute POSIX path: its components below [/]. *)
Definition path : Type := list string.

(** The file system is a tree.  File contents are bytes; a symbolic link
    holds its target as text.  Permissions and timestamps are not part of
    the model, so the [PermissionError] handlers have nothing to catch
    and metadata carries no dates. *)
Inductive node : Type :=
| File (data : list byte)
| Symlink (target : string)
| Dir (entries : list (string * node)).

Fixpoint assoc {A} (k : string) (l : list (string * A)) : option A :=
  match l with
  | [] => None
  | (k', v) :: l' => if String.eqb k k' then Some v else assoc k l'
  end.

Fixpoint assoc_set {A} (k : string) (v : A) (l : list (string * A)) : list (string * A) :=
  match l with
  | [] => [(k, v)]
  | (k', v') :: l' =>
      if String.eqb k k' then (k, v) :: l' else (k', v') :: assoc_set k v l'
  end.

Fixpoint assoc_del {A} (k : string) (l : list (string * A)) : list (string * A) :=
  match l with
  | [] => []
  | (k', v') :: l' =>
      if String.eqb k k' then l' else (k', v') :: assoc_del k l'
  end.

(** The node at a path, links not followed ([os.lstat]). *)
Fixpoint node_at (t : node) (p : path) : option node :=
  match p with
  | [] => Some t
  | name :: p' =>
      match t with
      | Dir es => match assoc name es with
                  | Some n => node_at n p'
                  | None => None
                  end
      | _ => None
      end
  end.

(** Put [new] at [p], or remove what is there when [new] is [None];
    [None] when the parent of [p] is not an existing directory. *)
Fixpoint update (t : node) (p : path) (new : option node) : option node :=
  match p with
  | [] => new
  | name :: p' =>
      match t with
      | Dir es =>
          match p' with
          | [] => Some (Dir (match new with
                             | Some n => assoc_set name n es
                             | None => assoc_del name es
                             end))
          | _ :: _ =>
              match assoc name es with
              | Some child =>
                  match update child p' new with
                  | Some child' => Some (Dir (assoc_set name child' es))
                  | None => None
                  end
              | None => None
              end
          end
      | _ => None
      end
  end.

(** [Path.mkdir(parents=True, exist_ok=True)]. *)
Fixpoint mkdir_p (t : node) (p : path) : result node :=
  match p with
  | [] => match t with
          | Dir _ => Ok t
          | _ => Raise (OSError "FileExistsError")
          end
  | name :: p' =>
      match t with
      | Dir es =>
          let child := match assoc name es with
                       | Some c => c
                       | None => Dir []
                       end in
          match mkdir_p child p' with
          | Ok child' => Ok (Dir (assoc_set name child' es))
          | Raise e => Raise e
          end
      | _ => Raise (OSError "NotADirectoryError")
      end
  end.

(** *** Paths as pathlib reads them *)

Definition is_abs (s : string) : bool := startswith s "/".

(** Components of a path string: empty ones and [.] are dropped, [..]
    is kept until the path is resolved. *)
Definition parts (s : string) : list string :=
  List.filter (fun w => negb (String.eqb w "") && negb (String.eqb w "."))
              (split_on "/" s).

(** [root / relpath]: an absolute right operand replaces the left one. *)
Definition join (root : path) (relpath : string) : list string :=
  if is_abs relpath then parts relpath else root ++ parts relpath.

(** How many symbolic links one resolution may expand before it is
    reported as a loop. *)
Definition link_budget : nat := 40.

(** [os.path.realpath]: walk the components from [cur], which is
    already canonical; [..] drops the last canonical component, a link
    is replaced by its target.  [None] is the symlink loop that
    [Path.resolve] reports as [RuntimeError]. *)
Fixpoint resolve_from (links : nat) (t : node) (cur : path) (rest : list string)
  {struct links} : option path :=
  (fix walk (cur : path) (rest : list string) {struct rest} : option path :=
     match rest with
     | [] => Some cur
     | name :: rest' =>
         if String.eqb name ".." then walk (removelast cur) rest'
         else
           match node_at t (cur ++ [name]) with
           | Some (Symlink target) =>
               match links with
               | O => None
               | S links' =>
                   resolve_from links' t
                     (if is_abs target then [] else cur)
                     (parts target ++ rest')
               end
           | _ => walk (cur ++ [name]) rest'
           end
     end) cur rest.

Definition resolve (t : node) (p : list string) : option path :=
  resolve_from link_budget t [] p.

(** [a.relative_to(b)] succeeds iff [b]'s components start [a]'s. *)
Fixpoint is_prefix (r p : path) : bool :=
  match r, p with
  | [], _ => true
  | a :: r', b :: p' => String.eqb a b && is_prefix r' p'
  | _ :: _, [] => false
  end.

Record StorageService : Type := { storage_root : path }.

Definition new_StorageService (t : node) (root : string) : result StorageService :=
  match resolve t (parts root) with
  | None => Raise (RuntimeError "Symlink loop")
  | Some r =>
      match node_at t r with
      | None => Raise (StorageError "Storage root does not exist")
      | Some (Dir _) => Ok {| storage_root := r |}
      | Some _ => Raise (StorageError "Storage root is not a directory")
      end
  end.

Definition safe_join (self : StorageService) (t : node) (relpath : string)
  : result path :=
  match resolve t (join (storage_root self) relpath) with
  | None => Raise (RuntimeError "Symlink loop")
  | Some full_path =>
      if is_prefix (storage_root self) full_path then Ok full_path
      else Raise (PathTraversalError
                    ("Path traversal attempt detected: " ++ relpath))
  end.

(** *** Operations *)

Definition basename (p : path) : string := List.last p "".
Definition parent (p : path) : path := removelast p.

(** [str(p.relative_to(root))] for a path below the root. *)
Definition relative_str (root p : path) : string :=
  String.concat "/" (skipn (List.length root) p).

Definition p_exists (t : node) (p : path) : bool :=
  match node_at t p with
  | Some (File _) | Some (Dir _) => true
  | _ => false
  end.

Definition p_is_file (t : node) (p : path) : bool :=
  match node_at t p with Some (File _) => true | _ => false end.

Definition p_is_dir (t : node) (p : path) : bool :=
  match node_at t p with Some (Dir _) => true | _ => false end.

(** What [entry.stat()] sees: links followed. *)
Definition follow (t : node) (p : path) : option node :=
  match resolve t p with
  | Some q => match node_at t q with
              | Some (Symlink _) => None
              | o => o
              end
  | None => None
  end.

(** The metadata dictionaries of [list_directory] and [stat]; the key
    [mime_type] is present for files only. *)
Record metadata : Type := {
  m_name : string;
  m_path : string;
  m_type : string;
  m_size : option Z;
  m_mime_type : option (option string)
}.

Definition size_of (data : list byte) : Z := Z.of_nat (List.length data).

Section Operations.
(** [hashlib.sha256(...).hexdigest()] and [mimetypes.guess_type(...)[0]]. *)
Variable sha256_hex : list byte -> string.
Variable guess_type : string -> option string.

Variable self : StorageService.

Definition describe (name pathstr : string) (n : node) : metadata :=
  match n with
  | File data =>
      {| m_name := name; m_path := pathstr; m_type := "file";
         m_size := Some (size_of data);
         m_mime_type := Some (guess_type name) |}
  | _ =>
      {| m_name := name; m_path := pathstr;
         m_type := match n with Dir _ => "directory" | _ => "file" end;
         m_size := None; m_mime_type := None |}
  end.

(** Sort key [(not x.is_dir(), x.name)]. *)
Definition entry_le (t : node) (dir : path) (a b : string * node) : bool :=
  let is_dir e := match follow t (dir ++ [fst e]) with
                  | Some (Dir _) => true
                  | _ => false
                  end in
  match is_dir a, is_dir b with
  | true, false => true
  | false, true => false
  | _, _ => String.leb (fst a) (fst b)
  end.

Fixpoint list_items (t : node) (dir : path) (es : list (string * node))
  : result (list metadata) :=
  match es with
  | [] => Ok []
  | (name, _) :: es' =>
      match follow t (dir ++ [name]) with
      | None => Raise (OSError "FileNotFoundError")
      | Some n =>
          match list_items t dir es' with
          | Ok items =>
              Ok (describe name (relative_str (storage_root self) (dir ++ [name])) n
                    :: items)
          | Raise e => Raise e
          end
      end
  end.

Definition list_directory (relpath : string) : io node (list metadata) :=
  fun t =>
    match safe_join self t relpath with
    | Raise e => (Raise e, t)
    | Ok abs_path =>
        match node_at t abs_path with
        | Some (Dir es) =>
            (list_items t abs_path (sort_by (entry_le t abs_path) es), t)
        | Some (File _) =>
            (Raise (StorageError ("Path is not a directory: " ++ relpath)), t)
        | _ => (Raise (StorageError ("Path does not exist: " ++ relpath)), t)
        end
    end.

Definition stat (relpath : string) : io node metadata :=
  fun t =>
    match safe_join self t relpath with
    | Raise e => (Raise e, t)
    | Ok abs_path =>
        if p_exists t abs_path then
          match node_at t abs_path with
          | Some n => (Ok (describe (basename abs_path) relpath n), t)
          | None => (Raise (StorageError ("Path does not exist: " ++ relpath)), t)
          end
        else (Raise (StorageError ("Path does not exist: " ++ relpath)), t)
    end.

(** The handle [read_file] returns is modelled by the bytes it reads. *)
Definition read_file (relpath : string) : io node (list byte) :=
  fun t =>
    match safe_join self t relpath with
    | Raise e => (Raise e, t)
    | Ok abs_path =>
        match node_at t abs_path with
        | Some (File data) => (Ok data, t)
        | Some (Dir _) =>
            (Raise (StorageError ("Path is not a file: " ++ relpath)), t)
        | _ => (Raise (StorageError ("File does not exist: " ++ relpath)), t)
        end
    end.

(** [open(abs_path, "wb")] and the copy into it. *)
Definition write_bytes (abs_path : path) (content : list byte) : io node unit :=
  fun t =>
    if p_is_dir t abs_path then (Raise (OSError "IsADirectoryError"), t)
    else match update t abs_path (Some (File content)) with
         | Some t' => (Ok tt, t')
         | None => (Raise (OSError "FileNotFoundError"), t)
         end.

Definition mkdir_parents (p : path) : io node unit :=
  fun t => match mkdir_p t p with
           | Ok t' => (Ok tt, t')
           | Raise e => (Raise e, t)
           end.

Definition write_file (relpath : string) (content : list byte) (overwrite : bool)
  : io node metadata :=
  (let* abs_path := (fun t => (safe_join self t relpath, t)) in
   let* t := get in
   if p_exists t abs_path && negb overwrite
   then raise (StorageError ("File already exists: " ++ relpath))
   else
     run mkdir_parents (parent abs_path) in
     run write_bytes abs_path content in
     stat relpath)%io.

(** [os.rename] as [shutil.move] uses it on one file system. *)
Definition rename (src dst : path) : io node unit :=
  fun t =>
    if bool_decide (src = dst) then (Ok tt, t)
    else if is_prefix src dst
    then (Raise (OSError "Cannot move a directory into itself"), t)
    else
      match node_at t src with
      | None => (Raise (OSError "FileNotFoundError"), t)
      | Some n =>
          match n, node_at t dst with
          | Dir _, Some (File _) => (Raise (OSError "NotADirectoryError"), t)
          | File _, Some (Dir _) => (Raise (OSError "IsADirectoryError"), t)
          | _, _ =>
              match update t src None with
              | None => (Raise (OSError "FileNotFoundError"), t)
              | Some t1 =>
                  match update t1 dst (Some n) with
                  | Some t2 => (Ok tt, t2)
                  | None => (Raise (OSError "FileNotFoundError"), t)
                  end
              end
          end
      end.

(** [shutil.move(src, dst)]: an existing directory [dst] receives the
    source under its own name. *)
Definition shutil_move (src dst : path) : io node unit :=
  fun t =>
    if p_is_dir t dst && negb (bool_decide (src = dst))
    then
      let real_dst := dst ++ [basename src] in
      if p_exists t real_dst
      then (Raise (OSError "Destination path already exists"), t)
      else rename src real_dst t
    else rename src dst t.

Definition move_file (src_relpath dest_relpath : string) (overwrite : bool)
  : io node metadata :=
  (let* src_abs := (fun t => (safe_join self t src_relpath, t)) in
   let* dest_abs := (fun t => (safe_join self t dest_relpath, t)) in
   let* t := get in
   if negb (p_exists t src_abs)
   then raise (StorageError ("Source does not exist: " ++ src_relpath))
   else if p_exists t dest_abs && negb overwrite
   then raise (StorageError ("Destination already exists: " ++ dest_relpath))
   else
     run mkdir_parents (parent dest_abs) in
     run shutil_move src_abs dest_abs in
     stat dest_relpath)%io.

(** [shutil.copy2(src, dst)] of a regular file. *)
Definition shutil_copy2 (src dst : path) : io node unit :=
  fun t =>
    let real_dst := if p_is_dir t dst then dst ++ [basename src] else dst in
    if bool_decide (src = real_dst)
    then (Raise (OSError "SameFileError"), t)
    else match node_at t src with
         | Some (File data) => write_bytes real_dst data t
         | _ => (Raise (OSError "FileNotFoundError"), t)
         end.

Definition copy_file (src_relpath dest_relpath : string) (overwrite : bool)
  : io node metadata :=
  (let* src_abs := (fun t => (safe_join self t src_relpath, t)) in
   let* dest_abs := (fun t => (safe_join self t dest_relpath, t)) in
   let* t := get in
   if negb (p_exists t src_abs)
   then raise (StorageError ("Source does not exist: " ++ src_relpath))
   else if negb (p_is_file t src_abs)
   then raise (StorageError ("Source is not a file: " ++ src_relpath))
   else if p_exists t dest_abs && negb overwrite
   then raise (StorageError ("Destination already exists: " ++ dest_relpath))
   else
     run mkdir_parents (parent dest_abs) in
     run shutil_copy2 src_abs dest_abs in
     stat dest_relpath)%io.

(** [unlink] of a file, [shutil.rmtree] of a directory. *)
Definition delete_file (relpath : string) : io node bool :=
  (let* abs_path := (fun t => (safe_join self t relpath, t)) in
   let* t := get in
   if negb (p_exists t abs_path)
   then raise (StorageError ("Path does not exist: " ++ relpath))
   else
     match abs_path with
     | [] => run put (Dir []) in raise (OSError "rmdir /")
     | _ :: _ =>
         match update t abs_path None with
         | Some t' => run put t' in ret true
         | None => raise (OSError "FileNotFoundError")
         end
     end)%io.

Definition compute_sha256 (relpath : string) : io node string :=
  fun t =>
    match safe_join self t relpath with
    | Raise e => (Raise e, t)
    | Ok abs_path =>
        match node_at t abs_path with
        | Some (File data) => (Ok (sha256_hex data), t)
        | _ => (Raise (StorageError ("File does not exist: " ++ relpath)), t)
        end
    end.

Definition ensure_directory (relpath : string) : io node path :=
  (let* abs_path := (fun t => (safe_join self t relpath, t)) in
   run mkdir_parents abs_path in
   ret abs_path)%io.

End Operations.

End Storage.

(** ** JSON values and [json.dumps] *)

Inductive json : Type :=
| JNull
| JBool (b : bool)
| JInt (z : Z)
| JFloat (repr : string) (value : Q)   (* a float with its decimal text *)
| JStr (s : string)
| JList (items : list json)
| JObj (fields : list (string * json)).

Definition hex_digit (n : N) : ascii :=
  if (n <? 10)%N then ascii_of_N (48 + n) else ascii_of_N (87 + n).

(** One character inside a JSON string, [ensure_ascii=True]. *)
Definition escape_char (c : ascii) : string :=
  let n := N_of_ascii c in
  if (n =? 34)%N then "\" ++ dq
  else if (n =? 92)%N then "\\"
  else if (n =? 10)%N then "\n"
  else if (n =? 13)%N then "\r"
  else if (n =? 9)%N then "\t"
  else if (n =? 8)%N then "\b"
  else if (n =? 12)%N then "\f"
  else if ((32 <=? n) && (n <=? 126))%N then String c EmptyString
  else "\u00" ++ String (hex_digit (n / 16)) (String (hex_digit (n mod 16)) EmptyString).

Fixpoint escape (s : string) : string :=
  match s with
  | EmptyString => EmptyString
  | String c s' => escape_char c ++ escape s'
  end.

Definition quote (s : string) : string := dq ++ escape s ++ dq.

(** [json.dumps] with its default separators [", "] and [": "]; a dict
    is written in insertion order. *)
Fixpoint dumps (j : json) : string :=
  match j with
  | JNull => "null"
  | JBool true => "true"
  | JBool false => "false"
  | JInt z => str_of_Z z
  | JFloat repr _ => repr
  | JStr s => quote s
  | JList items =>
      ("[" ++ (fix go (l : list json) : string :=
                 match l with
                 | [] => ""
                 | [x] => dumps x
                 | x :: l' => (dumps x ++ ", " ++ go l')%string
                 end) items ++ "]")%string
  | JObj fields =>
      ("{" ++ (fix go (l : list (string * json)) : string :=
                 match l with
                 | [] => ""
                 | [(k, v)] => (quote k ++ ": " ++ dumps v)%string
                 | (k, v) :: l' =>
                     (quote k ++ ": " ++ dumps v ++ ", " ++ go l')%string
                 end) fields ++ "}")%string
  end.

(** A JSON number as Python compares it ([bool] is an [int]); floats are
    taken as the rationals they denote. *)
Definition num_of_json (j : json) : option Q :=
  match j with
  | JInt z => Some (inject_Z z)
  | JFloat _ q => Some q
  | JBool true => Some (inject_Z 1)
  | JBool false => Some (inject_Z 0)
  | _ => None
  end.

(** Truthiness of a JSON value read into Python. *)
Definition truthy (j : json) : bool :=
  match j with
  | JNull | JBool false | JStr EmptyString | JList [] | JObj [] => false
  | JInt z => negb (z =? 0)%Z
  | JFloat _ q => negb (Qeq_bool q 0)
  | _ => true
  end.

Definition json_opt_int (o : option Z) : json :=
  match o with Some z => JInt z | None => JNull end.

Definition json_opt_str (o : option string) : json :=
  match o with Some s => JStr s | None => JNull end.

(** ** Job queue on Redis ([api/app/services/queue.py]) *)

Module Queue.

Record job_data : Type := {
  job_id : string;
  job_type : string;
  payload : list (string * json);
  priority : Z;
  document_id : option Z;
  created_at : string;
  status : string
}.

Definition job_json (j : job_data) : json :=
  JObj [("job_id", JStr (job_id j));
        ("job_type", JStr (job_type j));
        ("payload", JObj (payload j));
        ("priority", JInt (priority j));
        ("document_id", json_opt_int (document_id j));
        ("created_at", JStr (created_at j));
        ("status", JStr (status j))].

(** The member string stored in the sorted set. *)
Definition member (j : job_data) : string := dumps (job_json j).

(** The hash [smartsortierer:job:<id>].  Its field [data] holds
    [json.dumps(job_data)]; the model keeps the record that string
    parses back to. *)
Record job_hash : Type := {
  h_data : option job_data;
  h_status : option string;
  h_result : option string;
  h_error : option string;
  h_completed_at : option string;
  h_failed_at : option string
}.

Definition empty_hash : job_hash :=
  {| h_data := None; h_status := None; h_result := None; h_error := None;
     h_completed_at := None; h_failed_at := None |}.

(** The Redis server: the sorted set [smartsortierer:jobs], kept in the
    server's order (by score, members of equal score in lexicographic
    order of the member string), and the hashes by key. *)
Record redis : Type := {
  zset : list (job_data * Z);
  hashes : gmap string job_hash
}.

Definition empty_redis : redis := {| zset := []; hashes := ∅ |}.

Definition zentry_le (a b : job_data * Z) : bool :=
  (snd a <? snd b)%Z ||
  ((snd a =? snd b)%Z && String.leb (member (fst a)) (member (fst b))).

(** [ZADD key score member]: a member already present is moved to its
    new score, a new one is inserted at its place. *)
Definition zadd (j : job_data) (score : Z) (zs : list (job_data * Z))
  : list (job_data * Z) :=
  insert_sorted zentry_le (j, score)
    (List.filter (fun e => negb (String.eqb (member (fst e)) (member j))) zs).

(** [BZPOPMIN key timeout]: the first entry in the server's order; an
    empty set gives nothing once the timeout has passed. *)
Definition bzpopmin (zs : list (job_data * Z))
  : option (job_data * Z) * list (job_data * Z) :=
  match zs with
  | [] => (None, [])
  | e :: zs' => (Some e, zs')
  end.

Definition job_key (id : string) : string := "smartsortierer:job:" ++ id.

Definition hash_of (r : redis) (key : string) : job_hash :=
  match hashes r !! key with Some h => h | None => empty_hash end.

Definition hset_status (key value : string) (r : redis) : redis :=
  let h := hash_of r key in
  {| zset := zset r;
     hashes := <[key := {| h_data := h_data h; h_status := Some value;
                           h_result := h_result h; h_error := h_error h;
                           h_completed_at := h_completed_at h;
                           h_failed_at := h_failed_at h |}]> (hashes r) |}.

(** [enqueue]; [uuid4] and [utcnow] are the values drawn from
    [uuid.uuid4()] and the clock. *)
Definition enqueue (uuid4 utcnow : string)
    (job_type : string) (payload : list (string * json))
    (priority : Z) (document_id : option Z) (r : redis) : string * redis :=
  let job := {| job_id := uuid4; job_type := job_type; payload := payload;
                priority := priority; document_id := document_id;
                created_at := utcnow; status := "PENDING" |} in
  let h := hash_of r (job_key uuid4) in
  (uuid4,
   {| zset := zadd job priority (zset r);
      hashes := <[job_key uuid4 :=
                    {| h_data := Some job; h_status := Some "PENDING";
                       h_result := h_result h; h_error := h_error h;
                       h_completed_at := h_completed_at h;
                       h_failed_at := h_failed_at h |}]> (hashes r) |}).

Definition dequeue (r : redis) : option job_data * redis :=
  match bzpopmin (zset r) with
  | (None, _) => (None, r)
  | (Some (job, _), rest) =>
      (Some job,
       hset_status (job_key (job_id job)) "RUNNING"
                   {| zset := rest; hashes := hashes r |})
  end.

(** [complete_job]: [res_opt] is the handler's result; a missing or empty
    one would be sent as [None], which the client refuses to encode. *)
Definition complete_job (utcnow : string) (id : string) (res_opt : option json)
    (r : redis) : result unit * redis :=
  match res_opt with
  | None | Some (JObj []) => (Raise (Exception "DataError"), r)
  | Some res =>
      let h := hash_of r (job_key id) in
      (Ok tt,
       {| zset := zset r;
          hashes := <[job_key id :=
                        {| h_data := h_data h; h_status := Some "COMPLETED";
                           h_result := Some (dumps res); h_error := h_error h;
                           h_completed_at := Some utcnow;
                           h_failed_at := h_failed_at h |}]> (hashes r) |})
  end.

Definition fail_job (utcnow : string) (id : string) (error : string)
    (r : redis) : redis :=
  let h := hash_of r (job_key id) in
  {| zset := zset r;
     hashes := <[job_key id :=
                   {| h_data := h_data h; h_status := Some "FAILED";
                      h_result := h_result h; h_error := Some error;
                      h_completed_at := h_completed_at h;
                      h_failed_at := Some utcnow |}]> (hashes r) |}.

(** What [get_job_status] returns: the stored record with the hash's
    status, result and error. *)
Record job_status : Type := {
  s_job : job_data;
  s_status : option string;
  s_result : option string;
  s_error : option string
}.

Definition get_job_status (id : string) (r : redis) : option job_status :=
  match hashes r !! job_key id with
  | None => None
  | Some h =>
      match h_data h with
      | Some j => Some {| s_job := j; s_status := h_status h;
                          s_result := h_result h; s_error := h_error h |}
      | None => None
      end
  end.

Definition get_queue_length (r : redis) : Z := Z.of_nat (List.length (zset r)).

(** Repeated [dequeue] until the queue is empty: the jobs in the order
    the workers receive them. *)
Fixpoint drain (fuel : nat) (r : redis) : list job_data :=
  match fuel with
  | O => []
  | S fuel' =>
      match dequeue r with
      | (None, _) => []
      | (Some j, r') => j :: drain fuel' r'
      end
  end.

Definition dequeue_all (r : redis) : list job_data :=
  drain (List.length (zset r)) r.

End Queue.

(** ** The relational store ([api/app/models/document.py]) *)

Module Models.

Inductive DocStatus : Type :=
| INGESTED | ANALYZING | ANALYZED | NEEDS_REVIEW
| APPROVED | COMMITTED | ERROR | DUPLICATE.

(** The columns of [documents] that ingest and the pipeline use.  A
    [Float] column holds a rational. *)
Record Document : Type := {
  id : Z;
  file_sha256 : string;
  original_filename : string;
  mime_type : option string;
  file_size_bytes : option Z;
  inbox_relpath : option string;
  ingested_relpath : option string;
  status : DocStatus;
  extracted_text : option string;
  page_count : option Z;
  category : option string;
  suggested_filename : option string;
  suggested_target_path : option string;
  classification_confidence : option Q;
  llm_trace : option json;
  analyzed_at : option string
}.

(** Assignment to one attribute of a loaded document. *)
Definition set_status (v : DocStatus) (d : Document) : Document :=
  {| id := id d; file_sha256 := file_sha256 d;
     original_filename := original_filename d; mime_type := mime_type d;
     file_size_bytes := file_size_bytes d; inbox_relpath := inbox_relpath d;
     ingested_relpath := ingested_relpath d; status := v;
     extracted_text := extracted_text d; page_count := page_count d;
     category := category d; suggested_filename := suggested_filename d;
     suggested_target_path := suggested_target_path d;
     classification_confidence := classification_confidence d;
     llm_trace := llm_trace d; analyzed_at := analyzed_at d |}.

Definition set_extracted_text (v : option string) (d : Document) : Document :=
  {| id := id d; file_sha256 := file_sha256 d;
     original_filename := original_filename d; mime_type := mime_type d;
     file_size_bytes := file_size_bytes d; inbox_relpath := inbox_relpath d;
     ingested_relpath := ingested_relpath d; status := status d;
     extracted_text := v; page_count := page_count d; category := category d;
     suggested_filename := suggested_filename d;
     suggested_target_path := suggested_target_path d;
     classification_confidence := classification_confidence d;
     llm_trace := llm_trace d; analyzed_at := analyzed_at d |}.

Definition set_page_count (v : option Z) (d : Document) : Document :=
  {| id := id d; file_sha256 := file_sha256 d;
     original_filename := original_filename d; mime_type := mime_type d;
     file_size_bytes := file_size_bytes d; inbox_relpath := inbox_relpath d;
     ingested_relpath := ingested_relpath d; status := status d;
     extracted_text := extracted_text d; page_count := v;
     category := category d; suggested_filename := suggested_filename d;
     suggested_target_path := suggested_target_path d;
     classification_confidence := classification_confidence d;
     llm_trace := llm_trace d; analyzed_at := analyzed_at d |}.

Definition set_category (v : option string) (d : Document) : Document :=
  {| id := id d; file_sha256 := file_sha256 d;
     original_filename := original_filename d; mime_type := mime_type d;
     file_size_bytes := file_size_bytes d; inbox_relpath := inbox_relpath d;
     ingested_relpath := ingested_relpath d; status := status d;
     extracted_text := extracted_text d; page_count := page_count d;
     category := v; suggested_filename := suggested_filename d;
     suggested_target_path := suggested_target_path d;
     classification_confidence := classification_confidence d;
     llm_trace := llm_trace d; analyzed_at := analyzed_at d |}.

Definition set_suggested_filename (v : option string) (d : Document) : Document :=
  {| id := id d; file_sha256 := file_sha256 d;
     original_filename := original_filename d; mime_type := mime_type d;
     file_size_bytes := file_size_bytes d; inbox_relpath := inbox_relpath d;
     ingested_relpath := ingested_relpath d; status := status d;
     extracted_text := extracted_text d; page_count := page_count d;
     category := category d; suggested_filename := v;
     suggested_target_path := suggested_target_path d;
     classification_confidence := classification_confidence d;
     llm_trace := llm_trace d; analyzed_at := analyzed_at d |}.

Definition set_suggested_target_path (v : option string) (d : Document) : Document :=
  {| id := id d; file_sha256 := file_sha256 d;
     original_filename := original_filename d; mime_type := mime_type d;
     file_size_bytes := file_size_bytes d; inbox_relpath := inbox_relpath d;
     ingested_relpath := ingested_relpath d; status := status d;
     extracted_text := extracted_text d; page_count := page_count d;
     category := category d; suggested_filename := suggested_filename d;
     suggested_target_path := v;
     classification_confidence := classification_confidence d;
     llm_trace := llm_trace d; analyzed_at := analyzed_at d |}.

Definition set_classification_confidence (v : option Q) (d : Document) : Document :=
  {| id := id d; file_sha256 := file_sha256 d;
     original_filename := original_filename d; mime_type := mime_type d;
     file_size_bytes := file_size_bytes d; inbox_relpath := inbox_relpath d;
     ingested_relpath := ingested_relpath d; status := status d;
     extracted_text := extracted_text d; page_count := page_count d;
     category := category d; suggested_filename := suggested_filename d;
     suggested_target_path := suggested_target_path d;
     classification_confidence := v; llm_trace := llm_trace d;
     analyzed_at := analyzed_at d |}.

Definition set_llm_trace (v : option json) (d : Document) : Document :=
  {| id := id d; file_sha256 := file_sha256 d;
     original_filename := original_filename d; mime_type := mime_type d;
     file_size_bytes := file_size_bytes d; inbox_relpath := inbox_relpath d;
     ingested_relpath := ingested_relpath d; status := status d;
     extracted_text := extracted_text d; page_count := page_count d;
     category := category d; suggested_filename := suggested_filename d;
     suggested_target_path := suggested_target_path d;
     classification_confidence := classification_confidence d;
     llm_trace := v; analyzed_at := analyzed_at d |}.

Definition set_analyzed_at (v : option string) (d : Document) : Document :=
  {| id := id d; file_sha256 := file_sha256 d;
     original_filename := original_filename d; mime_type := mime_type d;
     file_size_bytes := file_size_bytes d; inbox_relpath := inbox_relpath d;
     ingested_relpath := ingested_relpath d; status := status d;
     extracted_text := extracted_text d; page_count := page_count d;
     category := category d; suggested_filename := suggested_filename d;
     suggested_target_path := suggested_target_path d;
     classification_confidence := classification_confidence d;
     llm_trace := llm_trace d; analyzed_at := v |}.

Record DocumentChunk : Type := {
  chunk_id : Z;
  document_id : Z;
  chunk_index : Z;
  chunk_text : string;
  chunk_tokens : Z;
  qdrant_point_id : option string
}.

(** A row of the table [rules]; [conditions] and [actions] are JSONB
    objects ([None] for SQL NULL). *)
Record Rule : Type := {
  rule_id : Z;
  rule_name : string;
  rule_priority : Z;
  is_active : bool;
  conditions : option (list (string * json));
  actions : list (string * json)
}.

(** The committed state of the database.  The two counters are the
    sequences behind the [id] columns. *)
Record database : Type := {
  documents : list Document;
  next_document_id : Z;
  chunks : list DocumentChunk;
  next_chunk_id : Z;
  rules : list Rule;
  audit_events : list (string * Z)
}.

(** [db.query(Document).filter(Document.id == i).first()]. *)
Definition get_document (db : database) (i : Z) : option Document :=
  List.find (fun d => (id d =? i)%Z) (documents db).

(** [db.query(Document).filter(Document.file_sha256 == h).first()]. *)
Definition get_document_by_sha (db : database) (h : string) : option Document :=
  List.find (fun d => String.eqb (file_sha256 d) h) (documents db).

(** Commit of a loaded and modified document: an UPDATE of its row. *)
Definition save_document (d : Document) (db : database) : database :=
  {| documents := List.map (fun d' => if (id d' =? id d)%Z then d else d')
                           (documents db);
     next_document_id := next_document_id db;
     chunks := chunks db;
     next_chunk_id := next_chunk_id db;
     rules := rules db;
     audit_events := audit_events db |}.

(** [db.add(document); db.commit()] of a new document.  The sequence
    gives the id; the UNIQUE constraint on [file_sha256] (line 35 of the
    model) refuses a hash that a row already has, and the transaction
    leaves no row behind. *)
Definition add_document (d : Document) (db : database)
  : result Document * database :=
  let db' := {| documents := documents db;
                next_document_id := next_document_id db + 1;
                chunks := chunks db;
                next_chunk_id := next_chunk_id db;
                rules := rules db;
                audit_events := audit_events db |} in
  if List.existsb (fun d' => String.eqb (file_sha256 d') (file_sha256 d))
                  (documents db)
  then (Raise (IntegrityError "duplicate key value violates unique constraint"),
        db')
  else
    let row := {| id := next_document_id db;
                  file_sha256 := file_sha256 d;
                  original_filename := original_filename d;
                  mime_type := mime_type d;
                  file_size_bytes := file_size_bytes d;
                  inbox_relpath := inbox_relpath d;
                  ingested_relpath := ingested_relpath d;
                  status := status d;
                  extracted_text := extracted_text d;
                  page_count := page_count d;
                  category := category d;
                  suggested_filename := suggested_filename d;
                  suggested_target_path := suggested_target_path d;
                  classification_confidence := classification_confidence d;
                  llm_trace := llm_trace d;
                  analyzed_at := analyzed_at d |} in
    (Ok row,
     {| documents := documents db ++ [row];
        next_document_id := next_document_id db + 1;
        chunks := chunks db;
        next_chunk_id := next_chunk_id db;
        rules := rules db;
        audit_events := audit_events db |}).

(** [AuditLogger.log_document_event]: one more row in [audit_events];
    a failure to write it is swallowed by the logger. *)
Definition log_document_event (event_type : string) (doc : Z) (db : database)
  : database :=
  {| documents := documents db;
     next_document_id := next_document_id db;
     chunks := chunks db;
     next_chunk_id := next_chunk_id db;
     rules := rules db;
     audit_events := audit_events db ++ [(event_type, doc)] |}.

End Models.

(** ** Ingest ([api/app/api/docs.py], [ingest_document]) *)

Module Ingest.
Import Models.

Record world : Type := {
  fs : Storage.node;
  db : database;
  queue : Queue.redis
}.

Definition on_fs {A} (m : io Storage.node A) : io world A :=
  fun w => match m (fs w) with
           | (r, t) => (r, {| fs := t; db := db w; queue := queue w |})
           end.

Definition on_db {A} (m : database -> result A * database) : io world A :=
  fun w => match m (db w) with
           | (r, d) => (r, {| fs := fs w; db := d; queue := queue w |})
           end.

Definition on_queue {A} (m : Queue.redis -> A * Queue.redis) : io world A :=
  fun w => match m (queue w) with
           | (a, q) => (Ok a, {| fs := fs w; db := db w; queue := q |})
           end.

(** [try: body  except Exception as e: handler(e)]. *)
Definition try_except {S A} (body : io S A) (handler : exn -> io S A) : io S A :=
  fun s => match body s with
           | (Ok a, s') => (Ok a, s')
           | (Raise e, s') => handler e s'
           end.

(** [str(e)]. *)
Definition exn_str (e : exn) : string :=
  match e with
  | PathTraversalError m | StorageError m | OSError m | RuntimeError m
  | AttributeError m | TypeError m | ReError m | IntegrityError m
  | KeyError m | Exception m => m
  | UnicodeDecodeError => "UnicodeDecodeError"
  | HTTPException code detail => (str_of_Z code ++ ": " ++ detail)%string
  end.

Record IngestRequest : Type := {
  inbox_path : string;
  skip_duplicate_check : bool
}.

Record IngestResponse : Type := {
  r_document_id : option Z;
  r_status : string;
  r_message : string;
  r_is_duplicate : bool;
  r_duplicate_of : option Z;
  r_sha256 : string
}.

(** The values one request draws: four job ids and four clock readings. *)
Record draws : Type := {
  uuid_extract : string; now_extract : string;
  uuid_chunk : string; now_chunk : string;
  uuid_embed : string; now_embed : string;
  uuid_classify : string; now_classify : string
}.

(** Step 7 of [ingest_document]: the four jobs of one document. *)
Definition enqueue_pipeline (env : draws) (doc : Z) (ingested_path : string)
    (mime : option string) (q : Queue.redis) : unit * Queue.redis :=
  let '(extract_job_id, q1) :=
    Queue.enqueue (uuid_extract env) (now_extract env) "extract_text"
      [("document_id", JInt doc); ("file_path", JStr ingested_path);
       ("mime_type", json_opt_str mime)] 50 (Some doc) q in
  let '(chunk_job_id, q2) :=
    Queue.enqueue (uuid_chunk env) (now_chunk env) "chunk_text"
      [("document_id", JInt doc); ("depends_on", JStr extract_job_id)]
      100 (Some doc) q1 in
  let '(embed_job_id, q3) :=
    Queue.enqueue (uuid_embed env) (now_embed env) "embed_chunks"
      [("document_id", JInt doc); ("depends_on", JStr chunk_job_id)]
      150 (Some doc) q2 in
  let '(classify_job_id, q4) :=
    Queue.enqueue (uuid_classify env) (now_classify env) "classify_document"
      [("document_id", JInt doc); ("depends_on", JStr embed_job_id)]
      200 (Some doc) q3 in
  (tt, q4).

Section Endpoint.
Variable sha256_hex : list byte -> string.
Variable guess_type : string -> option string.
Variable storage : Storage.StorageService.
Variable env : draws.

(** Steps 3 to 7: the path taken when no duplicate is reported. *)
Definition ingest_new (inbox_path sha256 : string) : io world IngestResponse :=
  (let* file_stat := on_fs (Storage.stat guess_type storage inbox_path) in
   let original_filename := Storage.m_name file_stat in
   let ingested_filename := (sha256 ++ "_" ++ original_filename)%string in
   let ingested_path := ("01_ingested/" ++ ingested_filename)%string in
   let mime := match Storage.m_mime_type file_stat with
               | Some m => m
               | None => None
               end in
   run on_fs (Storage.copy_file guess_type storage inbox_path ingested_path false) in
   let* document :=
     on_db (add_document
              {| id := 0;
                 file_sha256 := sha256;
                 original_filename := original_filename;
                 mime_type := mime;
                 file_size_bytes := Storage.m_size file_stat;
                 inbox_relpath := Some inbox_path;
                 ingested_relpath := Some ingested_path;
                 status := INGESTED;
                 extracted_text := None;
                 page_count := None;
                 category := None;
                 suggested_filename := None;
                 suggested_target_path := None;
                 classification_confidence := None;
                 llm_trace := None;
                 analyzed_at := None |}) in
   run on_db (fun d => (Ok tt, log_document_event "DOC_INGESTED" (id document) d)) in
   run on_queue (enqueue_pipeline env (id document) ingested_path mime) in
   ret {| r_document_id := Some (id document);
          r_status := "INGESTED";
          r_message := ("Document ingested successfully. ID: "
                        ++ str_of_Z (id document))%string;
          r_is_duplicate := false;
          r_duplicate_of := None;
          r_sha256 := sha256 |})%io.

Definition ingest_document (request_body : IngestRequest) : io world IngestResponse :=
  try_except
    (let inbox_path := inbox_path request_body in
     if negb (startswith inbox_path "00_inbox/")
     then raise (HTTPException 403 "Documents can only be ingested from 00_inbox")
     else
       let* sha256 := on_fs (Storage.compute_sha256 sha256_hex storage inbox_path) in
       let* w := get in
       match get_document_by_sha (db w) sha256 with
       | Some existing_doc =>
           if negb (skip_duplicate_check request_body)
           then ret {| r_document_id := Some (id existing_doc);
                       r_status := "DUPLICATE";
                       r_message := ("Document already exists with ID #"
                                     ++ str_of_Z (id existing_doc))%string;
                       r_is_duplicate := true;
                       r_duplicate_of := Some (id existing_doc);
                       r_sha256 := sha256 |}
           else ingest_new inbox_path sha256
       | None => ingest_new inbox_path sha256
       end)%io
    (fun e =>
       if is_StorageError e
       then raise (HTTPException 404 (exn_str e))
       else (* db.rollback(): nothing uncommitted is part of the state *)
         raise (HTTPException 500 ("Ingest failed: " ++ exn_str e)%string)).

End Endpoint.

End Ingest.

(** ** Rules engine ([worker/app/services/rules_engine.py]) *)

Module RulesEngine.
Import Models.

(** What a text column receives when a JSON value is assigned to it.
    Rule actions hold strings; another value is kept as its JSON text. *)
Definition text_column (j : json) : option string :=
  match j with
  | JNull => None
  | JStr s => Some s
  | other => Some (dumps other)
  end.

(** [x != y] between a nullable text column and a JSON value. *)
Definition column_eq (c : option string) (j : json) : bool :=
  match c, j with
  | None, JNull => true
  | Some s, JStr s' => String.eqb s s'
  | _, _ => false
  end.

(** One guarded check of [evaluate_condition]: [Ok true] goes on to the
    next check, [Ok false] is the early [return False]. *)
Definition and_then (r k : result bool) : result bool :=
  match r with
  | Ok true => k
  | other => other
  end.

(** [ORDER BY priority ASC] over the active rows; rows of equal priority
    stay in table order. *)
Definition get_active_rules (db : database) : list Rule :=
  sort_by (fun a b => (rule_priority a <=? rule_priority b)%Z)
          (List.filter is_active (rules db)).

Section Engine.
(** [re.search(pattern, s, re.IGNORECASE) is not None]; an invalid
    pattern raises [re.error]. *)
Variable re_search_ignorecase : string -> string -> result bool.

Definition check_filename_regex (document : Document)
    (condition : list (string * json)) : result bool :=
  match Storage.assoc "filename_regex" condition with
  | None => Ok true
  | Some (JStr pattern) =>
      re_search_ignorecase pattern (original_filename document)
  | Some _ => Raise (TypeError "first argument must be string or compiled pattern")
  end.

Definition check_mime_type (document : Document)
    (condition : list (string * json)) : result bool :=
  match Storage.assoc "mime_type" condition with
  | None => Ok true
  | Some v => Ok (column_eq (mime_type document) v)
  end.

Definition check_mime_type_contains (document : Document)
    (condition : list (string * json)) : result bool :=
  match Storage.assoc "mime_type_contains" condition with
  | None => Ok true
  | Some v =>
      match mime_type document with
      | None | Some EmptyString => Ok false
      | Some m =>
          match v with
          | JStr c => Ok (contains (lower c) (lower m))
          | _ => Raise (AttributeError "lower")
          end
      end
  end.

(** [not document.file_size_bytes or document.file_size_bytes < bound]:
    a size that is [None] or [0] is falsy. *)
Definition check_file_size_min (document : Document)
    (condition : list (string * json)) : result bool :=
  match Storage.assoc "file_size_min" condition with
  | None => Ok true
  | Some v =>
      match file_size_bytes document with
      | None => Ok false
      | Some size =>
          if (size =? 0)%Z then Ok false
          else match num_of_json v with
               | Some bound => Ok (Qle_bool bound (inject_Z size))
               | None => Raise (TypeError "'<' not supported")
               end
      end
  end.

Definition check_file_size_max (document : Document)
    (condition : list (string * json)) : result bool :=
  match Storage.assoc "file_size_max" condition with
  | None => Ok true
  | Some v =>
      match file_size_bytes document with
      | None => Ok false
      | Some size =>
          if (size =? 0)%Z then Ok false
          else match num_of_json v with
               | Some bound => Ok (Qle_bool (inject_Z size) bound)
               | None => Raise (TypeError "'>' not supported")
               end
      end
  end.

Definition check_text_contains (document : Document)
    (condition : list (string * json)) : result bool :=
  match Storage.assoc "text_contains" condition with
  | None => Ok true
  | Some v =>
      match extracted_text document with
      | None | Some EmptyString => Ok false
      | Some text =>
          match v with
          | JStr c => Ok (contains (lower c) (lower text))
          | _ => Raise (AttributeError "lower")
          end
      end
  end.

Definition evaluate_condition (document : Document)
    (condition : list (string * json)) : result bool :=
  and_then (check_filename_regex document condition)
  (and_then (check_mime_type document condition)
  (and_then (check_mime_type_contains document condition)
  (and_then (check_file_size_min document condition)
  (and_then (check_file_size_max document condition)
  (and_then (check_text_contains document condition)
            (Ok true)))))).

(** The loop over [conditions.items()], one key at a time. *)
Fixpoint evaluate_items (document : Document) (items : list (string * json))
  : result bool :=
  match items with
  | [] => Ok true
  | (key, value) :: rest =>
      and_then (evaluate_condition document [(key, value)])
               (evaluate_items document rest)
  end.

Definition evaluate_rule (document : Document) (rule : Rule) : result bool :=
  match conditions rule with
  | None | Some [] => Ok true
  | Some items => evaluate_items document items
  end.

(** [apply_actions]: the document with the fields set, and the dict of
    changes. *)
Definition apply_actions (document : Document) (actions : list (string * json))
  : Document * list (string * json) :=
  let '(d1, c1) :=
    match Storage.assoc "category" actions with
    | Some v => (set_category (text_column v) document, [("category", v)])
    | None => (document, [])
    end in
  let '(d2, c2) :=
    match Storage.assoc "target_path" actions with
    | Some v => (set_suggested_target_path (text_column v) d1,
                 c1 ++ [("target_path", v)])
    | None => (d1, c1)
    end in
  let '(d3, c3) :=
    match Storage.assoc "suggested_filename" actions with
    | Some v => (set_suggested_filename (text_column v) d2,
                 c2 ++ [("suggested_filename", v)])
    | None => (d2, c2)
    end in
  match Storage.assoc "tags" actions with
  | Some v => (d3, c3 ++ [("tags", v)])
  | None => (d3, c3)
  end.

(** The dict [classify_document] returns on a match. *)
Record rule_match : Type := {
  m_rule_id : Z;
  m_rule_name : string;
  m_priority : Z;
  m_changes : list (string * json)
}.

(** The loop of [classify_document] over the loaded rules.  Next to the
    outcome it reports the rules [evaluate_rule] was called on, in
    order. *)
Fixpoint classify_loop (document : Document) (rules : list Rule)
  : list Rule * result (option (Document * rule_match)) :=
  match rules with
  | [] => ([], Ok None)
  | rule :: rest =>
      match evaluate_rule document rule with
      | Raise e => ([rule], Raise e)
      | Ok true =>
          let '(document', changes) := apply_actions document (actions rule) in
          ([rule],
           Ok (Some (document',
                     {| m_rule_id := rule_id rule;
                        m_rule_name := rule_name rule;
                        m_priority := rule_priority rule;
                        m_changes := changes |})))
      | Ok false =>
          let '(seen, outcome) := classify_loop document rest in
          (rule :: seen, outcome)
      end
  end.

Definition classify_document (db : database) (document : Document)
  : result (option (Document * rule_match)) :=
  snd (classify_loop document (get_active_rules db)).

End Engine.

End RulesEngine.

(** ** Model classifier ([worker/app/services/llm_classifier.py]) *)

Module LLMClassifier.
Import Models.

(** What one HTTP call to the model service comes to. *)
Inductive http_reply : Type :=
| TimeoutException
| TransportError (msg : string)
| Reply (status_code : Z) (response_text : option string).

Record LLMClassifier : Type := {
  model : string;
  available : bool
}.

(** [__init__]: the service is pinged once; any failure means "not
    available". *)
Definition new_LLMClassifier (model : string) (ping : http_reply) : LLMClassifier :=
  {| model := model;
     available := match ping with
                  | Reply code _ => (code =? 200)%Z
                  | _ => false
                  end |}.

Section Service.
(** The wording of the prompt around filename, mime type, size and
    preview; [json.loads]; the two regular expressions of
    [parse_llm_response]; the generate endpoint. *)
Variable prompt_template : string -> string -> Z -> string -> string.
Variable json_loads : string -> option json.
Variable fenced_block : string -> option string.
Variable first_object : string -> option string.
Variable ollama_generate : string -> string -> http_reply.

Definition build_prompt (document : Document) : string :=
  let filename := original_filename document in
  let mime := match mime_type document with
              | Some m => if String.eqb m "" then "unknown" else m
              | None => "unknown"
              end in
  let file_size := match file_size_bytes document with
                   | Some n => n
                   | None => 0
                   end in
  let text_preview :=
    match extracted_text document with
    | None | Some EmptyString => ""
    | Some text =>
        if (2000 <? len text)%Z
        then (String.substring 0 2000 text ++ nl ++ nl
              ++ "[... text truncated ...]")%string
        else String.substring 0 2000 text
    end in
  prompt_template filename mime file_size
    (if String.eqb text_preview "" then "(No text extracted)" else text_preview).

Definition parse_llm_response (response_text : string) : option json :=
  match json_loads response_text with
  | Some j => Some j
  | None =>
      match match fenced_block response_text with
            | Some inner => json_loads inner
            | None => None
            end with
      | Some j => Some j
      | None =>
          match first_object response_text with
          | Some obj => json_loads obj
          | None => None
          end
      end
  end.

(** [classify]: [None] is "no result".  Only a JSON object with both
    required keys comes through: on any other truthy value the
    membership test or the assignment of [llm_trace] raises, which the
    last handler turns into [None]. *)
Definition classify (self : LLMClassifier) (document : Document)
  : option (list (string * json)) :=
  if negb (available self) then None
  else
    let prompt := build_prompt document in
    match ollama_generate (model self) prompt with
    | TimeoutException => None
    | TransportError _ => None
    | Reply status_code body =>
        if negb (status_code =? 200)%Z then None
        else
          match body with
          | None => None
          | Some llm_text =>
              match parse_llm_response llm_text with
              | None => None
              | Some classification =>
                  if negb (truthy classification) then None
                  else
                    match classification with
                    | JObj fields =>
                        match Storage.assoc "category" fields,
                              Storage.assoc "confidence" fields with
                        | Some _, Some _ =>
                            Some (Storage.assoc_set "llm_trace"
                                    (JObj [("model", JStr (model self));
                                           ("prompt_length", JInt (len prompt));
                                           ("response",
                                            JStr (String.substring 0 500 llm_text))])
                                    fields)
                        | _, _ => None
                        end
                    | _ => None
                    end
              end
          end
    end.

End Service.

End LLMClassifier.

(** ** The classify_document handler ([worker/handlers/classify_document.py]) *)

Module ClassifyDocumentHandler.
Import Models.

Definition payload_document_id (payload : list (string * json)) : result Z :=
  match Storage.assoc "document_id" payload with
  | Some (JInt i) => Ok i
  | Some _ => Raise (TypeError "document_id")
  | None => Raise (KeyError "document_id")
  end.

(** [d.get(key)] on the classifier's dict. *)
Definition dict_get (key : string) (d : list (string * json)) : json :=
  match Storage.assoc key d with
  | Some v => v
  | None => JNull
  end.

(** [{**base, **extra}]: a key of [extra] replaces the value in place,
    a new key is appended. *)
Definition dict_update (base extra : list (string * json)) : list (string * json) :=
  fold_left (fun acc kv => Storage.assoc_set (fst kv) (snd kv) acc) extra base.

Section Handler.
Variable re_search_ignorecase : string -> string -> result bool.
(** [self.llm], with the service it talks to. *)
Variable prompt_template : string -> string -> Z -> string -> string.
Variable json_loads : string -> option json.
Variable fenced_block : string -> option string.
Variable first_object : string -> option string.
Variable ollama_generate : string -> string -> LLMClassifier.http_reply.
Variable llm : LLMClassifier.LLMClassifier.

Definition llm_classify (document : Document) : option (list (string * json)) :=
  LLMClassifier.classify prompt_template json_loads fenced_block first_object
    ollama_generate llm document.

(** [document.analyzed_at = db.execute(db.query(db.func.now())).scalar()]
    followed by [db.commit()] and the handler's [return]: [now] is what
    reading the database clock comes to.  When it raises, the session is
    closed without a commit. *)
Definition stamp_and_commit (now : result string) (document : Document)
    (returned : json) (db : database) : result json * database :=
  match now with
  | Ok t => (Ok returned, save_document (set_analyzed_at (Some t) document) db)
  | Raise e => (Raise e, db)
  end.

(** [execute].  Nothing is committed when an exception leaves the
    handler. *)
Definition execute (now : result string) (payload : list (string * json))
    (db : database) : result json * database :=
  match payload_document_id payload with
  | Raise e => (Raise e, db)
  | Ok document_id =>
      match get_document db document_id with
      | None =>
          (Raise (Exception ("Document " ++ str_of_Z document_id ++ " not found")),
           db)
      | Some document =>
          (* 1. Try rules engine first *)
          match RulesEngine.classify_document re_search_ignorecase db document with
          | Raise e => (Raise e, db)
          | Ok (Some (document, rule_result)) =>
              let document := set_classification_confidence (Some 1%Q) document in
              let document :=
                set_llm_trace
                  (Some (JObj [("method", JStr "rules");
                               ("rule_id", JInt (RulesEngine.m_rule_id rule_result));
                               ("rule_name", JStr (RulesEngine.m_rule_name rule_result));
                               ("changes", JObj (RulesEngine.m_changes rule_result))]))
                  document in
              let document := set_status ANALYZED document in
              stamp_and_commit now document
                (JObj [("method", JStr "rules");
                       ("confidence", JFloat "1.0" 1);
                       ("category", json_opt_str (category document));
                       ("rule_name", JStr (RulesEngine.m_rule_name rule_result))])
                db
          | Ok None =>
              (* 2. No rule matched, try LLM *)
              match llm_classify document with
              | Some llm_result =>
                  let document :=
                    set_category (RulesEngine.text_column (dict_get "category" llm_result))
                                 document in
                  let document :=
                    set_suggested_filename
                      (RulesEngine.text_column (dict_get "suggested_filename" llm_result))
                      document in
                  let document :=
                    set_suggested_target_path
                      (RulesEngine.text_column (dict_get "target_path" llm_result))
                      document in
                  let confidence :=
                    match Storage.assoc "confidence" llm_result with
                    | Some v => v
                    | None => JFloat "0.5" (1 # 2)
                    end in
                  match num_of_json confidence with
                  | None => (Raise (TypeError "'>=' not supported"), db)
                  | Some c =>
                      let document := set_classification_confidence (Some c) document in
                      let document :=
                        set_llm_trace
                          (Some (JObj (dict_update
                                         [("method", JStr "llm");
                                          ("model", JStr (LLMClassifier.model llm))]
                                         match Storage.assoc "llm_trace" llm_result with
                                         | Some (JObj t) => t
                                         | _ => []
                                         end)))
                          document in
                      let document :=
                        set_status (if Qle_bool (8 # 10) c then ANALYZED
                                    else NEEDS_REVIEW) document in
                      stamp_and_commit now document
                        (JObj [("method", JStr "llm");
                               ("confidence", confidence);
                               ("category", json_opt_str (category document))])
                        db
                  end
              | None =>
                  (* 3. No classification possible *)
                  let document := set_status NEEDS_REVIEW document in
                  stamp_and_commit now document
                    (JObj [("method", JStr "none");
                           ("confidence", JFloat "0.0" 0);
                           ("category", JNull);
                           ("reason", JStr "No rules matched and LLM unavailable")])
                    db
              end
          end
      end
  end.

End Handler.

End ClassifyDocumentHandler.

(** ** The chunk_text handler ([worker/handlers/chunk_text.py]) *)

Module ChunkTextHandler.
Import Models.

(** [c.isspace()] for a code point below 256. *)
Definition is_space (c : ascii) : bool :=
  let n := N_of_ascii c in
  ((9 <=? n) && (n <=? 13) || (28 <=? n) && (n <=? 32)
   || (n =? 133) || (n =? 160))%N.

Fixpoint lstrip (s : string) : string :=
  match s with
  | EmptyString => EmptyString
  | String c s' => if is_space c then lstrip s' else s
  end.

Fixpoint rstrip (s : string) : string :=
  match s with
  | EmptyString => EmptyString
  | String c s' =>
      match rstrip s' with
      | EmptyString => if is_space c then EmptyString else String c EmptyString
      | r => String c r
      end
  end.

Definition strip (s : string) : string := rstrip (lstrip s).

Definition is_newline (c : ascii) : bool := (N_of_ascii c =? 10)%N.

(** [text.split("\n\n")]. *)
Fixpoint split_paragraphs (s : string) : list string :=
  match s with
  | EmptyString => [EmptyString]
  | String c s' =>
      match s' with
      | String c' s'' =>
          if is_newline c && is_newline c'
          then EmptyString :: split_paragraphs s''
          else match split_paragraphs s' with
               | [] => [String c EmptyString]
               | w :: ws => String c w :: ws
               end
      | EmptyString => [String c EmptyString]
      end
  end.

(** [len(s.split())]: the number of whitespace-separated words. *)
Fixpoint count_words (in_word : bool) (s : string) : Z :=
  match s with
  | EmptyString => 0
  | String c s' =>
      if is_space c then count_words false s'
      else (if in_word then 0 else 1) + count_words true s'
  end.

Definition join_paragraphs (l : list string) : string :=
  String.concat (nl ++ nl)%string l.

Record ChunkTextHandler : Type := {
  chunk_size : Z;
  chunk_overlap : Z
}.

Definition new_ChunkTextHandler : ChunkTextHandler :=
  {| chunk_size := 800; chunk_overlap := 200 |}.

(** The loop of [split_into_chunks] over the paragraphs, with its three
    variables.  After [current_chunk = [current_chunk[-1], para]] the
    last element is [para], so the new length is twice [para]'s. *)
Fixpoint split_loop (self : ChunkTextHandler) (paragraphs : list string)
    (chunks : list string) (current_chunk : list string) (current_length : Z)
  : list string :=
  match paragraphs with
  | [] =>
      match current_chunk with
      | [] => chunks
      | _ :: _ => chunks ++ [join_paragraphs current_chunk]
      end
  | para :: rest =>
      let para_length := len para in
      if (chunk_size self <? current_length + para_length)%Z
         && negb (Nat.eqb (List.length current_chunk) 0)
      then
        let chunks := chunks ++ [join_paragraphs current_chunk] in
        if (1 <? List.length current_chunk)%nat
        then split_loop self rest chunks
               [List.last current_chunk ""; para] (len para + para_length)
        else split_loop self rest chunks [para] para_length
      else
        split_loop self rest chunks (current_chunk ++ [para])
                   (current_length + para_length)
  end.

Definition split_into_chunks (self : ChunkTextHandler) (text : string)
  : list string :=
  if String.eqb text "" || String.eqb (strip text) "" then []
  else
    let paragraphs :=
      List.map strip
        (List.filter (fun p => negb (String.eqb (strip p) ""))
                     (split_paragraphs text)) in
    split_loop self paragraphs [] [] 0.

(** The rows [execute] adds: [enumerate(text_chunks)], each with the
    next id of the sequence. *)
Fixpoint chunk_rows (document_id : Z) (idx : Z) (next_id : Z)
    (text_chunks : list string) : list DocumentChunk :=
  match text_chunks with
  | [] => []
  | text :: rest =>
      {| chunk_id := next_id;
         document_id := document_id;
         chunk_index := idx;
         chunk_text := text;
         chunk_tokens := count_words false text;
         qdrant_point_id := None |}
      :: chunk_rows document_id (idx + 1) (next_id + 1) rest
  end.

Definition sum_len (l : list string) : Z :=
  List.fold_right (fun c acc => len c + acc) 0 l.

Definition execute (self : ChunkTextHandler) (payload : list (string * json))
    (db : database) : result json * database :=
  match ClassifyDocumentHandler.payload_document_id payload with
  | Raise e => (Raise e, db)
  | Ok doc_id =>
      match get_document db doc_id with
      | None =>
          (Raise (Exception ("Document " ++ str_of_Z doc_id ++ " not found")), db)
      | Some document =>
          match extracted_text document with
          | None | Some EmptyString =>
              (Raise (Exception ("Document " ++ str_of_Z doc_id
                                 ++ " has no extracted text")), db)
          | Some text =>
              let text_chunks := split_into_chunks self text in
              (* Delete existing chunks (if any) *)
              let kept := List.filter
                            (fun c => negb (document_id c =? doc_id)%Z)
                            (chunks db) in
              (* Create chunk records *)
              let added := chunk_rows doc_id 0 (next_chunk_id db) text_chunks in
              let db1 :=
                {| documents := documents db;
                   next_document_id := next_document_id db;
                   chunks := kept ++ added;
                   next_chunk_id := next_chunk_id db
                                    + Z.of_nat (List.length text_chunks);
                   rules := rules db;
                   audit_events := audit_events db |} in
              (Ok (JObj [("chunks_count",
                          JInt (Z.of_nat (List.length text_chunks)));
                         ("total_chars", JInt (sum_len text_chunks))]),
               save_document (set_status ANALYZING document) db1)
          end
      end
  end.

(** [db.query(DocumentChunk).filter(document_id == i)] in table order. *)
Definition chunks_of (db : database) (i : Z) : list DocumentChunk :=
  List.filter (fun c => (document_id c =? i)%Z) (chunks db).

End ChunkTextHandler.

(** ** The embed_chunks handler ([worker/handlers/embed_chunks.py]) *)

Module EmbedChunksHandler.
Import Models.

(** The two flags record whether the client libraries could be
    imported when the handler was built. *)
Record EmbedChunksHandler : Type := {
  ollama_available : bool;
  qdrant_available : bool
}.

Definition new_EmbedChunksHandler (httpx_imported qdrant_client_imported : bool)
  : EmbedChunksHandler :=
  {| ollama_available := httpx_imported;
     qdrant_available := qdrant_client_imported |}.

(** What the POST to [/api/embeddings] comes to: no connection, or a
    response with its status and the value of its [embedding] key. *)
Inductive embed_reply : Type :=
| ConnectError (msg : string)
| EmbedResponse (status_code : Z) (embedding : option (list Q)).

Section Services.
Variable ollama_embeddings : string -> embed_reply.
(** The vector index: the call made for one point, raising when the
    index cannot be reached or refuses the point. *)
Variable qdrant_upsert : string -> Z -> Z -> Z -> string -> list Q -> result unit.
(** [str(uuid.uuid4())] drawn for the point of a chunk. *)
Variable uuid4_for : Z -> string.

Variable self : EmbedChunksHandler.

Definition generate_embedding (text : string) : result (list Q) :=
  if negb (ollama_available self) then Ok []
  else
    match ollama_embeddings text with
    | ConnectError msg =>
        Raise (Exception ("Embedding generation failed: " ++ msg))
    | EmbedResponse status_code embedding =>
        if (status_code =? 200)%Z
        then Ok (match embedding with Some v => v | None => [] end)
        else Raise (Exception ("Embedding generation failed: Ollama API error: "
                               ++ str_of_Z status_code))
    end.

Definition upsert_to_qdrant (document_id chunk_id chunk_index : Z)
    (text : string) (embedding : list Q) : result (option string) :=
  if negb (qdrant_available self) || Nat.eqb (List.length embedding) 0
  then Ok None
  else
    let point_id := uuid4_for chunk_id in
    match qdrant_upsert point_id document_id chunk_id chunk_index
            (String.substring 0 200 text) embedding with
    | Ok _ => Ok (Some point_id)
    | Raise e => Raise (Exception ("Qdrant upsert failed: " ++ Ingest.exn_str e))
    end.

Definition set_point (p : string) (c : DocumentChunk) : DocumentChunk :=
  {| chunk_id := chunk_id c; document_id := document_id c;
     chunk_index := chunk_index c; chunk_text := chunk_text c;
     chunk_tokens := chunk_tokens c; qdrant_point_id := Some p |}.

(** The loop over the chunks: the chunks as the session holds them
    afterwards, and the count of embedded ones. *)
Fixpoint embed_loop (doc_id : Z) (todo : list DocumentChunk)
  : result (list DocumentChunk * Z) :=
  match todo with
  | [] => Ok ([], 0)
  | chunk :: rest =>
      match generate_embedding (chunk_text chunk) with
      | Raise e => Raise e
      | Ok embedding =>
          match (if Nat.eqb (List.length embedding) 0 then Ok None
                 else upsert_to_qdrant doc_id (chunk_id chunk) (chunk_index chunk)
                        (chunk_text chunk) embedding) with
          | Raise e => Raise e
          | Ok point =>
              match embed_loop doc_id rest with
              | Raise e => Raise e
              | Ok (done, embedded_count) =>
                  match point with
                  | Some point_id =>
                      Ok (set_point point_id chunk :: done, embedded_count + 1)
                  | None => Ok (chunk :: done, embedded_count)
                  end
              end
          end
      end
  end.

(** Commit of the chunks the session changed. *)
Definition save_chunks (changed : list DocumentChunk) (db : database) : database :=
  {| documents := documents db;
     next_document_id := next_document_id db;
     chunks := List.map
                 (fun c => match List.find (fun c' => (chunk_id c' =? chunk_id c)%Z)
                                           changed with
                           | Some c' => c'
                           | None => c
                           end) (chunks db);
     next_chunk_id := next_chunk_id db;
     rules := rules db;
     audit_events := audit_events db |}.

(** [document.status = ANALYZED] on the row found, if any. *)
Definition mark_analyzed (doc_id : Z) (db : database) : database :=
  match get_document db doc_id with
  | Some document => save_document (set_status ANALYZED document) db
  | None => db
  end.

Definition execute (payload : list (string * json)) (db : database)
  : result json * database :=
  match ClassifyDocumentHandler.payload_document_id payload with
  | Raise e => (Raise e, db)
  | Ok doc_id =>
      if negb (ollama_available self) || negb (qdrant_available self)
      then
        (Ok (JObj [("embedded_count", JInt 0);
                   ("skipped", JBool true);
                   ("reason", JStr "Ollama or Qdrant not available")]),
         mark_analyzed doc_id db)
      else
        let found :=
          sort_by (fun a b => (chunk_index a <=? chunk_index b)%Z)
                  (List.filter (fun c => (document_id c =? doc_id)%Z) (chunks db)) in
        match found with
        | [] =>
            (Raise (Exception ("No chunks found for document " ++ str_of_Z doc_id)),
             db)
        | _ :: _ =>
            match embed_loop doc_id found with
            | Raise e => (Raise e, db)
            | Ok (changed, embedded_count) =>
                (Ok (JObj [("embedded_count", JInt embedded_count);
                           ("skipped", JBool false)]),
                 mark_analyzed doc_id (save_chunks changed db))
            end
        end
  end.

End Services.

End EmbedChunksHandler.

(** ** The worker ([worker/runner.py]) *)

Module Worker.
Import Models.

(** [type(e).__name__]. *)
Definition exn_name (e : exn) : string :=
  match e with
  | PathTraversalError _ => "PathTraversalError"
  | StorageError _ => "StorageError"
  | OSError _ => "OSError"
  | RuntimeError _ => "RuntimeError"
  | UnicodeDecodeError => "UnicodeDecodeError"
  | AttributeError _ => "AttributeError"
  | TypeError _ => "TypeError"
  | ReError _ => "error"
  | IntegrityError _ => "IntegrityError"
  | HTTPException _ _ => "HTTPException"
  | KeyError _ => "KeyError"
  | Exception _ => "Exception"
  end.

(** A handler's [execute] over the database. *)
Definition handler : Type :=
  list (string * json) -> database -> result json * database.

(** [process_job]: [handlers] is the table [HANDLERS]; the handler's
    outcome is written to the job's hash. *)
Definition process_job (handlers : string -> option handler) (utcnow : string)
    (job : Queue.job_data) (st : database * Queue.redis)
  : database * Queue.redis :=
  let '(db, r) := st in
  match handlers (Queue.job_type job) with
  | None =>
      (db, Queue.fail_job utcnow (Queue.job_id job)
             ("Unknown job type: " ++ Queue.job_type job) r)
  | Some execute =>
      match execute (Queue.payload job) db with
      | (Ok returned, db') =>
          match Queue.complete_job utcnow (Queue.job_id job) (Some returned) r with
          | (Ok _, r') => (db', r')
          | (Raise e, r') =>
              (db', Queue.fail_job utcnow (Queue.job_id job)
                      (exn_name e ++ ": " ++ Ingest.exn_str e) r')
          end
      | (Raise e, db') =>
          (db', Queue.fail_job utcnow (Queue.job_id job)
                  (exn_name e ++ ": " ++ Ingest.exn_str e) r)
      end
  end.

Definition status_of (id : string) (r : Queue.redis) : option string :=
  match Queue.get_job_status id r with
  | Some st => Queue.s_status st
  | None => None
  end.

End Worker.

(** ** The extract_text handler ([worker/handlers/extract_text.py]) *)

Module ExtractTextHandler.
Import Models.

(** Decoded text: a list of Unicode code points. *)
Definition text : Type := list N.

Inductive encoding : Type := UTF8 | Latin1.

Definition is_cont (n : N) : bool := ((128 <=? n) && (n <=? 191))%N.

Definition between (lo n hi : N) : bool := ((lo <=? n) && (n <=? hi))%N.

Definition push (c : N) (r : option text) : option text :=
  match r with
  | Some cs => Some (c :: cs)
  | None => None
  end.

(** The strict UTF-8 decoder: shortest forms only, no surrogates,
    nothing above U+10FFFF; [None] is [UnicodeDecodeError]. *)
Fixpoint decode_utf8 (bs : list byte) : option text :=
  match bs with
  | [] => Some []
  | b0 :: r0 =>
      let n0 := Byte.to_N b0 in
      if (n0 <? 128)%N then push n0 (decode_utf8 r0)
      else
        match r0 with
        | [] => None
        | b1 :: r1 =>
            let n1 := Byte.to_N b1 in
            if between 194 n0 223 then
              if is_cont n1
              then push ((n0 - 192) * 64 + (n1 - 128))%N (decode_utf8 r1)
              else None
            else
              match r1 with
              | [] => None
              | b2 :: r2 =>
                  let n2 := Byte.to_N b2 in
                  if between 224 n0 239 then
                    if (if (n0 =? 224)%N then between 160 n1 191
                        else if (n0 =? 237)%N then between 128 n1 159
                        else is_cont n1)
                       && is_cont n2
                    then push ((n0 - 224) * 4096 + (n1 - 128) * 64 + (n2 - 128))%N
                              (decode_utf8 r2)
                    else None
                  else
                    match r2 with
                    | [] => None
                    | b3 :: r3 =>
                        let n3 := Byte.to_N b3 in
                        if between 240 n0 244 then
                          if (if (n0 =? 240)%N then between 144 n1 191
                              else if (n0 =? 244)%N then between 128 n1 143
                              else is_cont n1)
                             && is_cont n2 && is_cont n3
                          then push ((n0 - 240) * 262144 + (n1 - 128) * 4096
                                     + (n2 - 128) * 64 + (n3 - 128))%N
                                    (decode_utf8 r3)
                          else None
                        else None
                    end
              end
        end
  end.

(** Latin-1 gives every byte the code point of its value. *)
Definition decode_latin1 (bs : list byte) : option text :=
  Some (List.map Byte.to_N bs).

Definition decode (enc : encoding) (bs : list byte) : option text :=
  match enc with
  | UTF8 => decode_utf8 bs
  | Latin1 => decode_latin1 bs
  end.

(** Text mode reads [\r\n] and [\r] as [\n]. *)
Fixpoint universal_newlines (cs : text) : text :=
  match cs with
  | [] => []
  | c :: rest =>
      if (c =? 13)%N then
        match rest with
        | c' :: rest' =>
            if (c' =? 10)%N then 10%N :: universal_newlines rest'
            else 10%N :: universal_newlines rest
        | [] => [10%N]
        end
      else c :: universal_newlines rest
  end.

(** [with open(file_path, 'r', encoding=enc) as f: return f.read()]. *)
Definition read_text (enc : encoding) (t : Storage.node) (file_path : Storage.path)
  : result text :=
  match Storage.node_at t file_path with
  | Some (Storage.File data) =>
      match decode enc data with
      | Some cs => Ok (universal_newlines cs)
      | None => Raise UnicodeDecodeError
      end
  | Some (Storage.Dir _) => Raise (OSError "IsADirectoryError")
  | _ => Raise (OSError "FileNotFoundError")
  end.

Definition extract_from_text (t : Storage.node) (file_path : Storage.path)
  : result (text * Z) :=
  match read_text UTF8 t file_path with
  | Ok s => Ok (s, 1)
  | Raise UnicodeDecodeError =>
      (* Try latin-1 as fallback *)
      match read_text Latin1 t file_path with
      | Ok s => Ok (s, 1)
      | Raise e => Raise e
      end
  | Raise e => Raise e
  end.

(** [file_path.suffix]. *)
Fixpoint from_last_dot (s : string) : option string :=
  match s with
  | EmptyString => None
  | String c s' =>
      match from_last_dot s' with
      | Some suf => Some suf
      | None => if Ascii.eqb c "." then Some s else None
      end
  end.

Definition suffix (file_path : Storage.path) : string :=
  match Storage.basename file_path with
  | EmptyString => ""
  | String _ rest =>
      match from_last_dot rest with
      | Some suf => if Nat.eqb (String.length suf) 1 then "" else suf
      | None => ""
      end
  end.

Fixpoint join_text (parts : list text) : text :=
  match parts with
  | [] => []
  | [p] => p
  | p :: rest => p ++ [10%N; 10%N] ++ join_text rest
  end.

Section Handler.
(** [PdfReader(file)] and [page.extract_text()] of each page. *)
Variable pdf_pages : list byte -> result (list text).
(** How decoded text is held in the string-valued column. *)
Variable column_text : text -> string.
Variable storage : Storage.StorageService.

Definition extract_from_pdf (t : Storage.node) (file_path : Storage.path)
  : result (text * Z) :=
  match Storage.node_at t file_path with
  | Some (Storage.File data) =>
      match pdf_pages data with
      | Ok pages =>
          let text_parts :=
            List.filter (fun p => negb (Nat.eqb (List.length p) 0)) pages in
          Ok (join_text text_parts, Z.of_nat (List.length pages))
      | Raise e =>
          Raise (Exception ("PDF extraction failed: " ++ Ingest.exn_str e))
      end
  | _ => Raise (Exception "PDF extraction failed: No such file or directory")
  end.

Definition unsupported (mime_type : string) (file_path : Storage.path) : exn :=
  Exception ("Unsupported file format: "
             ++ (if String.eqb mime_type "" then suffix file_path else mime_type)).

(** The choice of extractor by mime type and suffix; in the last branch
    every exception of the text extractor becomes "Unsupported file
    format". *)
Definition extract (mime_type : string) (t : Storage.node)
    (file_path : Storage.path) : result (text * Z) :=
  if contains "pdf" (lower mime_type)
     || String.eqb (lower (suffix file_path)) ".pdf"
  then extract_from_pdf t file_path
  else if contains "text" (lower mime_type)
          || List.existsb (String.eqb (suffix file_path)) [".txt"; ".md"; ".log"]
  then extract_from_text t file_path
  else
    match extract_from_text t file_path with
    | Ok r => Ok r
    | Raise _ => Raise (unsupported mime_type file_path)
    end.

Definition payload_str (key : string) (payload : list (string * json))
  : result string :=
  match Storage.assoc key payload with
  | Some (JStr s) => Ok s
  | Some _ => Raise (TypeError key)
  | None => Raise (KeyError key)
  end.

(** [payload.get("mime_type", "")] followed by [.lower()]: a key that
    is present with [None] has no [lower]. *)
Definition payload_mime_type (payload : list (string * json)) : result string :=
  match Storage.assoc "mime_type" payload with
  | None => Ok ""
  | Some (JStr s) => Ok s
  | Some _ => Raise (AttributeError "'NoneType' object has no attribute 'lower'")
  end.

Definition execute (payload : list (string * json))
    (w : Storage.node * database) : result json * (Storage.node * database) :=
  let '(t, db) := w in
  match ClassifyDocumentHandler.payload_document_id payload with
  | Raise e => (Raise e, w)
  | Ok doc_id =>
      match payload_str "file_path" payload with
      | Raise e => (Raise e, w)
      | Ok file_relpath =>
          match Storage.safe_join storage t file_relpath with
          | Raise e => (Raise e, w)
          | Ok file_path =>
              match payload_mime_type payload with
              | Raise e => (Raise e, w)
              | Ok mime_type =>
                  match extract mime_type t file_path with
                  | Raise e => (Raise e, w)
                  | Ok (extracted, pages) =>
                      match get_document db doc_id with
                      | Some document =>
                          let document :=
                            set_extracted_text (Some (column_text extracted))
                                               document in
                          let document := set_page_count (Some pages) document in
                          let document := set_status ANALYZING document in
                          (Ok (JObj [("extracted_text_length",
                                      JInt (Z.of_nat (List.length extracted)));
                                     ("page_count", JInt pages);
                                     ("char_count",
                                      JInt (Z.of_nat (List.length extracted)))]),
                           (t, save_document document db))
                      | None =>
                          (Raise (Exception ("Document " ++ str_of_Z doc_id
                                             ++ " not found in database")), w)
                      end
                  end
              end
          end
      end
  end.

End Handler.

End ExtractTextHandler.

(** ** The worker's main loop ([worker/runner.py], [Worker.run]) *)

Module Runner.
Import Models.

(** The body of [while self.running]: one [dequeue], and [process_job]
    when it returned a job.  [iterations] is the number of passes made
    before a shutdown signal clears [self.running]; [clock] gives the
    time read in each pass.  The Redis of the model always answers, so
    the loop's two [except] branches have nothing to catch. *)
Fixpoint run_loop (handlers : string -> option Worker.handler) (clock : nat -> string)
    (iterations : nat) (st : database * Queue.redis) : database * Queue.redis :=
  match iterations with
  | O => st
  | S n =>
      let '(db, r) := st in
      match Queue.dequeue r with
      | (Some job_data, r1) =>
          run_loop handlers clock n
            (Worker.process_job handlers (clock n) job_data (db, r1))
      | (None, r1) => run_loop handlers clock n (db, r1)
      end
  end.

(** [run]: without a reachable Redis ([health_check]) the worker leaves
    at once. *)
Definition run_worker (health_check : bool) (handlers : string -> option Worker.handler)
    (clock : nat -> string) (iterations : nat) (st : database * Queue.redis)
  : database * Queue.redis :=
  if negb health_check then st else run_loop handlers clock iterations st.

End Runner.

(** ** API key check ([api/app/core/security.py]) *)

Module Security.

(** Endpoints that don't require an API key. *)
Definition PUBLIC_PATHS : list string :=
  ["/api/health"; "/api/docs"; "/api/redoc"; "/api/openapi.json"].

(** What the middleware and the audit log read of a request.  Header
    names are matched without regard to case; the model keeps them in
    lower case. *)
Record Request : Type := {
  url_path : string;
  headers : list (string * string);
  client_host : option string
}.

(** [request.headers.get(name)]. *)
Definition header (name : string) (request : Request) : option string :=
  Storage.assoc name (headers request).

(** The middleware answers itself, or hands the request on. *)
Inductive outcome (A : Type) : Type :=
| JSONResponse (status_code : Z) (detail : string)
| Forwarded (response : A).
Arguments JSONResponse {A} status_code detail.
Arguments Forwarded {A} response.

(** [APIKeyMiddleware.dispatch]; [API_KEY] is [settings.API_KEY]. *)
Definition dispatch {A} (API_KEY : string) (call_next : Request -> A)
    (request : Request) : outcome A :=
  if List.existsb (String.eqb (url_path request)) PUBLIC_PATHS
  then Forwarded (call_next request)
  else
    match header "x-ss-api-key" request with
    | None | Some EmptyString =>
        JSONResponse 401 "Missing API key. Provide 'x-ss-api-key' header."
    | Some api_key =>
        if negb (String.eqb api_key API_KEY)
        then JSONResponse 403 "Invalid API key"
        else Forwarded (call_next request)
    end.

Definition verify_api_key (API_KEY : string) (api_key : option string) : bool :=
  match api_key with
  | None | Some EmptyString => false
  | Some k => String.eqb k API_KEY
  end.

Record actor_info : Type := {
  actor_type : string;
  actor_id : string;
  ip_address : option string;
  user_agent : option string
}.

Definition get_actor_info (request : Request) : actor_info :=
  {| actor_type := "API";
     actor_id := String.substring 0 16
                   match header "x-ss-api-key" request with
                   | Some k => k
                   | None => "unknown"
                   end;
     ip_address := client_host request;
     user_agent := header "user-agent" request |}.

End Security.

(** ** File endpoints ([api/app/api/files.py]) *)

Module Files.
Import Storage.

(** A row of [audit_events] written for a file operation. *)
Record file_event : Type := {
  event_type : string;
  event_actor : string;
  event_data : list (string * json)
}.

(** The storage tree and the file events of the audit table. *)
Record state : Type := {
  tree : node;
  audit : list file_event
}.

Definition on_tree {A} (m : io node A) : io state A :=
  fun s => match m (tree s) with
           | (r, t) => (r, {| tree := t; audit := audit s |})
           end.

(** The two handlers every endpoint ends with: a traversal is answered
    403, any other storage error with the endpoint's own code; what is
    not a [StorageError] is not caught. *)
Definition http_error (code : Z) (e : exn) : exn :=
  match e with
  | PathTraversalError msg => HTTPException 403 msg
  | StorageError msg => HTTPException code msg
  | other => other
  end.

Definition guarded {A} (code : Z) (body : io state A) : io state A :=
  Ingest.try_except body (fun e => raise (http_error code e)).

(** [PurePosixPath]: whether the path is absolute, and its components.
    (A path that starts with exactly two slashes is read like one that
    starts with one.) *)
Definition pure_path : Type := bool * list string.

Definition Path (s : string) : pure_path := (is_abs s, parts s).

Definition path_parent (p : pure_path) : pure_path := (fst p, removelast (snd p)).

(** [p / s]. *)
Definition path_div (p : pure_path) (s : string) : pure_path :=
  if is_abs s then Path s else (fst p, snd p ++ parts s).

(** [str(p)]. *)
Definition path_str (p : pure_path) : string :=
  match p with
  | (true, cs) => ("/" ++ String.concat "/" cs)%string
  | (false, []) => "."
  | (false, cs) => String.concat "/" cs
  end.

Definition json_opt_size (o : option Z) : json :=
  match o with Some n => JInt n | None => JNull end.

(** [metadata.get("mime_type")] as a JSON value. *)
Definition json_mime (m : metadata) : json :=
  match m_mime_type m with
  | Some (Some s) => JStr s
  | _ => JNull
  end.

Record listing : Type := {
  l_path : string;
  l_items : list metadata;
  l_count : Z
}.

(** The streaming response of a download. *)
Record download : Type := {
  d_content : list byte;
  d_media_type : option string;
  d_filename : string;
  d_content_length : string
}.

Section Endpoints.
Variable guess_type : string -> option string.
Variable storage : StorageService.
(** Whether the ENUM behind [audit_events.event_type] has the value; a
    row it refuses is dropped by the logger without a word. *)
Variable audit_event_type : string -> bool.
Variable request : Security.Request.

(** [AuditLogger.log_file_operation(..., success=True)]. *)
Definition log_file_operation (operation path : string)
    (additional_data : list (string * json)) : io state unit :=
  fun s =>
    let event :=
      {| event_type := ("FILE_" ++ operation)%string;
         event_actor := Security.actor_id (Security.get_actor_info request);
         event_data := ClassifyDocumentHandler.dict_update
                         [("operation", JStr operation); ("path", JStr path);
                          ("success", JBool true)]
                         additional_data |} in
    (Ok tt,
     if audit_event_type (event_type event)
     then {| tree := tree s; audit := audit s ++ [event] |}
     else s).

Definition list_files (path : string) : io state listing :=
  guarded 404
    (let* items := on_tree (list_directory guess_type storage path) in
     let shown := if String.eqb path "" then "/" else path in
     run log_file_operation "LISTED" shown [] in
     ret {| l_path := shown; l_items := items;
            l_count := Z.of_nat (List.length items) |})%io.

Definition get_file_stat (path : string) : io state metadata :=
  guarded 404
    (let* metadata := on_tree (stat guess_type storage path) in
     run log_file_operation "STAT" path [] in
     ret metadata)%io.

Definition download_file (path : string) : io state download :=
  guarded 404
    (let* metadata := on_tree (stat guess_type storage path) in
     if negb (String.eqb (m_type metadata) "file")
     then raise (HTTPException 400 "Cannot download a directory")
     else
       let* file_handle := on_tree (read_file storage path) in
       run log_file_operation "DOWNLOADED" path
             [("size", json_opt_size (m_size metadata))] in
       ret {| d_content := file_handle;
              d_media_type := match m_mime_type metadata with
                              | Some v => v
                              | None => Some "application/octet-stream"
                              end;
              d_filename := m_name metadata;
              d_content_length := match m_size metadata with
                                  | Some n => str_of_Z n
                                  | None => "None"
                                  end |})%io.

Definition upload_target (path filename : string) : string :=
  if String.eqb path "" then filename else (path ++ "/" ++ filename)%string.

Definition upload_file (filename : string) (content : list byte) (path : string)
  : io state metadata :=
  guarded 400
    (let target_relpath := upload_target path filename in
     let* metadata := on_tree (write_file guess_type storage target_relpath
                                 content false) in
     run log_file_operation "UPLOADED" target_relpath
           [("filename", JStr filename);
            ("size", json_opt_size (m_size metadata));
            ("mime_type", json_mime metadata)] in
     ret metadata)%io.

Definition move_file (source destination : string) (overwrite : bool)
  : io state metadata :=
  guarded 400
    (let* metadata := on_tree (Storage.move_file guess_type storage source
                                 destination overwrite) in
     run log_file_operation "MOVED" source
           [("destination", JStr destination); ("overwrite", JBool overwrite)] in
     ret metadata)%io.

(** The new path of a rename: same directory, new name. *)
Definition rename_target (path new_name : string) : string :=
  path_str (path_div (path_parent (Path path)) new_name).

Definition rename_file (path new_name : string) : io state metadata :=
  guarded 400
    (let* current_metadata := on_tree (stat guess_type storage path) in
     let new_path := rename_target path new_name in
     let* metadata := on_tree (Storage.move_file guess_type storage path
                                 new_path false) in
     run log_file_operation "RENAMED" path
           [("new_name", JStr new_name); ("new_path", JStr new_path)] in
     ret metadata)%io.

End Endpoints.

End Files.

(** ** Review endpoints ([api/app/api/docs.py]: approve, update) *)

Module Review.
Import Models.

(** A row of [documents] with the columns the review writes next to
    those of the pipeline. *)
Record Row : Type := {
  document : Document;
  user_approved_category : option string;
  user_approved_filename : option string;
  user_approved_target_path : option string;
  approved_at : option string;
  updated_at : string
}.

(** The table and the document events of the audit table. *)
Record state : Type := {
  rows : list Row;
  events : list (string * Z)
}.

Record ApproveRequest : Type := {
  final_category : option string;
  final_filename : option string;
  final_target_path : option string
}.

Record UpdateDocumentRequest : Type := {
  new_category : option string;
  new_filename : option string;
  new_target_path : option string
}.

(** [a or b] on optional text: [None] and the empty string are falsy. *)
Definition or_else (a b : option string) : option string :=
  match a with
  | Some (String _ _) => a
  | _ => b
  end.

Definition get_row (s : state) (document_id : Z) : option Row :=
  List.find (fun r => (id (document r) =? document_id)%Z) (rows s).

(** [db.commit()] of a loaded and modified row. *)
Definition save_row (row : Row) (s : state) : state :=
  {| rows := List.map (fun r => if (id (document r) =? id (document row))%Z
                                then row else r) (rows s);
     events := events s |}.

Definition reviewable (st : DocStatus) : bool :=
  match st with
  | ANALYZED | NEEDS_REVIEW => true
  | _ => false
  end.

Section Endpoints.
(** The text a status takes in a message, and the ENUM behind
    [audit_events.event_type]. *)
Variable status_text : DocStatus -> string.
Variable audit_event_type : string -> bool.

Definition log_document_event (event_type : string) (document_id : Z) (s : state)
  : state :=
  if audit_event_type event_type
  then {| rows := rows s; events := events s ++ [(event_type, document_id)] |}
  else s.

Definition not_found (document_id : Z) : exn :=
  HTTPException 404 ("Document " ++ str_of_Z document_id ++ " not found").

(** [utcnow] is the reading of the clock for [approved_at], [onupdate]
    the one the UPDATE takes for [updated_at]. *)
Definition approve_document (utcnow onupdate : string) (document_id : Z)
    (request_body : ApproveRequest) : io state Row :=
  fun s =>
    match get_row s document_id with
    | None => (Raise (not_found document_id), s)
    | Some row =>
        let d := document row in
        if negb (reviewable (status d))
        then (Raise (HTTPException 400
                       ("Document cannot be approved. Current status: "
                        ++ status_text (status d))), s)
        else
          let row' :=
            {| document := set_status APPROVED d;
               user_approved_category :=
                 or_else (final_category request_body)
                   (or_else (user_approved_category row) (category d));
               user_approved_filename :=
                 or_else (final_filename request_body)
                   (or_else (user_approved_filename row)
                      (or_else (suggested_filename d)
                         (Some (original_filename d))));
               user_approved_target_path :=
                 or_else (final_target_path request_body)
                   (or_else (user_approved_target_path row)
                      (or_else (suggested_target_path d)
                         (Some "03_sorted/Uncategorized")));
               approved_at := Some utcnow;
               updated_at := onupdate |} in
          (Ok row', log_document_event "DOC_APPROVED" document_id (save_row row' s))
    end.

Definition update_document (utcnow : string) (document_id : Z)
    (request_body : UpdateDocumentRequest) : io state Row :=
  fun s =>
    match get_row s document_id with
    | None => (Raise (not_found document_id), s)
    | Some row =>
        let row' :=
          {| document := document row;
             user_approved_category :=
               match new_category request_body with
               | Some v => Some v
               | None => user_approved_category row
               end;
             user_approved_filename :=
               match new_filename request_body with
               | Some v => Some v
               | None => user_approved_filename row
               end;
             user_approved_target_path :=
               match new_target_path request_body with
               | Some v => Some v
               | None => user_approved_target_path row
               end;
             approved_at := approved_at row;
             updated_at := utcnow |} in
        (Ok row', save_row row' s)
    end.

End Endpoints.

End Review.

(** * Properties *)

(** *** The sandbox check comes first *)

Module StorageFacts.
Import Storage.

(** The fixture of [tests/test_storage_security.py], with a world
    outside the root, a link that leaves the root and a link loop. *)
Definition fixture : node :=
  Dir [("etc", Dir [("passwd", File [x72; x6f; x6f; x74])]);
       ("srv",
        Dir [("ss",
              Dir [("00_inbox",
                    Dir [("test.txt", File [x74; x65; x73; x74]);
                         ("out", Symlink "/etc");
                         ("loop", Symlink "loop")]);
                   ("01_ingested", Dir []);
                   ("secret", Dir [("private.txt", File [x73])])])])].

Definition temp_storage : StorageService := {| storage_root := ["srv"; "ss"] |}.

Definition no_mime (name : string) : option string := None.
Definition toy_digest (data : list byte) : string :=
  str_of_Z (Z.of_nat (List.length data)).

Example test_safe_join_normal_path :
  safe_join temp_storage fixture "00_inbox/test.txt"
  = Ok ["srv"; "ss"; "00_inbox"; "test.txt"].
Proof. reflexivity. Qed.

Example test_safe_join_blocks_parent_traversal :
  safe_join temp_storage fixture "00_inbox/../../../etc/passwd"
  = Raise (PathTraversalError
             "Path traversal attempt detected: 00_inbox/../../../etc/passwd").
Proof. reflexivity. Qed.

Example test_safe_join_blocks_absolute_path :
  safe_join temp_storage fixture "/etc/passwd"
  = Raise (PathTraversalError "Path traversal attempt detected: /etc/passwd").
Proof. reflexivity. Qed.

Example test_safe_join_blocks_symbolic_link_escape :
  safe_join temp_storage fixture "00_inbox/out/passwd"
  = Raise (PathTraversalError
             "Path traversal attempt detected: 00_inbox/out/passwd").
Proof. reflexivity. Qed.

(** What [safe_join] returns lies below the root. *)
Lemma safe_join_within (self : StorageService) (t : node) (relpath : string) (p : path) :
  safe_join self t relpath = Ok p -> is_prefix (storage_root self) p = true.
Proof.
  unfold safe_join.
  destruct (resolve t (join (storage_root self) relpath)) as [full|]; [|discriminate].
  destruct (is_prefix (storage_root self) full) eqn:E; [|discriminate].
  intros H; injection H as <-; exact E.
Qed.

Lemma safe_join_rejects (self : StorageService) (t : node) (relpath : string) (full : path) :
  resolve t (join (storage_root self) relpath) = Some full ->
  is_prefix (storage_root self) full = false ->
  safe_join self t relpath
  = Raise (PathTraversalError ("Path traversal attempt detected: " ++ relpath)).
Proof.
  intros Hres Hout. unfold safe_join. rewrite Hres, Hout. reflexivity.
Qed.

Section Rejection.
Variable sha256_hex : list byte -> string.
Variable guess_type : string -> option string.
Variable self : StorageService.

Definition traversal (relpath : string) : exn :=
  PathTraversalError ("Path traversal attempt detected: " ++ relpath).

End Rejection.


End StorageFacts.

(** *** Facts about the insertion sort *)

Section SortingFacts.
Context {A : Type} (le : A -> A -> bool).
Hypothesis le_total : forall a b, le a b = true \/ le b a = true.
Hypothesis le_trans : forall a b c, le a b = true -> le b c = true -> le a c = true.

Lemma insert_sorted_perm (x : A) (l : list A) :
  Permutation (insert_sorted le x l) (x :: l).
Proof.
  induction l as [|y l IH]; simpl; [reflexivity|].
  destruct (le y x); [|reflexivity].
  rewrite IH. apply perm_swap.
Qed.

Lemma insert_sorted_Forall (P : A -> Prop) (x : A) (l : list A) :
  P x -> Forall P l -> Forall P (insert_sorted le x l).
Proof.
  intros Hx Hl. induction Hl as [|y l Hy Hl IH]; simpl.
  - constructor; [exact Hx | constructor].
  - destruct (le y x); constructor; auto.
Qed.

Lemma insert_sorted_sorted (x : A) (l : list A) :
  StronglySorted (fun a b => le a b = true) l ->
  StronglySorted (fun a b => le a b = true) (insert_sorted le x l).
Proof using le_total le_trans.
  intros Hs. induction Hs as [|y l Hs IH Hy]; simpl.
  - constructor; constructor.
  - destruct (le y x) eqn:E.
    + constructor; [exact IH|].
      apply insert_sorted_Forall; assumption.
    + assert (Hxy : le x y = true).
      { destruct (le_total x y) as [H|H]; [exact H | congruence]. }
      constructor; [constructor; assumption|].
      constructor; [exact Hxy|].
      eapply List.Forall_impl; [|exact Hy].
      intros z Hz. eapply le_trans; eassumption.
Qed.

Lemma sort_from_sorted (l acc : list A) :
  StronglySorted (fun a b => le a b = true) acc ->
  StronglySorted (fun a b => le a b = true)
    (fold_left (fun acc x => insert_sorted le x acc) l acc).
Proof using le_total le_trans.
  revert acc. induction l as [|x l IH]; intros acc Hacc; simpl; [exact Hacc|].
  apply IH, insert_sorted_sorted, Hacc.
Qed.

Lemma sort_by_sorted (l : list A) :
  StronglySorted (fun a b => le a b = true) (sort_by le l).
Proof using le_total le_trans.
  apply sort_from_sorted. constructor.
Qed.

Lemma sort_from_perm (l acc : list A) :
  Permutation (fold_left (fun acc x => insert_sorted le x acc) l acc) (l ++ acc).
Proof.
  revert acc. induction l as [|x l IH]; intros acc; simpl; [reflexivity|].
  rewrite IH, insert_sorted_perm. symmetry. apply Permutation_middle.
Qed.

Lemma sort_by_perm (l : list A) : Permutation (sort_by le l) l.
Proof.
  unfold sort_by. rewrite sort_from_perm, app_nil_r. reflexivity.
Qed.

Lemma filter_sorted (R : A -> A -> Prop) (f : A -> bool) (l : list A) :
  StronglySorted R l -> StronglySorted R (List.filter f l).
Proof.
  intros Hs. induction Hs as [|y l Hs IH Hy]; simpl; [constructor|].
  destruct (f y); [|exact IH].
  constructor; [exact IH|].
  rewrite List.Forall_forall in *. intros z Hz.
  apply List.filter_In in Hz. apply Hy, Hz.
Qed.

End SortingFacts.

Lemma sorted_weaken {A : Type} (R R' : A -> A -> Prop) (l : list A) :
  (forall a b, R a b -> R' a b) -> StronglySorted R l -> StronglySorted R' l.
Proof.
  intros Himp Hs. induction Hs as [|x l Hs IH Hx]; constructor; [exact IH|].
  eapply List.Forall_impl; [|exact Hx]. intros b. apply Himp.
Qed.

(** *** Order of strings *)

Lemma string_compare_lt_trans (a b c : string) :
  String.compare a b = Lt -> String.compare b c = Lt -> String.compare a c = Lt.
Proof.
  revert b c. induction a as [|x a IH]; intros [|y b] [|z c]; simpl;
    try discriminate; auto.
  unfold Ascii.compare.
  destruct (N.compare_spec (N_of_ascii x) (N_of_ascii y)) as [E1|L1|G1];
    try discriminate;
    destruct (N.compare_spec (N_of_ascii y) (N_of_ascii z)) as [E2|L2|G2];
    try discriminate;
    destruct (N.compare_spec (N_of_ascii x) (N_of_ascii z)) as [E3|L3|G3];
    intros; try lia; eauto.
Qed.

Lemma string_leb_trans (a b c : string) :
  String.leb a b = true -> String.leb b c = true -> String.leb a c = true.
Proof.
  unfold String.leb.
  destruct (String.compare a b) eqn:Eab; try discriminate;
    destruct (String.compare b c) eqn:Ebc; try discriminate; intros _ _.
  - rewrite (String.compare_eq_iff _ _ Eab). now rewrite Ebc.
  - rewrite (String.compare_eq_iff _ _ Eab). now rewrite Ebc.
  - rewrite <- (String.compare_eq_iff _ _ Ebc). now rewrite Eab.
  - now rewrite (string_compare_lt_trans a b c Eab Ebc).
Qed.

(** *** Order of delivery *)

Module QueueFacts.
Import Queue.

#[local] Arguments member : simpl never.
#[local] Arguments zentry_le : simpl never.

(** One call of [enqueue] with the uuid and the time it drew. *)
Record call : Type := {
  c_uuid4 : string;
  c_utcnow : string;
  c_job_type : string;
  c_payload : list (string * json);
  c_priority : Z;
  c_document_id : option Z
}.

Definition do_enqueue (c : call) (r : redis) : redis :=
  snd (enqueue (c_uuid4 c) (c_utcnow c) (c_job_type c) (c_payload c)
               (c_priority c) (c_document_id c) r).

(** The record [enqueue] builds for a call. *)
Definition job_of_call (c : call) : job_data :=
  {| job_id := c_uuid4 c; job_type := c_job_type c; payload := c_payload c;
     priority := c_priority c; document_id := c_document_id c;
     created_at := c_utcnow c; status := "PENDING" |}.

Definition enqueue_all (calls : list call) (r : redis) : redis :=
  fold_left (fun r c => do_enqueue c r) calls r.

(** [x] stands before [y] in [l]. *)
Definition before {A} (x y : A) (l : list A) : Prop :=
  exists l1 l2 l3, l = l1 ++ x :: l2 ++ y :: l3.

(** First-in-first-out among equal priorities, as a property of a
    sequence of calls. *)
Definition fifo_within_priority (calls : list call) : Prop :=
  forall a b,
    before a b (List.map job_of_call calls) ->
    priority a = priority b ->
    before a b (dequeue_all (enqueue_all calls empty_redis)).

(** Every entry's score is its job's priority and the set is in the
    server's order. *)
Definition zset_ok (zs : list (job_data * Z)) : Prop :=
  StronglySorted (fun a b => zentry_le a b = true) zs
  /\ Forall (fun e => snd e = priority (fst e)) zs.

Lemma zentry_le_total (a b : job_data * Z) :
  zentry_le a b = true \/ zentry_le b a = true.
Proof.
  unfold zentry_le.
  destruct (Z.ltb_spec (snd a) (snd b)); [left; reflexivity|].
  destruct (Z.ltb_spec (snd b) (snd a)); [right; reflexivity|].
  assert (E : snd a = snd b) by lia.
  rewrite E, Z.eqb_refl. simpl.
  apply String.leb_total.
Qed.

Lemma zentry_le_trans (a b c : job_data * Z) :
  zentry_le a b = true -> zentry_le b c = true -> zentry_le a c = true.
Proof.
  unfold zentry_le. intros Hab Hbc.
  apply orb_true_iff in Hab, Hbc. apply orb_true_iff.
  rewrite !andb_true_iff, !Z.ltb_lt, !Z.eqb_eq in *.
  destruct Hab as [Hab|[Eab Lab]], Hbc as [Hbc|[Ebc Lbc]].
  - left; lia.
  - left; lia.
  - left; lia.
  - right. split; [lia|]. eapply string_leb_trans; eassumption.
Qed.

Lemma zadd_ok (j : job_data) (zs : list (job_data * Z)) :
  zset_ok zs -> zset_ok (zadd j (priority j) zs).
Proof.
  intros [Hs Hp]. unfold zadd. split.
  - apply insert_sorted_sorted.
    + apply zentry_le_total.
    + apply zentry_le_trans.
    + apply filter_sorted, Hs.
  - apply insert_sorted_Forall; [reflexivity|].
    rewrite List.Forall_forall in *. intros e He.
    apply List.filter_In in He. apply Hp, He.
Qed.

Lemma do_enqueue_zset (c : call) (r : redis) :
  zset (do_enqueue c r) = zadd (job_of_call c) (c_priority c) (zset r).
Proof. reflexivity. Qed.

Lemma enqueue_all_ok (calls : list call) (r : redis) :
  zset_ok (zset r) -> zset_ok (zset (enqueue_all calls r)).
Proof.
  revert r. induction calls as [|c calls IH]; intros r Hr; simpl; [exact Hr|].
  apply IH. rewrite do_enqueue_zset. apply (zadd_ok (job_of_call c)), Hr.
Qed.

(** Draining the queue delivers the sorted set from its head. *)
Lemma drain_zset (zs : list (job_data * Z)) (h : gmap string job_hash) :
  drain (List.length zs) {| zset := zs; hashes := h |} = List.map fst zs.
Proof.
  revert h. induction zs as [|[j s] zs IH]; intros h; simpl; [reflexivity|].
  f_equal. apply IH.
Qed.

Lemma dequeue_all_zset (r : redis) : dequeue_all r = List.map fst (zset r).
Proof. destruct r as [zs h]. apply drain_zset. Qed.

Lemma zset_ok_jobs (zs : list (job_data * Z)) :
  zset_ok zs ->
  StronglySorted (fun a b => priority a <= priority b) (List.map fst zs)
  /\ StronglySorted
       (fun a b => priority a = priority b ->
                   String.leb (member a) (member b) = true)
       (List.map fst zs).
Proof.
  intros [Hs Hp]. induction Hs as [|e zs Hs IH He]; simpl.
  - split; constructor.
  - inversion Hp as [|? ? Hpe Hpz]; subst.
    destruct (IH Hpz) as [IH1 IH2].
    split; (constructor; [assumption|]);
      rewrite List.Forall_forall in *; intros j Hj;
      apply List.in_map_iff in Hj; destruct Hj as [e' [<- He']];
      specialize (He e' He'); specialize (Hpz e' He');
      unfold zentry_le in He; rewrite <- Hpe, <- Hpz.
    + apply orb_true_iff in He. rewrite andb_true_iff, Z.ltb_lt, Z.eqb_eq in He.
      lia.
    + intros Heq. apply orb_true_iff in He.
      rewrite andb_true_iff, Z.ltb_lt, Z.eqb_eq in He.
      destruct He as [He|[_ He]]; [lia | exact He].
Qed.

Lemma zadd_fresh (j : job_data) (s : Z) (zs : list (job_data * Z)) :
  ~ In (member j) (List.map (fun e => member (fst e)) zs) ->
  zadd j s zs = insert_sorted zentry_le (j, s) zs.
Proof.
  intros Hfresh. unfold zadd. f_equal.
  induction zs as [|e zs IH]; [reflexivity|].
  cbn [List.filter].
  destruct (String.eqb_spec (member (fst e)) (member j)) as [E|N]; cbn [negb].
  - exfalso. apply Hfresh. left. exact E.
  - f_equal. apply IH. intros H. apply Hfresh. right. exact H.
Qed.

Lemma enqueue_all_perm (calls : list call) (r : redis) :
  List.NoDup (List.map (fun c => member (job_of_call c)) calls
         ++ List.map (fun e => member (fst e)) (zset r)) ->
  Permutation (List.map fst (zset (enqueue_all calls r)))
              (List.map fst (zset r) ++ List.map job_of_call calls).
Proof.
  revert r. induction calls as [|c calls IH]; intros r Hnd; simpl.
  - rewrite app_nil_r. reflexivity.
  - simpl in Hnd. apply List.NoDup_cons_iff in Hnd. destruct Hnd as [Hc Hnd].
    assert (Hz : zset (do_enqueue c r)
                 = insert_sorted zentry_le (job_of_call c, c_priority c) (zset r)).
    { rewrite do_enqueue_zset. apply zadd_fresh.
      intros H. apply Hc. apply in_or_app. right. exact H. }
    rewrite IH.
    + rewrite Hz.
      rewrite (Permutation_map fst (insert_sorted_perm zentry_le _ (zset r))).
      simpl. apply Permutation_middle.
    + rewrite Hz.
      eapply Permutation_NoDup; [|apply List.NoDup_cons; [exact Hc | exact Hnd]].
      rewrite (Permutation_map (fun e => member (fst e))
                 (insert_sorted_perm zentry_le _ (zset r))).
      simpl. apply Permutation_middle.
Qed.


(** Two jobs of one document stage, enqueued in this order. *)
Definition first_call : call :=
  {| c_uuid4 := "c9bf9e57-1685-4c89-bafb-ff5af830be8a";
     c_utcnow := "2024-05-01T10:00:00.000000";
     c_job_type := "extract_text";
     c_payload := [("document_id", JInt 1);
                   ("file_path", JStr "01_ingested/aa_a.txt");
                   ("mime_type", JStr "text/plain")];
     c_priority := 50;
     c_document_id := Some 1 |}.

Definition second_call : call :=
  {| c_uuid4 := "0b0e7c8a-3f5d-4c1e-9a52-6d1f0c2b7e11";
     c_utcnow := "2024-05-01T10:00:01.000000";
     c_job_type := "extract_text";
     c_payload := [("document_id", JInt 2);
                   ("file_path", JStr "01_ingested/bb_b.txt");
                   ("mime_type", JStr "text/plain")];
     c_priority := 50;
     c_document_id := Some 2 |}.


End QueueFacts.

(** *** Queries after a commit *)

Module ModelsFacts.
Import Models.

(** A saved document is what a later query by its id finds. *)
Lemma get_after_save (db : database) (i : Z) (old new : Document) :
  get_document db i = Some old -> id new = i ->
  get_document (save_document new db) i = Some new.
Proof.
  unfold get_document, save_document. cbn [documents].
  intros Hget Hid. subst i.
  induction (documents db) as [|d ds IH]; simpl in *; [discriminate|].
  destruct (Z.eqb_spec (id d) (id new)) as [E|N]; simpl.
  - rewrite Z.eqb_refl. reflexivity.
  - destruct (Z.eqb_spec (id d) (id new)); [contradiction|].
    apply IH, Hget.
Qed.

Lemma get_document_id (db : database) (i : Z) (d : Document) :
  get_document db i = Some d -> id d = i.
Proof.
  unfold get_document. intros H. apply List.find_some in H.
  apply Z.eqb_eq, H.
Qed.

End ModelsFacts.

(** *** Re-ingesting a known content hash *)

Module IngestFacts.
Import Models Ingest.

Lemma compute_sha256_reads_only (sha256_hex : list byte -> string)
    (storage : Storage.StorageService) (relpath : string) (t : Storage.node) :
  snd (Storage.compute_sha256 sha256_hex storage relpath t) = t.
Proof.
  unfold Storage.compute_sha256.
  destruct (Storage.safe_join storage t relpath) as [p|e]; [|reflexivity].
  destruct (Storage.node_at t p) as [[d|s|es]|]; reflexivity.
Qed.

Lemma stat_reads_only (guess_type : string -> option string)
    (storage : Storage.StorageService) (relpath : string) (t : Storage.node) :
  snd (Storage.stat guess_type storage relpath t) = t.
Proof.
  unfold Storage.stat.
  destruct (Storage.safe_join storage t relpath) as [p|e]; [|reflexivity].
  destruct (Storage.p_exists t p); [|reflexivity].
  destruct (Storage.node_at t p); reflexivity.
Qed.

Lemma on_fs_db {A} (m : io Storage.node A) (w : world) :
  db (snd (on_fs m w)) = db w.
Proof. unfold on_fs. destruct (m (fs w)); reflexivity. Qed.

Lemma known_sha_exists (d : database) (h : string) (doc : Document) :
  get_document_by_sha d h = Some doc ->
  List.existsb (fun d' => String.eqb (file_sha256 d') h) (documents d) = true.
Proof.
  unfold get_document_by_sha. intros H.
  apply List.existsb_exists.
  apply List.find_some in H. exists doc. exact H.
Qed.

Lemma add_document_known_sha (d : database) (doc new : Document) :
  get_document_by_sha d (file_sha256 new) = Some doc ->
  exists e, fst (add_document new d) = Raise e
            /\ documents (snd (add_document new d)) = documents d.
Proof.
  intros H. unfold add_document.
  rewrite (known_sha_exists d (file_sha256 new) doc H).
  eexists; split; reflexivity.
Qed.

Section Reingest.
Variable sha256_hex : list byte -> string.
Variable guess_type : string -> option string.
Variable storage : Storage.StorageService.
Variable env : draws.

(** With the hash already in the table the full path adds no row: it
    fails at the latest when the row is inserted. *)
Lemma ingest_new_known_sha (inbox_path h : string) (w : world) (doc : Document) :
  get_document_by_sha (db w) h = Some doc ->
  exists e w', ingest_new guess_type storage env inbox_path h w = (Raise e, w')
               /\ documents (db w') = documents (db w).
Proof.
  intros Hknown. unfold ingest_new, bind.
  destruct (on_fs (Storage.stat guess_type storage inbox_path) w)
    as [[file_stat|e] w1] eqn:E1.
  2:{ exists e, w1. split; [reflexivity|].
      replace w1 with (snd (on_fs (Storage.stat guess_type storage inbox_path) w))
        by (rewrite E1; reflexivity).
      now rewrite on_fs_db. }
  assert (Hdb1 : db w1 = db w).
  { replace w1 with (snd (on_fs (Storage.stat guess_type storage inbox_path) w))
      by (rewrite E1; reflexivity).
    apply on_fs_db. }
  match goal with
  | |- context [on_fs ?m w1] =>
      destruct (on_fs m w1) as [[copied|e] w2] eqn:E2;
      assert (Hdb2 : db w2 = db w1)
        by (replace w2 with (snd (on_fs m w1)) by (rewrite E2; reflexivity);
            apply on_fs_db)
  end.
  2:{ exists e, w2. split; [reflexivity|]. now rewrite Hdb2, Hdb1. }
  unfold on_db.
  match goal with
  | |- context [add_document ?new (db w2)] =>
      destruct (add_document_known_sha (db w2) doc new) as [e [He Hd]];
      [ cbn [file_sha256]; rewrite Hdb2, Hdb1; exact Hknown |];
      destruct (add_document new (db w2)) as [r d'] eqn:E3
  end.
  cbn [fst snd] in He, Hd. subst r.
  eexists _, _. split; [reflexivity|].
  cbn [db]. now rewrite Hd, Hdb2, Hdb1.
Qed.

(** C4, as the code has it.  When the hash computed for the request's
    file is the [file_sha256] of a row, ingest adds no [Document] row,
    whatever the request's flag; and a request on an inbox path that
    leaves [skip_duplicate_check] off is answered with status DUPLICATE
    and the id of that row, and changes nothing. *)
Theorem reingest_known_hash
    (request_body : IngestRequest) (w : world) (h : string) (doc : Document) :
  fst (Storage.compute_sha256 sha256_hex storage (inbox_path request_body) (fs w))
  = Ok h ->
  get_document_by_sha (db w) h = Some doc ->
  documents (db (snd (ingest_document sha256_hex guess_type storage env
                                      request_body w)))
  = documents (db w)
  /\ (startswith (inbox_path request_body) "00_inbox/" = true ->
      skip_duplicate_check request_body = false ->
      ingest_document sha256_hex guess_type storage env request_body w
      = (Ok {| r_document_id := Some (id doc);
               r_status := "DUPLICATE";
               r_message := ("Document already exists with ID #"
                             ++ str_of_Z (id doc))%string;
               r_is_duplicate := true;
               r_duplicate_of := Some (id doc);
               r_sha256 := h |}, w)).
Proof.
  intros Hsha Hknown.
  assert (Hfs : on_fs (Storage.compute_sha256 sha256_hex storage
                         (inbox_path request_body)) w = (Ok h, w)).
  { unfold on_fs.
    pose proof (compute_sha256_reads_only sha256_hex storage
                  (inbox_path request_body) (fs w)) as Hro.
    destruct (Storage.compute_sha256 sha256_hex storage
                (inbox_path request_body) (fs w)) as [r t].
    cbn [fst snd] in Hsha, Hro. subst. destruct w; reflexivity. }
  split.
  - unfold ingest_document, try_except, bind.
    destruct (startswith (inbox_path request_body) "00_inbox/"); cbn [negb].
    2:{ reflexivity. }
    rewrite Hfs. cbn [get]. rewrite Hknown.
    destruct (skip_duplicate_check request_body); cbn [negb].
    + destruct (ingest_new_known_sha (inbox_path request_body) h w doc Hknown)
        as (e & w' & Hnew & Hdocs).
      rewrite Hnew.
      destruct (is_StorageError e); cbn [raise snd]; exact Hdocs.
    + reflexivity.
  - intros Hinbox Hskip.
    unfold ingest_document, try_except, bind.
    rewrite Hinbox; cbn [negb]. rewrite Hfs. cbn [get]. rewrite Hknown, Hskip.
    reflexivity.
Qed.

End Reingest.

(** A storage root holding one ingested file and a second inbox file
    with the same content under another name. *)
Definition same_bytes : list byte := [x68; x65; x6c; x6c; x6f].

Definition digest : string := StorageFacts.toy_digest same_bytes.

Definition disk : Storage.node :=
  Storage.Dir
    [("srv",
      Storage.Dir
        [("ss",
          Storage.Dir
            [("00_inbox",
              Storage.Dir [("a.txt", Storage.File same_bytes);
                           ("b.txt", Storage.File same_bytes)]);
             ("01_ingested",
              Storage.Dir [((digest ++ "_a.txt")%string,
                            Storage.File same_bytes)])])])].

Definition first_document : Document :=
  {| id := 1;
     file_sha256 := digest;
     original_filename := "a.txt";
     mime_type := Some "text/plain";
     file_size_bytes := Some 5;
     inbox_relpath := Some "00_inbox/a.txt";
     ingested_relpath := Some ("01_ingested/" ++ digest ++ "_a.txt")%string;
     status := INGESTED;
     extracted_text := None;
     page_count := None;
     category := None;
     suggested_filename := None;
     suggested_target_path := None;
     classification_confidence := None;
     llm_trace := None;
     analyzed_at := None |}.

Definition before_reingest : world :=
  {| fs := disk;
     db := {| documents := [first_document]; next_document_id := 2;
              chunks := []; next_chunk_id := 1; rules := [];
              audit_events := [("DOC_INGESTED", 1)] |};
     queue := Queue.empty_redis |}.

Definition some_draws : draws :=
  {| uuid_extract := "6f1c2b3a-0d4e-4f5a-8b6c-7d8e9f0a1b2c";
     now_extract := "2024-05-01T10:00:00.000000";
     uuid_chunk := "1a2b3c4d-5e6f-4a7b-8c9d-0e1f2a3b4c5d";
     now_chunk := "2024-05-01T10:00:00.000100";
     uuid_embed := "9e8d7c6b-5a4f-4e3d-a2c1-b0a9f8e7d6c5";
     now_embed := "2024-05-01T10:00:00.000200";
     uuid_classify := "3c4d5e6f-7a8b-4c9d-9e0f-1a2b3c4d5e6f";
     now_classify := "2024-05-01T10:00:00.000300" |}.

Definition guess_by_suffix (name : string) : option string :=
  if contains ".txt" name then Some "text/plain" else None.

Lemma reingest_known_hash_witness :
  ingest_document StorageFacts.toy_digest guess_by_suffix
    StorageFacts.temp_storage some_draws
    {| inbox_path := "00_inbox/b.txt"; skip_duplicate_check := false |}
    before_reingest
  = (Ok {| r_document_id := Some 1;
           r_status := "DUPLICATE";
           r_message := "Document already exists with ID #1";
           r_is_duplicate := true;
           r_duplicate_of := Some 1;
           r_sha256 := digest |}, before_reingest).
Proof.
  apply (reingest_known_hash StorageFacts.toy_digest guess_by_suffix
           StorageFacts.temp_storage some_draws
           {| inbox_path := "00_inbox/b.txt"; skip_duplicate_check := false |}
           before_reingest digest first_document);
    reflexivity.
Defined.

(** C4 as stated fails: with [skip_duplicate_check] set, a request
    for a file whose hash a row already has is answered with an error,
    not with the id of that row. *)
Lemma reingest_with_skip_reports_no_id :
  fst (Storage.compute_sha256 StorageFacts.toy_digest StorageFacts.temp_storage
         "00_inbox/b.txt" (fs before_reingest)) = Ok digest
  /\ get_document_by_sha (db before_reingest) digest = Some first_document
  /\ fst (ingest_document StorageFacts.toy_digest guess_by_suffix
            StorageFacts.temp_storage some_draws
            {| inbox_path := "00_inbox/b.txt"; skip_duplicate_check := true |}
            before_reingest)
     = Raise (HTTPException 500
                "Ingest failed: duplicate key value violates unique constraint").
Proof. repeat split; vm_compute; reflexivity. Qed.

End IngestFacts.

(** *** The dependency reference is not consulted *)

Module PipelineFacts.
Import Queue.

(** The job is chosen from the sorted set; the hashes, where the status
    of every job lives, play no part. *)
Lemma dequeue_reads_zset_only (r r' : redis) :
  zset r = zset r' -> fst (dequeue r) = fst (dequeue r').
Proof.
  intros H. unfold dequeue. rewrite H.
  destruct (bzpopmin (zset r')) as [[[j s]|] rest]; reflexivity.
Qed.

(** The queue right after [ingest_document] has enqueued the four jobs
    of document 1. *)
Definition after_ingest : redis :=
  snd (Ingest.enqueue_pipeline IngestFacts.some_draws 1
         "01_ingested/5_a.txt" (Some "text/plain") empty_redis).

(** C3.  Which job [dequeue] returns is a function of the sorted set
    alone: it is the head of a non-empty set, whatever any hash says.
    And on the queue that ingest leaves the second [dequeue]
    returns the chunk_text job, whose [depends_on] names the
    extract_text job, while that job is RUNNING, not COMPLETED. *)
Theorem dequeue_ignores_depends_on :
  (forall r r', zset r = zset r' -> fst (dequeue r) = fst (dequeue r'))
  /\ (forall r e rest, zset r = e :: rest -> fst (dequeue r) = Some (fst e))
  /\ exists (worker1 worker2 : redis) (extract chunk : job_data) (st : job_status),
      dequeue after_ingest = (Some extract, worker1)
      /\ dequeue worker1 = (Some chunk, worker2)
      /\ job_type chunk = "chunk_text"
      /\ Storage.assoc "depends_on" (payload chunk) = Some (JStr (job_id extract))
      /\ get_job_status (job_id extract) worker2 = Some st
      /\ s_status st = Some "RUNNING"
      /\ s_status st <> Some "COMPLETED".
Proof.
  split; [exact dequeue_reads_zset_only|].
  split.
  { intros r [j sc] rest H. unfold dequeue. rewrite H. reflexivity. }
  destruct (dequeue after_ingest) as [o1 w1] eqn:E1.
  destruct (dequeue w1) as [o2 w2] eqn:E2.
  assert (H1 : exists j, o1 = Some j /\ job_type j = "extract_text"
                         /\ job_id j = Ingest.uuid_extract IngestFacts.some_draws).
  { replace o1 with (fst (dequeue after_ingest)) by (rewrite E1; reflexivity).
    eexists; split; [vm_compute; reflexivity | split; reflexivity]. }
  destruct H1 as (extract & -> & _ & Hid).
  assert (H2 : exists j, o2 = Some j /\ job_type j = "chunk_text"
                         /\ Storage.assoc "depends_on" (payload j)
                            = Some (JStr (job_id extract))).
  { replace o2 with (fst (dequeue w1)) by (rewrite E2; reflexivity).
    replace w1 with (snd (dequeue after_ingest)) by (rewrite E1; reflexivity).
    rewrite Hid.
    eexists; split; [vm_compute; reflexivity | split; reflexivity]. }
  destruct H2 as (chunk & -> & Hty & Hdep).
  assert (H3 : exists st, get_job_status (job_id extract) w2 = Some st
                          /\ s_status st = Some "RUNNING").
  { replace w2 with (snd (dequeue w1)) by (rewrite E2; reflexivity).
    replace w1 with (snd (dequeue after_ingest)) by (rewrite E1; reflexivity).
    rewrite Hid.
    eexists; split; [vm_compute; reflexivity | reflexivity]. }
  destruct H3 as (st & Hst & Hrun).
  exists w1, w2, extract, chunk, st.
  repeat split; try assumption.
  rewrite Hrun. discriminate.
Qed.

End PipelineFacts.

(** *** Rule matching *)

Module RulesFacts.
Import Models RulesEngine.

Lemma priority_le_total (a b : Rule) :
  (rule_priority a <=? rule_priority b)%Z = true
  \/ (rule_priority b <=? rule_priority a)%Z = true.
Proof. rewrite !Z.leb_le. lia. Qed.

Lemma priority_le_trans (a b c : Rule) :
  (rule_priority a <=? rule_priority b)%Z = true ->
  (rule_priority b <=? rule_priority c)%Z = true ->
  (rule_priority a <=? rule_priority c)%Z = true.
Proof. rewrite !Z.leb_le. lia. Qed.

(** The loaded rules are the active rows, each once, lowest priority
    number first. *)
Lemma get_active_rules_spec (db : database) :
  Permutation (get_active_rules db) (List.filter is_active (rules db))
  /\ Forall (fun r => is_active r = true) (get_active_rules db)
  /\ StronglySorted (fun a b => rule_priority a <= rule_priority b)
                    (get_active_rules db).
Proof.
  unfold get_active_rules.
  pose proof (sort_by_perm (fun a b => (rule_priority a <=? rule_priority b)%Z)
                (List.filter is_active (rules db))) as Hperm.
  split; [exact Hperm|]. split.
  - rewrite List.Forall_forall. intros r Hr.
    apply (Permutation_in _ Hperm) in Hr.
    apply List.filter_In in Hr. apply Hr.
  - eapply sorted_weaken;
      [|apply sort_by_sorted; [apply priority_le_total | apply priority_le_trans]].
    intros a b H. apply Z.leb_le. exact H.
Qed.

Section Matching.
Variable re_search_ignorecase : string -> string -> result bool.

Lemma classify_loop_match (document document' : Document) (m : rule_match)
    (loaded : list Rule) :
  snd (classify_loop re_search_ignorecase document loaded)
  = Ok (Some (document', m)) ->
  exists earlier rule later,
    loaded = earlier ++ rule :: later
    /\ Forall (fun r => evaluate_rule re_search_ignorecase document r = Ok false)
              earlier
    /\ evaluate_rule re_search_ignorecase document rule = Ok true
    /\ fst (classify_loop re_search_ignorecase document loaded) = earlier ++ [rule]
    /\ apply_actions document (actions rule) = (document', m_changes m)
    /\ m_rule_id m = rule_id rule
    /\ m_rule_name m = rule_name rule
    /\ m_priority m = rule_priority rule.
Proof.
  induction loaded as [|r loaded IH]; simpl; [discriminate|].
  destruct (evaluate_rule re_search_ignorecase document r) as [[|]|e] eqn:E.
  - destruct (apply_actions document (actions r)) as [d' changes] eqn:Ea.
    simpl. intros H. injection H as <- <-.
    exists [], r, loaded. repeat split; try reflexivity; try assumption.
    constructor.
  - destruct (classify_loop re_search_ignorecase document loaded)
      as [seen outcome] eqn:El.
    simpl in *. intros H.
    destruct (IH H) as (earlier & rule & later & -> & Hf & Ht & Hseen & Hrest).
    exists (r :: earlier), rule, later.
    split; [reflexivity|]. split; [constructor; assumption|].
    split; [exact Ht|]. split; [simpl; now rewrite Hseen | exact Hrest].
  - simpl. discriminate.
Qed.

Lemma apply_actions_id (document : Document) (acts : list (string * json)) :
  id (fst (apply_actions document acts)) = id document.
Proof.
  unfold apply_actions.
  destruct (Storage.assoc "category" acts);
    destruct (Storage.assoc "target_path" acts);
    destruct (Storage.assoc "suggested_filename" acts);
    destruct (Storage.assoc "tags" acts); reflexivity.
Qed.

End Matching.

Section Handler.
Variable re_search_ignorecase : string -> string -> result bool.
Variable prompt_template : string -> string -> Z -> string -> string.
Variable json_loads : string -> option json.
Variable fenced_block : string -> option string.
Variable first_object : string -> option string.
Variable ollama_generate : string -> string -> LLMClassifier.http_reply.
Variable llm : LLMClassifier.LLMClassifier.


End Handler.

End RulesFacts.

(** *** Conditions and the fallback *)

Module ClassifyFacts.
Import Models RulesEngine.

(** A stand-in for [re.search]: the pattern is read as literal text. *)
Definition literal_search (pattern s : string) : result bool :=
  Ok (contains (lower pattern) (lower s)).

Definition blank_document : Document :=
  {| id := 7;
     file_sha256 := "e3b0c44298fc1c149afbf4c8996fb92427ae41e4649b934ca495991b7852b855";
     original_filename := "scan.pdf";
     mime_type := Some "application/pdf";
     file_size_bytes := Some 2048;
     inbox_relpath := Some "00_inbox/scan.pdf";
     ingested_relpath := Some "01_ingested/e3b0_scan.pdf";
     status := ANALYZING;
     extracted_text := Some "Rechnung Nr. 42";
     page_count := Some 1;
     category := None;
     suggested_filename := None;
     suggested_target_path := None;
     classification_confidence := None;
     llm_trace := None;
     analyzed_at := None |}.

Definition invoice_rule : Rule :=
  {| rule_id := 1; rule_name := "pdf invoices"; rule_priority := 1;
     is_active := true;
     conditions := Some [("mime_type_contains", JStr "pdf")];
     actions := [("category", JStr "Invoice")] |}.

Definition catch_all_rule : Rule :=
  {| rule_id := 2; rule_name := "everything else"; rule_priority := 2;
     is_active := true;
     conditions := Some [];
     actions := [("category", JStr "Other")] |}.

Definition store_with (rows : list Rule) : database :=
  {| documents := [blank_document]; next_document_id := 8;
     chunks := []; next_chunk_id := 1;
     rules := rows; audit_events := [] |}.

(** The example of the specification: the pdf rule wins and the second
    rule is never evaluated, in whatever order the table holds them. *)
Example invoice_rule_wins :
  classify_loop literal_search blank_document
    (get_active_rules (store_with [catch_all_rule; invoice_rule]))
  = ([invoice_rule],
     Ok (Some (set_category (Some "Invoice") blank_document,
               {| m_rule_id := 1; m_rule_name := "pdf invoices";
                  m_priority := 1;
                  m_changes := [("category", JStr "Invoice")] |}))).
Proof. reflexivity. Qed.

Lemma Qle_bool_inject_Z (a b : Z) :
  Qle_bool (inject_Z a) (inject_Z b) = (a <=? b)%Z.
Proof.
  destruct (Z.leb_spec a b) as [H|H].
  - apply Qle_bool_iff. rewrite <- Zle_Qle. exact H.
  - destruct (Qle_bool (inject_Z a) (inject_Z b)) eqn:E; [|reflexivity].
    apply Qle_bool_iff in E. rewrite <- Zle_Qle in E. lia.
Qed.

Section Conditions.
Variable re_search_ignorecase : string -> string -> result bool.

(** On a document whose recorded size is not zero the two size
    predicates are inclusive bounds. *)
Lemma size_bounds_inclusive (document : Document) (size bound : Z) :
  file_size_bytes document = Some size -> size <> 0 ->
  evaluate_condition re_search_ignorecase document [("file_size_min", JInt bound)]
  = Ok (bound <=? size)%Z
  /\ evaluate_condition re_search_ignorecase document [("file_size_max", JInt bound)]
     = Ok (size <=? bound)%Z.
Proof.
  intros Hs Hnz.
  unfold evaluate_condition, check_filename_regex, check_mime_type,
    check_mime_type_contains, check_file_size_min, check_file_size_max,
    check_text_contains.
  cbn [Storage.assoc String.eqb Ascii.eqb Bool.eqb and_then].
  rewrite Hs. destruct (Z.eqb_spec size 0) as [E|_]; [contradiction|].
  cbn [num_of_json and_then]. rewrite !Qle_bool_inject_Z.
  split; destruct (_ <=? _)%Z; reflexivity.
Qed.

(** A condition on a field the document does not have is a non-match,
    whatever value the condition carries; for the exact mime type the
    value must not be JSON [null]. *)
Lemma absent_field_is_no_match (document : Document) (v : json) :
  (mime_type document = None -> v <> JNull ->
   evaluate_condition re_search_ignorecase document [("mime_type", v)] = Ok false)
  /\ (mime_type document = None ->
      evaluate_condition re_search_ignorecase document [("mime_type_contains", v)]
      = Ok false)
  /\ (file_size_bytes document = None ->
      evaluate_condition re_search_ignorecase document [("file_size_min", v)]
      = Ok false)
  /\ (file_size_bytes document = None ->
      evaluate_condition re_search_ignorecase document [("file_size_max", v)]
      = Ok false)
  /\ (extracted_text document = None ->
      evaluate_condition re_search_ignorecase document [("text_contains", v)]
      = Ok false).
Proof.
  unfold evaluate_condition, check_filename_regex, check_mime_type,
    check_mime_type_contains, check_file_size_min, check_file_size_max,
    check_text_contains.
  cbn [Storage.assoc String.eqb Ascii.eqb Bool.eqb and_then].
  repeat split; intros H; rewrite ?H; try reflexivity.
  intros Hv. destruct v; try reflexivity. contradiction.
Qed.

End Conditions.

Definition empty_file : Document :=
  {| id := 9;
     file_sha256 := "e3b0c44298fc1c149afbf4c8996fb92427ae41e4649b934ca495991b7852b855";
     original_filename := "empty.txt";
     mime_type := Some "text/plain";
     file_size_bytes := Some 0;
     inbox_relpath := Some "00_inbox/empty.txt";
     ingested_relpath := Some "01_ingested/e3b0_empty.txt";
     status := INGESTED;
     extracted_text := None;
     page_count := None;
     category := None;
     suggested_filename := None;
     suggested_target_path := None;
     classification_confidence := None;
     llm_trace := None;
     analyzed_at := None |}.

(** C7 at a zero-byte file.  Its recorded size is 0, within both bounds,
    yet both size predicates evaluate to non-match: the test for a
    missing size, [not document.file_size_bytes], also holds for 0. *)
Theorem zero_size_fails_both_bounds
    (re_search_ignorecase : string -> string -> result bool) :
  file_size_bytes empty_file = Some 0
  /\ (0 <=? 0)%Z = true /\ (0 <=? 100)%Z = true
  /\ evaluate_condition re_search_ignorecase empty_file
       [("file_size_min", JInt 0)] = Ok false
  /\ evaluate_condition re_search_ignorecase empty_file
       [("file_size_max", JInt 100)] = Ok false.
Proof. repeat split. Qed.

Section Fallback.
Variable re_search_ignorecase : string -> string -> result bool.
Variable prompt_template : string -> string -> Z -> string -> string.
Variable json_loads : string -> option json.
Variable fenced_block : string -> option string.
Variable first_object : string -> option string.
Variable ollama_generate : string -> string -> LLMClassifier.http_reply.
Variable llm : LLMClassifier.LLMClassifier.

(** A classifier whose service was unreachable at construction gives
    "no result" without a call. *)
Lemma unavailable_model_gives_no_result (document : Document) :
  LLMClassifier.available llm = false ->
  ClassifyDocumentHandler.llm_classify prompt_template json_loads fenced_block
    first_object ollama_generate llm document = None.
Proof.
  intros H. unfold ClassifyDocumentHandler.llm_classify, LLMClassifier.classify.
  now rewrite H.
Qed.

(** What the third branch of [execute] does: it sets the status and the
    time stamp, and returns confidence 0.0 and no category; the
    document's category and confidence stay as they were. *)
Lemma fallback_sets_status_only (now : string) (payload : list (string * json))
    (db : database) (i : Z) (document : Document) :
  ClassifyDocumentHandler.payload_document_id payload = Ok i ->
  get_document db i = Some document ->
  classify_document re_search_ignorecase db document = Ok None ->
  ClassifyDocumentHandler.llm_classify prompt_template json_loads fenced_block
    first_object ollama_generate llm document = None ->
  ClassifyDocumentHandler.execute re_search_ignorecase prompt_template json_loads
    fenced_block first_object ollama_generate llm (Ok now) payload db
  = (Ok (JObj [("method", JStr "none");
               ("confidence", JFloat "0.0" 0);
               ("category", JNull);
               ("reason", JStr "No rules matched and LLM unavailable")]),
     save_document
       (set_analyzed_at (Some now) (set_status NEEDS_REVIEW document)) db).
Proof.
  intros Hp Hg Hr Hl. unfold ClassifyDocumentHandler.execute.
  rewrite Hp, Hg, Hr, Hl. reflexivity.
Qed.

End Fallback.

Definition no_template (filename mime : string) (size : Z) (preview : string)
  : string := preview.
Definition no_json (s : string) : option json := None.
Definition no_match (s : string) : option string := None.
Definition unreachable (model prompt : string) : LLMClassifier.http_reply :=
  LLMClassifier.TransportError "Connection refused".

Definition offline_llm : LLMClassifier.LLMClassifier :=
  LLMClassifier.new_LLMClassifier "llama3"
    (LLMClassifier.TransportError "Connection refused").


End ClassifyFacts.

(** *** Chunks are replaced as a set *)

Module ChunkFacts.
Import Models ChunkTextHandler.

Lemma chunk_rows_index (d idx nid : Z) (parts : list string) :
  List.map chunk_index (chunk_rows d idx nid parts)
  = List.map (fun k => idx + Z.of_nat k) (seq 0 (List.length parts)).
Proof.
  revert idx nid. induction parts as [|p parts IH]; intros idx nid; simpl;
    [reflexivity|].
  f_equal; [lia|].
  rewrite IH, <- seq_shift, List.map_map.
  apply List.map_ext. intros k. lia.
Qed.

Lemma chunk_rows_text (d idx nid : Z) (parts : list string) :
  List.map chunk_text (chunk_rows d idx nid parts) = parts.
Proof.
  revert idx nid. induction parts as [|p parts IH]; intros idx nid; simpl;
    [reflexivity|].
  f_equal. apply IH.
Qed.

Lemma chunk_rows_fresh (d idx nid : Z) (parts : list string) :
  Forall (fun c => document_id c = d /\ nid <= chunk_id c)
         (chunk_rows d idx nid parts).
Proof.
  revert idx nid. induction parts as [|p parts IH]; intros idx nid; simpl;
    constructor.
  - simpl. split; [reflexivity | lia].
  - eapply List.Forall_impl; [|apply IH].
    intros c [H1 H2]. split; [exact H1 | lia].
Qed.

Lemma filter_all {A} (f : A -> bool) (l : list A) :
  Forall (fun x => f x = true) l -> List.filter f l = l.
Proof.
  induction 1 as [|x l Hx Hl IH]; simpl; [reflexivity|].
  now rewrite Hx, IH.
Qed.

Lemma filter_none {A} (f : A -> bool) (l : list A) :
  Forall (fun x => f x = false) l -> List.filter f l = [].
Proof.
  induction 1 as [|x l Hx Hl IH]; simpl; [reflexivity|].
  now rewrite Hx, IH.
Qed.

Lemma seq_index_nodup (n : nat) : List.NoDup (List.map Z.of_nat (seq 0 n)).
Proof.
  apply Stdlib.Lists.Finite.Injective_map_NoDup; [|apply List.seq_NoDup].
  intros a b. apply Nat2Z.inj.
Qed.

Lemma rows_as_pairs (d idx nid : Z) (parts : list string) :
  List.map (fun c => (chunk_index c, chunk_text c)) (chunk_rows d idx nid parts)
  = List.combine (List.map (fun k => idx + Z.of_nat k)
                           (seq 0 (List.length parts))) parts.
Proof.
  revert idx nid. induction parts as [|p parts IH]; intros idx nid; simpl;
    [reflexivity|].
  f_equal; [f_equal; lia|].
  rewrite IH, <- seq_shift, List.map_map.
  f_equal. apply List.map_ext. intros k. lia.
Qed.

(** What a successful [execute] leaves in the table. *)
Lemma execute_replaces (self : ChunkTextHandler) (payload : list (string * json))
    (db : database) (i : Z) (document : Document) (text : string) :
  ClassifyDocumentHandler.payload_document_id payload = Ok i ->
  get_document db i = Some document ->
  extracted_text document = Some text -> text <> "" ->
  exists db',
    execute self payload db
    = (Ok (JObj [("chunks_count",
                  JInt (Z.of_nat (List.length (split_into_chunks self text))));
                 ("total_chars", JInt (sum_len (split_into_chunks self text)))]),
       db')
    /\ chunks_of db' i
       = chunk_rows i 0 (next_chunk_id db) (split_into_chunks self text)
    /\ (forall j, j <> i -> chunks_of db' j = chunks_of db j)
    /\ get_document db' i = Some (set_status ANALYZING document).
Proof.
  intros Hp Hg Ht Hne. unfold execute. rewrite Hp, Hg, Ht.
  destruct text as [|c text]; [contradiction|].
  eexists. split; [reflexivity|].
  split; [|split].
  - unfold chunks_of, save_document. cbn [chunks].
    rewrite List.filter_app.
    rewrite filter_none, filter_all; [reflexivity| |].
    + eapply List.Forall_impl; [|apply chunk_rows_fresh].
      intros r [H _]. cbv beta. rewrite H. apply Z.eqb_refl.
    + rewrite List.Forall_forall. intros r Hr.
      apply List.filter_In in Hr. destruct Hr as [_ Hr].
      now apply negb_true_iff in Hr.
  - intros j Hj. unfold chunks_of, save_document. cbn [chunks].
    rewrite List.filter_app.
    rewrite (filter_none _ (chunk_rows _ _ _ _)), app_nil_r.
    + induction (chunks db) as [|r rs IH]; simpl; [reflexivity|].
      destruct (Z.eqb_spec (document_id r) i) as [E|N]; simpl.
      * destruct (Z.eqb_spec (document_id r) j); [lia | exact IH].
      * destruct (Z.eqb_spec (document_id r) j); [f_equal|]; exact IH.
    + eapply List.Forall_impl; [|apply chunk_rows_fresh].
      intros r [H _]. cbv beta. rewrite H. now apply Z.eqb_neq.
  - match goal with
    | |- get_document (save_document ?n ?d) _ = _ =>
        apply (ModelsFacts.get_after_save d i document n)
    end; [exact Hg|].
    exact (ModelsFacts.get_document_id db i document Hg).
Qed.

(** C9.  For a document with non-empty extracted text, [execute]
    returns [chunks_count = N] and leaves as the document's chunks
    exactly the rows it has just built from [split_into_chunks], each
    with an id the sequence gave in this run, so the chunks stored for
    the document before are gone: the indices are 0..N-1 in order and
    without repetition, and the chunks of other documents are
    untouched.  Running the handler again gives the same
    result and the same indices and texts. *)
Theorem rechunk_replaces_all_chunks (self : ChunkTextHandler)
    (payload : list (string * json)) (db : database) (i : Z)
    (document : Document) (text : string) :
  ClassifyDocumentHandler.payload_document_id payload = Ok i ->
  get_document db i = Some document ->
  extracted_text document = Some text -> text <> "" ->
  exists db' n,
    n = List.length (split_into_chunks self text)
    /\ execute self payload db
       = (Ok (JObj [("chunks_count", JInt (Z.of_nat n));
                    ("total_chars", JInt (sum_len (split_into_chunks self text)))]),
          db')
    /\ chunks_of db' i
       = chunk_rows i 0 (next_chunk_id db) (split_into_chunks self text)
    /\ List.map chunk_index (chunks_of db' i) = List.map Z.of_nat (seq 0 n)
    /\ List.map chunk_text (chunks_of db' i) = split_into_chunks self text
    /\ List.NoDup (List.map chunk_index (chunks_of db' i))
    /\ Forall (fun c => next_chunk_id db <= chunk_id c) (chunks_of db' i)
    /\ (forall j, j <> i -> chunks_of db' j = chunks_of db j)
    /\ exists db'',
        execute self payload db'
        = (Ok (JObj [("chunks_count", JInt (Z.of_nat n));
                     ("total_chars", JInt (sum_len (split_into_chunks self text)))]),
           db'')
        /\ List.map (fun c => (chunk_index c, chunk_text c)) (chunks_of db'' i)
           = List.map (fun c => (chunk_index c, chunk_text c)) (chunks_of db' i).
Proof.
  intros Hp Hg Ht Hne.
  destruct (execute_replaces self payload db i document text Hp Hg Ht Hne)
    as (db' & Hex & Hrows & Hother & Hg').
  exists db', (List.length (split_into_chunks self text)).
  assert (Hidx : List.map chunk_index (chunks_of db' i)
                 = List.map Z.of_nat (seq 0 (List.length (split_into_chunks self text)))).
  { rewrite Hrows, chunk_rows_index. apply List.map_ext. intros k. lia. }
  split; [reflexivity|]. split; [exact Hex|]. split; [exact Hrows|].
  split; [exact Hidx|].
  split; [rewrite Hrows; apply chunk_rows_text|].
  split; [rewrite Hidx; apply seq_index_nodup|].
  split.
  { rewrite Hrows. eapply List.Forall_impl; [|apply chunk_rows_fresh].
    intros c [_ H]. exact H. }
  split; [exact Hother|].
  destruct (execute_replaces self payload db' i (set_status ANALYZING document)
              text Hp Hg' Ht Hne)
    as (db'' & Hex' & Hrows' & _ & _).
  exists db''. split; [exact Hex'|].
  rewrite Hrows', Hrows.
  rewrite !rows_as_pairs. reflexivity.
Qed.

(** Document 7 with a text of three paragraphs and two chunks left from
    an earlier run, next to a chunk of another document. *)
Definition three_paragraphs : string :=
  ("Erster Absatz." ++ nl ++ nl ++ "Zweiter Absatz." ++ nl ++ nl
   ++ "Dritter Absatz.")%string.

Definition old_chunk (cid doc idx : Z) (text : string) : DocumentChunk :=
  {| chunk_id := cid; document_id := doc; chunk_index := idx;
     chunk_text := text; chunk_tokens := 1; qdrant_point_id := None |}.

Definition chunked_before : database :=
  {| documents := [set_extracted_text (Some three_paragraphs)
                     ClassifyFacts.blank_document];
     next_document_id := 8;
     chunks := [old_chunk 1 7 0 "alt"; old_chunk 2 3 0 "fremd";
                old_chunk 3 7 1 "alt"];
     next_chunk_id := 4;
     rules := [];
     audit_events := [] |}.

Lemma rechunk_replaces_all_chunks_witness :
  exists db' n,
    n = List.length (split_into_chunks new_ChunkTextHandler three_paragraphs)
    /\ execute new_ChunkTextHandler [("document_id", JInt 7)] chunked_before
       = (Ok (JObj [("chunks_count", JInt (Z.of_nat n));
                    ("total_chars",
                     JInt (sum_len (split_into_chunks new_ChunkTextHandler
                                      three_paragraphs)))]),
          db')
    /\ chunks_of db' 7
       = chunk_rows 7 0 4 (split_into_chunks new_ChunkTextHandler three_paragraphs).
Proof.
  destruct (rechunk_replaces_all_chunks new_ChunkTextHandler
              [("document_id", JInt 7)] chunked_before 7
              (set_extracted_text (Some three_paragraphs)
                 ClassifyFacts.blank_document)
              three_paragraphs)
    as (db' & n & Hn & Hex & Hrows & _);
    [reflexivity | reflexivity | reflexivity | discriminate |].
  exists db', n. repeat split; assumption.
Defined.

End ChunkFacts.

(** *** Skipping and failing in embed_chunks *)

Module EmbedFacts.
Import Models EmbedChunksHandler.

Lemma mark_analyzed_status (db : database) (i : Z) (d : Document) :
  get_document db i = Some d ->
  exists d', get_document (mark_analyzed i db) i = Some d'
             /\ status d' = ANALYZED.
Proof.
  intros Hg. unfold mark_analyzed. rewrite Hg.
  exists (set_status ANALYZED d). split; [|reflexivity].
  apply (ModelsFacts.get_after_save db i d); [exact Hg|].
  exact (ModelsFacts.get_document_id db i d Hg).
Qed.

Section Outcomes.
Variable ollama_embeddings : string -> embed_reply.
Variable qdrant_upsert : string -> Z -> Z -> Z -> string -> list Q -> result unit.
Variable uuid4_for : Z -> string.
Variable self : EmbedChunksHandler.

(** With both libraries loaded, an embedding service that cannot be
    reached makes the first call of the loop raise. *)
Lemma unreachable_embeddings_raise (doc_id : Z) (chunk : DocumentChunk)
    (rest : list DocumentChunk) (msg : string) :
  ollama_available self = true ->
  (forall text, ollama_embeddings text = ConnectError msg) ->
  embed_loop ollama_embeddings qdrant_upsert uuid4_for self doc_id (chunk :: rest)
  = Raise (Exception ("Embedding generation failed: " ++ msg)).
Proof.
  intros Ha Hdown. cbn [embed_loop]. unfold generate_embedding.
  rewrite Ha, Hdown. reflexivity.
Qed.

(** C8, as the code has it.  The handler skips embedding, and returns
    normally, when one of its two client libraries was not loaded at
    construction; whenever it returns normally, skipping or
    not, the document it finds has status ANALYZED afterwards.  With
    both libraries loaded, an embedding service that cannot be reached,
    or a vector index that cannot be reached, makes the handler raise on
    the first chunk and commit nothing. *)
Theorem embed_skips_only_without_library (payload : list (string * json))
    (db : database) (i : Z) :
  ClassifyDocumentHandler.payload_document_id payload = Ok i ->
  (ollama_available self = false \/ qdrant_available self = false ->
   execute ollama_embeddings qdrant_upsert uuid4_for self payload db
   = (Ok (JObj [("embedded_count", JInt 0);
                ("skipped", JBool true);
                ("reason", JStr "Ollama or Qdrant not available")]),
      mark_analyzed i db)
   /\ chunks (mark_analyzed i db) = chunks db)
  /\ (forall returned db' d,
        execute ollama_embeddings qdrant_upsert uuid4_for self payload db
        = (Ok returned, db') ->
        get_document db i = Some d ->
        exists d', get_document db' i = Some d' /\ status d' = ANALYZED)
  /\ (forall msg,
        ollama_available self = true -> qdrant_available self = true ->
        (forall text, ollama_embeddings text = ConnectError msg) ->
        (exists c, In c (chunks db) /\ document_id c = i) ->
        execute ollama_embeddings qdrant_upsert uuid4_for self payload db
        = (Raise (Exception ("Embedding generation failed: " ++ msg)), db))
  /\ (forall x v e,
        ollama_available self = true -> qdrant_available self = true ->
        (forall text, ollama_embeddings text = EmbedResponse 200 (Some (x :: v))) ->
        (forall point d c idx preview vector,
            qdrant_upsert point d c idx preview vector = Raise e) ->
        (exists c, In c (chunks db) /\ document_id c = i) ->
        execute ollama_embeddings qdrant_upsert uuid4_for self payload db
        = (Raise (Exception ("Qdrant upsert failed: " ++ Ingest.exn_str e)), db)).
Proof.
  intros Hp.
  assert (Hfound : (exists c, In c (chunks db) /\ document_id c = i) ->
                   exists c0 found,
                     sort_by (fun a b => (chunk_index a <=? chunk_index b)%Z)
                       (List.filter (fun c => (document_id c =? i)%Z) (chunks db))
                     = c0 :: found).
  { intros [c [Hin Hdoc]].
    destruct (sort_by _ _) as [|c0 found] eqn:Es; [|eauto].
    exfalso.
    assert (Hc : In c (sort_by (fun a b => (chunk_index a <=? chunk_index b)%Z)
                         (List.filter (fun c => (document_id c =? i)%Z)
                                      (chunks db)))).
    { eapply Permutation_in; [symmetry; apply sort_by_perm|].
      apply List.filter_In. split; [exact Hin|]. now apply Z.eqb_eq. }
    rewrite Es in Hc. destruct Hc. }
  split; [|split; [|split]].
  - intros Hmissing. unfold execute. rewrite Hp.
    assert (Hskip : negb (ollama_available self) || negb (qdrant_available self)
                    = true).
    { destruct Hmissing as [H|H]; rewrite H; [reflexivity|].
      apply orb_true_r. }
    rewrite Hskip. split; [reflexivity|].
    unfold mark_analyzed. destruct (get_document db i); reflexivity.
  - intros returned db' d Hex Hg. unfold execute in Hex. rewrite Hp in Hex.
    destruct (negb (ollama_available self) || negb (qdrant_available self)).
    + injection Hex as _ <-. apply (mark_analyzed_status db i d Hg).
    + destruct (sort_by _ _) as [|c found]; [discriminate|].
      destruct (embed_loop _ _ _ _ _ _) as [[changed n]|e]; [|discriminate].
      injection Hex as _ <-.
      apply (mark_analyzed_status (save_chunks changed db) i d). exact Hg.
  - intros msg Ha Hq Hdown Hsome. unfold execute. rewrite Hp, Ha, Hq.
    cbn [negb orb].
    destruct (Hfound Hsome) as (c0 & found & ->).
    rewrite (unreachable_embeddings_raise i c0 found msg Ha Hdown).
    reflexivity.
  - intros x v e Ha Hq Hup Hdown Hsome. unfold execute. rewrite Hp, Ha, Hq.
    cbn [negb orb].
    destruct (Hfound Hsome) as (c0 & found & ->).
    cbn [embed_loop]. unfold generate_embedding, upsert_to_qdrant.
    rewrite Ha, Hq, Hup.
    cbn [negb orb Z.eqb Pos.eqb List.length Nat.eqb].
    rewrite Hdown. reflexivity.
Qed.

End Outcomes.

(** Both client libraries are installed; the model service is down. *)
Definition full_handler : EmbedChunksHandler := new_EmbedChunksHandler true true.

Definition embeddings_down (text : string) : embed_reply :=
  ConnectError "[Errno 111] Connection refused".

Definition index_up (point : string) (doc chunk idx : Z) (preview : string)
    (vector : list Q) : result unit := Ok tt.

Definition index_down (point : string) (doc chunk idx : Z) (preview : string)
    (vector : list Q) : result unit :=
  Raise (OSError "[Errno 111] Connection refused").

Definition embeddings_up (text : string) : embed_reply :=
  EmbedResponse 200 (Some [1 # 2; 1 # 4]).

Definition point_for (chunk : Z) : string :=
  ("00000000-0000-4000-8000-00000000000" ++ str_of_Z chunk)%string.

Definition chunked : database :=
  {| documents := [set_extracted_text (Some ChunkFacts.three_paragraphs)
                     ClassifyFacts.blank_document];
     next_document_id := 8;
     chunks := ChunkTextHandler.chunk_rows 7 0 1
                 (ChunkTextHandler.split_into_chunks
                    ChunkTextHandler.new_ChunkTextHandler
                    ChunkFacts.three_paragraphs);
     next_chunk_id := 2;
     rules := [];
     audit_events := [] |}.

Definition embed_job : Queue.job_data :=
  {| Queue.job_id := "9e8d7c6b-5a4f-4e3d-a2c1-b0a9f8e7d6c5";
     Queue.job_type := "embed_chunks";
     Queue.payload := [("document_id", JInt 7);
                       ("depends_on", JStr "1a2b3c4d-5e6f-4a7b-8c9d-0e1f2a3b4c5d")];
     Queue.priority := 150;
     Queue.document_id := Some 7;
     Queue.created_at := "2024-05-01T10:00:00.000200";
     Queue.status := "PENDING" |}.

Definition running : Queue.redis :=
  snd (Queue.dequeue
         (snd (Queue.enqueue (Queue.job_id embed_job) (Queue.created_at embed_job)
                 "embed_chunks" (Queue.payload embed_job) 150 (Some 7)
                 Queue.empty_redis))).

Definition only_embed (services_embed : string -> embed_reply)
    (services_index : string -> Z -> Z -> Z -> string -> list Q -> result unit)
    (job_type : string) : option Worker.handler :=
  if String.eqb job_type "embed_chunks"
  then Some (execute services_embed services_index point_for full_handler)
  else None.

Lemma embed_skips_only_without_library_witness :
  execute embeddings_down index_up point_for (new_EmbedChunksHandler false true)
    [("document_id", JInt 7)] chunked
  = (Ok (JObj [("embedded_count", JInt 0);
               ("skipped", JBool true);
               ("reason", JStr "Ollama or Qdrant not available")]),
     mark_analyzed 7 chunked)
  /\ chunks (mark_analyzed 7 chunked) = chunks chunked.
Proof.
  apply (embed_skips_only_without_library embeddings_down index_up point_for
           (new_EmbedChunksHandler false true) [("document_id", JInt 7)]
           chunked 7);
    [reflexivity | left; reflexivity].
Defined.

(** C8 as stated fails.  With the embedding service unreachable, or
    with the vector index unreachable, the handler raises; the worker
    records the job as FAILED and the document keeps its status. *)
Lemma unreachable_service_fails_the_job :
  (forall text, embeddings_down text = ConnectError "[Errno 111] Connection refused")
  /\ execute embeddings_down index_up point_for full_handler
       [("document_id", JInt 7)] chunked
     = (Raise (Exception
                 "Embedding generation failed: [Errno 111] Connection refused"),
        chunked)
  /\ execute embeddings_up index_down point_for full_handler
       [("document_id", JInt 7)] chunked
     = (Raise (Exception "Qdrant upsert failed: [Errno 111] Connection refused"),
        chunked)
  /\ Worker.status_of (Queue.job_id embed_job)
       (snd (Worker.process_job (only_embed embeddings_down index_up)
               "2024-05-01T10:00:05.000000" embed_job (chunked, running)))
     = Some "FAILED"
  /\ option_map status
       (get_document
          (fst (Worker.process_job (only_embed embeddings_down index_up)
                  "2024-05-01T10:00:05.000000" embed_job (chunked, running))) 7)
     = Some ANALYZING.
Proof. repeat split; vm_compute; reflexivity. Qed.

End EmbedFacts.

(** *** Plain-text extraction is total *)

Module ExtractFacts.
Import Models ExtractTextHandler.

Example utf8_two_bytes : decode_utf8 [xc3; xa9] = Some [233%N].
Proof. reflexivity. Qed.

Example utf8_three_bytes : decode_utf8 [xe2; x82; xac] = Some [8364%N].
Proof. reflexivity. Qed.

Example utf8_rejects_overlong : decode_utf8 [xc0; x80] = None.
Proof. reflexivity. Qed.

Example utf8_rejects_surrogate : decode_utf8 [xed; xa0; x80] = None.
Proof. reflexivity. Qed.

Example latin1_accepts_what_utf8_rejects :
  decode UTF8 [x41; xff; xe9] = None
  /\ decode Latin1 [x41; xff; xe9] = Some [65%N; 255%N; 233%N].
Proof. split; reflexivity. Qed.

(** The text a readable file decodes to. *)
Definition decoded (data : list byte) : text :=
  universal_newlines
    (match decode_utf8 data with
     | Some cs => cs
     | None => List.map Byte.to_N data
     end).

Lemma extract_from_text_file (t : Storage.node) (p : Storage.path)
    (data : list byte) :
  Storage.node_at t p = Some (Storage.File data) ->
  extract_from_text t p = Ok (decoded data, 1).
Proof.
  intros H. unfold extract_from_text, read_text, decoded. rewrite H.
  cbn [decode decode_latin1].
  destruct (decode_utf8 data); reflexivity.
Qed.

Lemma extract_from_text_no_file (t : Storage.node) (p : Storage.path) :
  (forall data, Storage.node_at t p <> Some (Storage.File data)) ->
  exists m, extract_from_text t p = Raise (OSError m).
Proof.
  intros H. unfold extract_from_text, read_text.
  destruct (Storage.node_at t p) as [[data|target|es]|].
  - exfalso. exact (H data eq_refl).
  - eexists; reflexivity.
  - eexists; reflexivity.
  - eexists; reflexivity.
Qed.

(** The handler's "Unsupported file format" exception. *)
Definition is_unsupported (e : exn) : bool :=
  match e with
  | Exception m => String.prefix "Unsupported file format: " m
  | _ => false
  end.

Section Handler.
Variable pdf_pages : list byte -> result (list text).
Variable column_text : text -> string.
Variable storage : Storage.StorageService.

Lemma extract_unsupported (mime_type : string) (t : Storage.node)
    (p : Storage.path) (e : exn) :
  extract pdf_pages mime_type t p = Raise e ->
  is_unsupported e = true ->
  forall data, Storage.node_at t p <> Some (Storage.File data).
Proof.
  unfold extract. intros He Hu data Hfile.
  destruct (contains "pdf" (lower mime_type)
            || String.eqb (lower (suffix p)) ".pdf").
  - unfold extract_from_pdf in He. rewrite Hfile in He.
    destruct (pdf_pages data); [discriminate|].
    injection He as <-. discriminate Hu.
  - rewrite (extract_from_text_file t p data Hfile) in He.
    destruct (contains "text" (lower mime_type) || _); discriminate.
Qed.

(** C10.  On a path that holds a regular file, [extract_from_text]
    returns decoded text and one page for every content: the UTF-8
    reading, or the Latin-1 reading when the bytes are not UTF-8.  So
    the fallback branch of the handler succeeds on every regular file;
    an [execute] that ends in "Unsupported file format" had a sandboxed
    path with no regular file behind it; and on such a path the fallback
    branch does end that way. *)
Theorem text_extraction_never_fails_on_content :
  (forall t p data,
      Storage.node_at t p = Some (Storage.File data) ->
      extract_from_text t p = Ok (decoded data, 1))
  /\ (forall data, exists cs, decode Latin1 data = Some cs)
  /\ (forall payload t db e w',
        execute pdf_pages column_text storage payload (t, db) = (Raise e, w') ->
        is_unsupported e = true ->
        exists file_relpath p,
          payload_str "file_path" payload = Ok file_relpath
          /\ Storage.safe_join storage t file_relpath = Ok p
          /\ forall data, Storage.node_at t p <> Some (Storage.File data))
  /\ (forall mime_type t p,
        contains "pdf" (lower mime_type) = false ->
        String.eqb (lower (suffix p)) ".pdf" = false ->
        contains "text" (lower mime_type) = false ->
        List.existsb (String.eqb (suffix p)) [".txt"; ".md"; ".log"] = false ->
        (forall data, Storage.node_at t p <> Some (Storage.File data)) ->
        extract pdf_pages mime_type t p = Raise (unsupported mime_type p)).
Proof.
  split; [exact extract_from_text_file|].
  split; [intros data; eexists; reflexivity|].
  split.
  - intros payload t db e w' Hex Hu. unfold execute in Hex.
    unfold ClassifyDocumentHandler.payload_document_id, payload_str,
      payload_mime_type in *.
    destruct (Storage.assoc "document_id" payload) as [[| | | | | |]|];
      try (injection Hex as <- _; discriminate Hu).
    destruct (Storage.assoc "file_path" payload) as [[| | | |file_relpath| |]|];
      try (injection Hex as <- _; discriminate Hu).
    destruct (Storage.safe_join storage t file_relpath) as [p|e0] eqn:Ej.
    2:{ injection Hex as <- _. unfold Storage.safe_join in Ej.
        destruct (Storage.resolve _ _); [|injection Ej as <-; discriminate Hu].
        destruct (Storage.is_prefix _ _); [discriminate|].
        injection Ej as <-. discriminate Hu. }
    exists file_relpath, p. split; [reflexivity|]. split; [exact Ej|].
    destruct (Storage.assoc "mime_type" payload) as [[| | | |m| |]|];
      try (injection Hex as <- _; discriminate Hu).
    + destruct (extract pdf_pages m t p) as [[extracted pages]|e1] eqn:Ee.
      * destruct (get_document db z);
          [discriminate Hex | injection Hex as <- _; discriminate Hu].
      * injection Hex as <- _. exact (extract_unsupported m t p e1 Ee Hu).
    + destruct (extract pdf_pages "" t p) as [[extracted pages]|e1] eqn:Ee.
      * destruct (get_document db z);
          [discriminate Hex | injection Hex as <- _; discriminate Hu].
      * injection Hex as <- _. exact (extract_unsupported "" t p e1 Ee Hu).
  - intros mime_type t p H1 H2 H3 H4 Hno. unfold extract.
    rewrite H1, H2, H3, H4. cbn [orb].
    destruct (extract_from_text_no_file t p Hno) as [m ->]. reflexivity.
Qed.

End Handler.

Definition no_pdf (data : list byte) : result (list text) :=
  Raise (Exception "EOF marker not found").

(** Code points below 256 as characters; others have no character in
    the string model and are dropped. *)
Definition narrow (cs : text) : string :=
  List.fold_right
    (fun c acc => if (c <? 256)%N then String (ascii_of_N c) acc else acc)
    EmptyString cs.

(** A binary file of unknown type is read as Latin-1; a missing file
    is "unsupported". *)
Definition blob_disk : Storage.node :=
  Storage.Dir
    [("srv",
      Storage.Dir
        [("ss",
          Storage.Dir
            [("01_ingested",
              Storage.Dir [("ab_data.bin",
                            Storage.File [xff; xfe; x00; x41])])])])].

Example binary_file_is_extracted :
  fst (execute no_pdf narrow StorageFacts.temp_storage
         [("document_id", JInt 7); ("file_path", JStr "01_ingested/ab_data.bin");
          ("mime_type", JStr "application/octet-stream")]
         (blob_disk, ClassifyFacts.store_with []))
  = Ok (JObj [("extracted_text_length", JInt 4); ("page_count", JInt 1);
              ("char_count", JInt 4)]).
Proof. reflexivity. Qed.

Example missing_file_is_unsupported :
  fst (execute no_pdf narrow StorageFacts.temp_storage
         [("document_id", JInt 7); ("file_path", JStr "01_ingested/gone.bin");
          ("mime_type", JStr "application/octet-stream")]
         (blob_disk, ClassifyFacts.store_with []))
  = Raise (Exception "Unsupported file format: application/octet-stream").
Proof. reflexivity. Qed.

End ExtractFacts.

(** *** Paths, trees and resolution *)

Module TreeFacts.
Import Storage.

(** The target of the symbolic link at a path, if there is one. *)
Definition link_at (t : node) (q : path) : option string :=
  match node_at t q with
  | Some (Symlink target) => Some target
  | _ => None
  end.

Lemma assoc_set_same {A} (k : string) (v : A) (l : list (string * A)) :
  assoc k (assoc_set k v l) = Some v.
Proof.
  induction l as [|[k' v'] l IH]; simpl.
  - now rewrite String.eqb_refl.
  - destruct (String.eqb k k') eqn:E; simpl.
    + now rewrite String.eqb_refl.
    + now rewrite E.
Qed.

Lemma assoc_set_other {A} (k k' : string) (v : A) (l : list (string * A)) :
  k' <> k -> assoc k' (assoc_set k v l) = assoc k' l.
Proof.
  intros Hne. induction l as [|[k0 v0] l IH]; simpl.
  - destruct (String.eqb_spec k' k); [contradiction | reflexivity].
  - destruct (String.eqb_spec k k0) as [->|N]; simpl.
    + destruct (String.eqb_spec k' k0); [contradiction | reflexivity].
    + destruct (String.eqb_spec k' k0); [reflexivity | exact IH].
Qed.

(** The two equations of [resolve_from]. *)
Lemma resolve_from_nil (n : nat) (t : node) (cur : path) :
  resolve_from n t cur [] = Some cur.
Proof. destruct n; reflexivity. Qed.

Lemma resolve_from_cons (n : nat) (t : node) (cur : path) (name : string)
    (rest : list string) :
  resolve_from n t cur (name :: rest)
  = if String.eqb name ".." then resolve_from n t (removelast cur) rest
    else match link_at t (cur ++ [name]) with
         | Some target =>
             match n with
             | O => None
             | S n' => resolve_from n' t (if is_abs target then [] else cur)
                         (parts target ++ rest)
             end
         | None => resolve_from n t (cur ++ [name]) rest
         end.
Proof.
  unfold link_at.
  destruct n; simpl; destruct (String.eqb name ".."); try reflexivity;
    destruct (node_at t (cur ++ [name])) as [[d|target|es]|]; reflexivity.
Qed.

(** Resolution reads the tree only through its links. *)
Lemma resolve_from_same_links (t t' : node) :
  (forall q, link_at t' q = link_at t q) ->
  forall n cur rest, resolve_from n t' cur rest = resolve_from n t cur rest.
Proof.
  intros Hl. induction n as [|n IHn].
  - intros cur rest. revert cur.
    induction rest as [|name rest IH]; intros cur.
    + now rewrite !resolve_from_nil.
    + rewrite !resolve_from_cons, Hl.
      destruct (String.eqb name ".."); [apply IH|].
      destruct (link_at t (cur ++ [name])); [reflexivity | apply IH].
  - intros cur rest. revert cur.
    induction rest as [|name rest IH]; intros cur.
    + now rewrite !resolve_from_nil.
    + rewrite !resolve_from_cons, Hl.
      destruct (String.eqb name ".."); [apply IH|].
      destruct (link_at t (cur ++ [name])); [apply IHn | apply IH].
Qed.

Lemma safe_join_same_links (self : StorageService) (t t' : node) (relpath : string) :
  (forall q, link_at t' q = link_at t q) ->
  safe_join self t' relpath = safe_join self t relpath.
Proof.
  intros Hl. unfold safe_join, resolve.
  now rewrite (resolve_from_same_links t t' Hl).
Qed.

(** An invariant of the canonical prefix is an invariant of the result. *)
Lemma resolve_from_invariant (t : node) (P : path -> Prop) :
  P [] ->
  (forall cur, P cur -> P (removelast cur)) ->
  (forall cur name, P cur -> name <> ".." -> link_at t (cur ++ [name]) = None ->
                    P (cur ++ [name])) ->
  forall n cur rest q, P cur -> resolve_from n t cur rest = Some q -> P q.
Proof.
  intros Hnil Hup Hpush. induction n as [|n IHn].
  - intros cur rest. revert cur.
    induction rest as [|name rest IH]; intros cur q Hc.
    + rewrite resolve_from_nil. intros H; injection H as <-; exact Hc.
    + rewrite resolve_from_cons.
      destruct (String.eqb_spec name "..") as [E|N]; [apply IH, Hup, Hc|].
      destruct (link_at t (cur ++ [name])) eqn:El; [discriminate|].
      apply IH, Hpush; assumption.
  - intros cur rest. revert cur.
    induction rest as [|name rest IH]; intros cur q Hc.
    + rewrite resolve_from_nil. intros H; injection H as <-; exact Hc.
    + rewrite resolve_from_cons.
      destruct (String.eqb_spec name "..") as [E|N]; [apply IH, Hup, Hc|].
      destruct (link_at t (cur ++ [name])) eqn:El.
      * apply IHn. destruct (is_abs s); [exact Hnil | exact Hc].
      * apply IH, Hpush; assumption.
Qed.

Lemma removelast_prefix {A} (l pre suf : list A) :
  removelast l = pre ++ suf -> exists suf', l = pre ++ suf'.
Proof.
  intros H. destruct l as [|x l] using rev_ind.
  - simpl in H. exists []. symmetry in H. apply app_eq_nil in H.
    destruct H as [-> _]. reflexivity.
  - rewrite removelast_last in H. exists (suf ++ [x]).
    rewrite H. now rewrite <- app_assoc.
Qed.

(** No component of a resolved path is [..], and no non-empty prefix of
    it is a symbolic link. *)
Lemma resolve_canonical (t : node) (p : list string) (q : path) :
  resolve t p = Some q ->
  Forall (fun name => name <> "..") q
  /\ forall pre suf, q = pre ++ suf -> pre <> [] -> link_at t pre = None.
Proof.
  intros H. split.
  - revert H. unfold resolve.
    apply (resolve_from_invariant t (Forall (fun name => name <> ".."))).
    + constructor.
    + intros cur Hc. rewrite List.Forall_forall in *. intros x Hx.
      apply Hc. destruct cur as [|y cur] using rev_ind; [destruct Hx|].
      rewrite removelast_last in Hx. apply in_or_app. now left.
    + intros cur name Hc Hn _. apply Forall_app. split; [exact Hc|].
      constructor; [exact Hn | constructor].
    + constructor.
  - revert H. unfold resolve.
    apply (resolve_from_invariant t
             (fun cur => forall pre suf, cur = pre ++ suf -> pre <> [] ->
                                         link_at t pre = None)).
    + intros pre suf H Hne. symmetry in H. apply app_eq_nil in H.
      destruct H as [-> _]. contradiction.
    + intros cur Hc pre suf H Hne.
      destruct (removelast_prefix cur pre suf H) as [suf' ->].
      apply (Hc pre suf' eq_refl Hne).
    + intros cur name Hc _ Hl pre suf H Hne.
      destruct suf as [|x suf] using rev_ind.
      * rewrite app_nil_r in H. subst pre. exact Hl.
      * rewrite app_assoc in H. apply app_inj_tail in H. destruct H as [-> _].
        apply (Hc pre suf eq_refl Hne).
    + intros pre suf H Hne. symmetry in H. apply app_eq_nil in H.
      destruct H as [-> _]. contradiction.
Qed.


Lemma is_prefix_node (t : node) (a b : path) (n : node) :
  is_prefix a b = true -> node_at t b = Some n -> exists m, node_at t a = Some m.
Proof.
  revert t b. induction a as [|x a IH]; intros t b Hp Hb; simpl; [eauto|].
  destruct b as [|y b]; [discriminate|]. simpl in Hp.
  apply andb_true_iff in Hp. destruct Hp as [Hxy Hp].
  apply String.eqb_eq in Hxy. subst y. simpl in Hb.
  destruct t as [d|s|es]; try discriminate.
  destruct (assoc x es) as [c|]; [|discriminate].
  apply (IH c b Hp Hb).
Qed.

Lemma is_prefix_length (a b : path) :
  is_prefix a b = true -> (List.length a <= List.length b)%nat.
Proof.
  revert b. induction a as [|x a IH]; intros b H; simpl; [lia|].
  destruct b as [|y b]; [discriminate|]. simpl in H.
  apply andb_true_iff in H. destruct H as [_ H].
  specialize (IH b H). simpl. lia.
Qed.

Lemma is_prefix_parent (p : path) : p <> [] -> is_prefix p (parent p) = false.
Proof.
  intros Hne. destruct (is_prefix p (parent p)) eqn:E; [|reflexivity].
  apply is_prefix_length in E. unfold parent in E.
  destruct p as [|x p] using rev_ind; [contradiction|].
  rewrite removelast_last, length_app in E. simpl in E. lia.
Qed.

(** [mkdir_p] makes directories and nothing else. *)
Lemma mkdir_p_links (t t' : node) (p : path) :
  mkdir_p t p = Ok t' -> forall q, link_at t' q = link_at t q.
Proof.
  revert t t'. induction p as [|name p IH]; intros t t' H q.
  - simpl in H. destruct t; try discriminate. now injection H as <-.
  - simpl in H. destruct t as [d|s|es]; try discriminate.
    destruct (mkdir_p match assoc name es with Some c => c | None => Dir [] end p)
      as [child'|e] eqn:Ec; [|discriminate].
    injection H as <-. specialize (IH _ _ Ec).
    destruct q as [|a q]; [reflexivity|].
    unfold link_at in *. simpl.
    destruct (String.eqb_spec a name) as [->|N].
    + rewrite assoc_set_same. rewrite IH.
      destruct (assoc name es) as [c|]; [reflexivity|].
      destruct q; reflexivity.
    + now rewrite assoc_set_other.
Qed.

Lemma mkdir_p_keeps_files (t t' : node) (p q : path) (data : list byte) :
  mkdir_p t p = Ok t' -> node_at t q = Some (File data) ->
  node_at t' q = Some (File data).
Proof.
  revert t t' q. induction p as [|name p IH]; intros t t' q H Hq.
  - simpl in H. destruct t; try discriminate. now injection H as <-.
  - simpl in H. destruct t as [d|s|es]; try discriminate.
    destruct (mkdir_p match assoc name es with Some c => c | None => Dir [] end p)
      as [child'|e] eqn:Ec; [|discriminate].
    injection H as <-.
    destruct q as [|a q]; [discriminate|]. simpl in *.
    destruct (String.eqb_spec a name) as [->|N].
    + rewrite assoc_set_same.
      destruct (assoc name es) as [c|]; [|discriminate].
      apply (IH _ _ _ Ec Hq).
    + now rewrite assoc_set_other.
Qed.

Lemma mkdir_p_makes_dir (t t' : node) (p : path) :
  mkdir_p t p = Ok t' -> exists es, node_at t' p = Some (Dir es).
Proof.
  revert t t'. induction p as [|name p IH]; intros t t' H.
  - simpl in H. destruct t as [d|s|es]; try discriminate.
    injection H as <-. simpl. eauto.
  - simpl in H. destruct t as [d|s|es]; try discriminate.
    destruct (mkdir_p match assoc name es with Some c => c | None => Dir [] end p)
      as [child'|e] eqn:Ec; [|discriminate].
    injection H as <-. simpl. rewrite assoc_set_same. apply (IH _ _ Ec).
Qed.

(** What is absent and off the new path stays absent. *)
Lemma mkdir_p_creates_only_path (t t' : node) (p q : path) :
  mkdir_p t p = Ok t' -> is_prefix q p = false -> node_at t q = None ->
  node_at t' q = None.
Proof.
  revert t t' q. induction p as [|name p IH]; intros t t' q H Hpre Hq.
  - simpl in H. destruct t; try discriminate. now injection H as <-.
  - simpl in H. destruct t as [d|s|es]; try discriminate.
    destruct (mkdir_p match assoc name es with Some c => c | None => Dir [] end p)
      as [child'|e] eqn:Ec; [|discriminate].
    injection H as <-.
    destruct q as [|a q]; [discriminate|].
    cbn [is_prefix] in Hpre. cbn [node_at] in Hq |- *.
    destruct (String.eqb_spec a name) as [->|N].
    + rewrite assoc_set_same. cbn [andb] in Hpre.
      apply (IH _ _ _ Ec Hpre).
      destruct (assoc name es) as [c|]; [exact Hq|].
      destruct q as [|b q]; [discriminate | reflexivity].
    + now rewrite assoc_set_other.
Qed.

(** [update] puts the node where it is told. *)
Lemma update_at (t t' : node) (p : path) (n : node) :
  update t p (Some n) = Some t' -> node_at t' p = Some n.
Proof.
  revert t t'. induction p as [|name p IH]; intros t t' H.
  - simpl in H. now injection H as <-.
  - simpl in H. destruct t as [d|s|es]; try discriminate.
    destruct p as [|b p].
    + injection H as <-. simpl. now rewrite assoc_set_same.
    + destruct (assoc name es) as [child|]; [|discriminate].
      destruct (update child (b :: p) (Some n)) as [child'|] eqn:Ec; [|discriminate].
      injection H as <-. simpl node_at at 1. rewrite assoc_set_same.
      apply (IH _ _ Ec).
Qed.

(** Writing a file over nothing or over a file moves no link. *)
Lemma update_file_links (t t' : node) (p : path) (content : list byte) :
  update t p (Some (File content)) = Some t' ->
  link_at t p = None -> p_is_dir t p = false ->
  forall q, link_at t' q = link_at t q.
Proof.
  revert t t'. induction p as [|name p IH]; intros t t' H Hl Hd q.
  - simpl in H. injection H as <-.
    unfold link_at, p_is_dir in *. simpl in Hl, Hd.
    destruct t as [d|s|es]; try discriminate.
    destruct q; reflexivity.
  - simpl in H. destruct t as [d|s|es]; try discriminate.
    destruct q as [|a q]; [destruct p as [|b p];
                           [injection H as <-; reflexivity|
                            destruct (assoc name es); [|discriminate];
                            destruct (update n (b :: p) _); [|discriminate];
                            injection H as <-; reflexivity]|].
    destruct p as [|b p].
    + injection H as <-. unfold link_at, p_is_dir in *. simpl in *.
      destruct (String.eqb_spec a name) as [->|N].
      * rewrite assoc_set_same.
        destruct (assoc name es) as [[d|s|es']|]; try discriminate;
          destruct q; reflexivity.
      * now rewrite assoc_set_other.
    + destruct (assoc name es) as [child|] eqn:Ea; [|discriminate].
      destruct (update child (b :: p) (Some (File content))) as [child'|] eqn:Ec;
        [|discriminate].
      injection H as <-.
      assert (Hl' : link_at child (b :: p) = None).
      { unfold link_at in *. simpl in Hl. now rewrite Ea in Hl. }
      assert (Hd' : p_is_dir child (b :: p) = false).
      { unfold p_is_dir in *. simpl in Hd. now rewrite Ea in Hd. }
      specialize (IH _ _ Ec Hl' Hd').
      unfold link_at in *. simpl node_at at 1. simpl node_at at 2.
      destruct (String.eqb_spec a name) as [->|N].
      * rewrite assoc_set_same, Ea. apply IH.
      * now rewrite assoc_set_other.
Qed.

(** A file off the updated path keeps its content. *)
Lemma update_keeps_files (t t' : node) (p q : path) (n : node) (data : list byte) :
  update t p (Some n) = Some t' -> is_prefix p q = false ->
  node_at t q = Some (File data) -> node_at t' q = Some (File data).
Proof.
  revert t t' q. induction p as [|name p IH]; intros t t' q H Hpre Hq.
  - discriminate.
  - simpl in H. destruct t as [d|s|es]; try discriminate.
    destruct q as [|a q]; [discriminate|]. simpl in Hpre, Hq.
    destruct p as [|b p].
    + injection H as <-. simpl.
      destruct (String.eqb_spec name a) as [->|N]; [discriminate|].
      rewrite assoc_set_other; [exact Hq | congruence].
    + destruct (assoc name es) as [child|] eqn:Ea; [|discriminate].
      destruct (update child (b :: p) (Some n)) as [child'|] eqn:Ec; [|discriminate].
      injection H as <-. simpl node_at at 1.
      destruct (String.eqb_spec name a) as [->|N].
      * rewrite assoc_set_same. rewrite Ea in Hq. simpl in Hpre.
        apply (IH _ _ _ Ec Hpre Hq).
      * rewrite assoc_set_other; [exact Hq | congruence].
Qed.


Lemma assoc_set_twice {A} (k : string) (v v' : A) (l : list (string * A)) :
  assoc_set k v (assoc_set k v' l) = assoc_set k v l.
Proof.
  induction l as [|[k0 v0] l IH]; simpl.
  - now rewrite String.eqb_refl.
  - destruct (String.eqb k k0) eqn:E; simpl.
    + now rewrite String.eqb_refl.
    + now rewrite E, IH.
Qed.

(** Making the directories a second time changes nothing. *)
Lemma mkdir_p_again (t t' : node) (p : path) :
  mkdir_p t p = Ok t' -> mkdir_p t' p = Ok t'.
Proof.
  revert t t'. induction p as [|name p IH]; intros t t' H.
  - simpl in H. destruct t; try discriminate. injection H as <-. reflexivity.
  - simpl in H. destruct t as [d|s|es]; try discriminate.
    destruct (mkdir_p match assoc name es with Some c => c | None => Dir [] end p)
      as [child'|e] eqn:Ec; [|discriminate].
    injection H as <-. simpl. rewrite assoc_set_same, (IH _ _ Ec).
    now rewrite assoc_set_twice.
Qed.

End TreeFacts.

(** *** What the storage operations leave behind *)

Module SandboxFacts.
Import Storage TreeFacts.

Lemma safe_join_resolve (self : StorageService) (t : node) (relpath : string) (p : path) :
  safe_join self t relpath = Ok p ->
  resolve t (join (storage_root self) relpath) = Some p.
Proof.
  unfold safe_join.
  destruct (resolve t (join (storage_root self) relpath)) as [full|]; [|discriminate].
  destruct (is_prefix (storage_root self) full); [|discriminate].
  now intros H; injection H as <-.
Qed.

(** The path [safe_join] returns is never a symbolic link. *)
Lemma safe_join_no_link (self : StorageService) (t : node) (relpath : string) (p : path) :
  safe_join self t relpath = Ok p -> p <> [] -> link_at t p = None.
Proof.
  intros H Hne. apply safe_join_resolve in H.
  destruct (resolve_canonical t _ p H) as [_ Hl].
  apply (Hl p []); [now rewrite app_nil_r | exact Hne].
Qed.

(** What does not exist at a path [safe_join] returned is absent. *)
Lemma safe_join_absent (self : StorageService) (t : node) (relpath : string) (p : path) :
  safe_join self t relpath = Ok p -> p <> [] -> p_exists t p = false ->
  node_at t p = None.
Proof.
  intros H Hne He. pose proof (safe_join_no_link self t relpath p H Hne) as Hl.
  unfold link_at in Hl. unfold p_exists in He.
  destruct (node_at t p) as [[d|s|es]|]; try discriminate; reflexivity.
Qed.

Lemma file_off_absent_path (t : node) (p q : path) (data : list byte) :
  node_at t p = None -> node_at t q = Some (File data) -> is_prefix p q = false.
Proof.
  intros Hp Hq. destruct (is_prefix p q) eqn:E; [|reflexivity].
  destruct (is_prefix_node t p q _ E Hq) as [m Hm]. congruence.
Qed.

Lemma parent_nil_inv (p : path) (t t1 : node) :
  mkdir_p t (parent p) = Ok t1 -> p_is_dir t1 p = false -> p <> [].
Proof.
  intros Hm Hd ->. simpl in Hm. unfold p_is_dir in Hd. simpl in Hd.
  destruct t; try discriminate. injection Hm as <-. discriminate.
Qed.

Ltac kept := let H := fresh in intros H; cbv beta iota in H; injection H as _ <-; auto.
Ltac refuse := let H := fresh in intros H; cbv beta iota in H; discriminate H.

Section Operations.
Variable guess_type : string -> option string.
Variable self : StorageService.


(** The three steps of a write that got past its checks. *)
Lemma write_steps (t t1 t2 : node) (relpath : string) (abs_path : path)
    (content : list byte) :
  safe_join self t relpath = Ok abs_path ->
  mkdir_p t (parent abs_path) = Ok t1 ->
  p_is_dir t1 abs_path = false ->
  update t1 abs_path (Some (File content)) = Some t2 ->
  safe_join self t2 relpath = Ok abs_path
  /\ node_at t2 abs_path = Some (File content)
  /\ (forall q, link_at t2 q = link_at t q).
Proof.
  intros Hsj Hm Hd Hu.
  assert (Hne : abs_path <> []) by exact (parent_nil_inv abs_path t t1 Hm Hd).
  assert (Hl1 : forall q, link_at t1 q = link_at t q)
    by exact (mkdir_p_links t t1 _ Hm).
  assert (Hl2 : forall q, link_at t2 q = link_at t q).
  { intros q. rewrite <- Hl1. apply (update_file_links t1 t2 abs_path content Hu).
    - rewrite Hl1. exact (safe_join_no_link self t relpath abs_path Hsj Hne).
    - exact Hd. }
  split; [|split].
  - rewrite (safe_join_same_links self t t2 relpath Hl2). exact Hsj.
  - exact (update_at t1 t2 abs_path _ Hu).
  - exact Hl2.
Qed.

Lemma stat_of_file (t : node) (relpath : string) (abs_path : path)
    (content : list byte) :
  safe_join self t relpath = Ok abs_path ->
  node_at t abs_path = Some (File content) ->
  stat guess_type self relpath t
  = (Ok (describe guess_type (basename abs_path) relpath (File content)), t).
Proof.
  intros Hsj Hn. unfold stat, p_exists. now rewrite Hsj, Hn.
Qed.

Lemma read_of_file (t : node) (relpath : string) (abs_path : path)
    (content : list byte) :
  safe_join self t relpath = Ok abs_path ->
  node_at t abs_path = Some (File content) ->
  read_file self relpath t = (Ok content, t).
Proof.
  intros Hsj Hn. unfold read_file. now rewrite Hsj, Hn.
Qed.

(** What a successful write leaves. *)
Lemma write_file_ok (t t' : node) (relpath : string) (content : list byte)
    (overwrite : bool) (m : metadata) :
  write_file guess_type self relpath content overwrite t = (Ok m, t') ->
  exists abs_path,
    safe_join self t' relpath = Ok abs_path
    /\ node_at t' abs_path = Some (File content)
    /\ m = describe guess_type (basename abs_path) relpath (File content).
Proof.
  unfold write_file, bind, get, raise, mkdir_parents, write_bytes; cbv beta.
  destruct (safe_join self t relpath) as [abs_path|e] eqn:Hsj; [|refuse].
  destruct (p_exists t abs_path && negb overwrite); [refuse|].
  destruct (mkdir_p t (parent abs_path)) as [t1|e] eqn:Hm; [|refuse].
  destruct (p_is_dir t1 abs_path) eqn:Hd; [refuse|].
  destruct (update t1 abs_path (Some (File content))) as [t2|] eqn:Hu;
    [|refuse].
  destruct (write_steps t t1 t2 relpath abs_path content Hsj Hm Hd Hu)
    as (Hsj2 & Hn2 & _).
  rewrite (stat_of_file t2 relpath abs_path content Hsj2 Hn2).
  intros H. injection H as <- <-. exists abs_path. auto.
Qed.

(** Without [overwrite] a write changes no file, whatever comes of it. *)
Lemma write_file_frame (t t' : node) (relpath : string)
    (content : list byte) (r : result metadata) :
  write_file guess_type self relpath content false t = (r, t') ->
  forall q data, node_at t q = Some (File data) -> node_at t' q = Some (File data).
Proof.
  unfold write_file, bind, get, raise, mkdir_parents, write_bytes; cbv beta.
  destruct (safe_join self t relpath) as [abs_path|e] eqn:Hsj;
    [|kept].
  rewrite andb_true_r.
  destruct (p_exists t abs_path) eqn:He; [kept|].
  destruct (mkdir_p t (parent abs_path)) as [t1|e] eqn:Hm;
    [|kept].
  assert (Hk1 : forall q data, node_at t q = Some (File data) ->
                               node_at t1 q = Some (File data))
    by (intros q data; exact (mkdir_p_keeps_files t t1 _ q data Hm)).
  destruct (p_is_dir t1 abs_path) eqn:Hd; [kept|].
  destruct (update t1 abs_path (Some (File content))) as [t2|] eqn:Hu;
    [|kept].
  assert (Hne : abs_path <> []) by exact (parent_nil_inv abs_path t t1 Hm Hd).
  pose proof (safe_join_absent self t relpath abs_path Hsj Hne He) as Habs.
  assert (Hk2 : forall q data, node_at t q = Some (File data) ->
                               node_at t2 q = Some (File data)).
  { intros q data Hq.
    apply (update_keeps_files t1 t2 abs_path q _ data Hu).
    - exact (file_off_absent_path t abs_path q data Habs Hq).
    - exact (Hk1 q data Hq). }
  unfold stat. destruct (safe_join self t2 relpath) as [abs2|e2].
  - destruct (p_exists t2 abs2); [destruct (node_at t2 abs2)|];
      kept.
  - kept.
Qed.

(** X2.  A write that succeeds can be read back: [read_file] on the same
    relative path returns the bytes written, the metadata returned
    describe a regular file of that many bytes under the path given, and
    the path is still accepted by the sandbox. *)
Theorem write_file_then_read (t t' : node) (relpath : string)
    (content : list byte) (overwrite : bool) (m : metadata) :
  write_file guess_type self relpath content overwrite t = (Ok m, t') ->
  read_file self relpath t' = (Ok content, t')
  /\ m_type m = "file"
  /\ m_size m = Some (size_of content)
  /\ m_path m = relpath
  /\ is_ok (safe_join self t' relpath) = true.
Proof.
  intros H. destruct (write_file_ok t t' relpath content overwrite m H)
    as (abs_path & Hsj & Hn & ->).
  split; [exact (read_of_file t' relpath abs_path content Hsj Hn)|].
  rewrite Hsj. repeat split; reflexivity.
Qed.

(** X3.  Without [overwrite], [write_file] never changes a file that is
    there: whatever it returns or raises, every regular file of the tree
    before is in the tree after, with the same bytes; and a path at
    which something exists is refused with the tree untouched. *)
Theorem write_file_keeps_files (t t' : node) (relpath : string)
    (content : list byte) (r : result metadata) :
  write_file guess_type self relpath content false t = (r, t') ->
  (forall q data, node_at t q = Some (File data) -> node_at t' q = Some (File data))
  /\ (forall abs_path, safe_join self t relpath = Ok abs_path ->
                       p_exists t abs_path = true ->
                       t' = t /\ r = Raise (StorageError
                                              ("File already exists: " ++ relpath))).
Proof.
  intros H. split; [exact (write_file_frame t t' relpath content r H)|].
  intros abs_path Hsj He. revert H.
  unfold write_file, bind, get, raise; cbv beta. rewrite Hsj, He. cbn.
  intros H; injection H as <- <-. split; reflexivity.
Qed.

(** X4.  A copy without [overwrite] that succeeds leaves the source's
    bytes readable under both paths and changes no file that was there
    before. *)
Theorem copy_file_copies (t t' : node) (src_relpath dest_relpath : string)
    (m : metadata) :
  copy_file guess_type self src_relpath dest_relpath false t = (Ok m, t') ->
  exists data,
    read_file self src_relpath t = (Ok data, t)
    /\ read_file self src_relpath t' = (Ok data, t')
    /\ read_file self dest_relpath t' = (Ok data, t')
    /\ m_size m = Some (size_of data)
    /\ (forall q d, node_at t q = Some (File d) -> node_at t' q = Some (File d)).
Proof.
  unfold copy_file, bind, get, raise, mkdir_parents, shutil_copy2, write_bytes; cbv beta.
  destruct (safe_join self t src_relpath) as [src_abs|e] eqn:Hs; [|refuse].
  destruct (safe_join self t dest_relpath) as [dest_abs|e] eqn:Hsj; [|refuse].
  destruct (negb (p_exists t src_abs)); [refuse|].
  destruct (p_is_file t src_abs) eqn:Hf; [|refuse]. cbn [negb].
  rewrite andb_true_r.
  destruct (p_exists t dest_abs) eqn:He; [refuse|].
  destruct (mkdir_p t (parent dest_abs)) as [t1|e] eqn:Hm; [|refuse].
  unfold p_is_file in Hf.
  destruct (node_at t src_abs) as [[data| |]|] eqn:Hsrc; try discriminate Hf.
  assert (Hne : dest_abs <> []).
  { intros ->. simpl in Hm. unfold p_exists in He. simpl in He.
    destruct t; discriminate. }
  pose proof (safe_join_absent self t dest_relpath dest_abs Hsj Hne He) as Habs.
  assert (Habs1 : node_at t1 dest_abs = None).
  { apply (mkdir_p_creates_only_path t t1 (parent dest_abs) dest_abs Hm);
      [apply is_prefix_parent, Hne | exact Habs]. }
  assert (Hd : p_is_dir t1 dest_abs = false) by (unfold p_is_dir; now rewrite Habs1).
  rewrite Hd.
  destruct (bool_decide (src_abs = dest_abs)); [refuse|].
  rewrite (mkdir_p_keeps_files t t1 _ src_abs data Hm Hsrc). rewrite Hd.
  destruct (update t1 dest_abs (Some (File data))) as [t2|] eqn:Hu; [|refuse].
  destruct (write_steps t t1 t2 dest_relpath dest_abs data Hsj Hm Hd Hu)
    as (Hsj2 & Hn2 & Hl2).
  rewrite (stat_of_file t2 dest_relpath dest_abs data Hsj2 Hn2).
  intros H. injection H as <- <-.
  assert (Hk2 : forall q d, node_at t q = Some (File d) ->
                            node_at t2 q = Some (File d)).
  { intros q d Hq.
    apply (update_keeps_files t1 t2 dest_abs q _ d Hu).
    - exact (file_off_absent_path t dest_abs q d Habs Hq).
    - exact (mkdir_p_keeps_files t t1 _ q d Hm Hq). }
  exists data. split; [exact (read_of_file t src_relpath src_abs data Hs Hsrc)|].
  split.
  { apply (read_of_file t2 src_relpath src_abs data).
    - rewrite (safe_join_same_links self t t2 src_relpath Hl2). exact Hs.
    - exact (Hk2 src_abs data Hsrc). }
  split; [exact (read_of_file t2 dest_relpath dest_abs data Hsj2 Hn2)|].
  split; [reflexivity | exact Hk2].
Qed.

(** X5.  [ensure_directory] is idempotent and harmless: when it
    succeeds the path it returns is a directory, every regular file that
    was there is still there with its bytes, and a second call returns
    the same path and leaves the tree as the first call left it. *)
Theorem ensure_directory_idempotent (t t' : node) (relpath : string) (p : path) :
  ensure_directory self relpath t = (Ok p, t') ->
  p_is_dir t' p = true
  /\ (forall q data, node_at t q = Some (File data) -> node_at t' q = Some (File data))
  /\ ensure_directory self relpath t' = (Ok p, t').
Proof.
  unfold ensure_directory, bind, ret, mkdir_parents; cbv beta.
  destruct (safe_join self t relpath) as [abs_path|e] eqn:Hsj; [|refuse].
  destruct (mkdir_p t abs_path) as [t1|e] eqn:Hm; [|refuse].
  intros H. injection H as <- <-.
  split; [|split].
  - unfold p_is_dir. destruct (mkdir_p_makes_dir t t1 abs_path Hm) as [es ->].
    reflexivity.
  - intros q data. exact (mkdir_p_keeps_files t t1 abs_path q data Hm).
  - rewrite (safe_join_same_links self t t1 relpath (mkdir_p_links t t1 _ Hm)).
    rewrite Hsj. now rewrite (mkdir_p_again t t1 abs_path Hm).
Qed.

(** *** The order of a listing *)

Definition is_directory (m : metadata) : bool := String.eqb (m_type m) "directory".

(** Directories first, names ascending within each group. *)
Definition item_le (a b : metadata) : bool :=
  match is_directory a, is_directory b with
  | true, false => true
  | false, true => false
  | _, _ => String.leb (m_name a) (m_name b)
  end.

Lemma entry_le_total (t : node) (dir : path) (a b : string * node) :
  entry_le t dir a b = true \/ entry_le t dir b a = true.
Proof.
  unfold entry_le.
  destruct (follow t (dir ++ [a.1])) as [[| |]|];
    destruct (follow t (dir ++ [b.1])) as [[| |]|]; auto;
    apply String.leb_total.
Qed.

Lemma entry_le_trans (t : node) (dir : path) (a b c : string * node) :
  entry_le t dir a b = true -> entry_le t dir b c = true ->
  entry_le t dir a c = true.
Proof.
  unfold entry_le.
  destruct (follow t (dir ++ [a.1])) as [[| |]|];
    destruct (follow t (dir ++ [b.1])) as [[| |]|];
    destruct (follow t (dir ++ [c.1])) as [[| |]|];
    try discriminate; auto; apply string_leb_trans.
Qed.

(** An item of the listing describes one entry. *)
Definition lists (t : node) (dir : path) (e : string * node) (m : metadata) : Prop :=
  m_name m = fst e
  /\ is_directory m = match follow t (dir ++ [fst e]) with
                      | Some (Dir _) => true
                      | _ => false
                      end.

Lemma list_items_each (t : node) (dir : path) (es : list (string * node))
    (items : list metadata) :
  list_items guess_type self t dir es = Ok items ->
  Forall2 (lists t dir) es items.
Proof.
  revert items. induction es as [|[name n] es IH]; intros items; simpl.
  - intros H; injection H as <-. constructor.
  - destruct (follow t (dir ++ [name])) as [n'|] eqn:Ef; [|discriminate].
    destruct (list_items guess_type self t dir es) as [rest|e]; [|discriminate].
    intros H; injection H as <-.
    constructor; [|apply IH; reflexivity].
    split; cbn [fst]; [destruct n'; reflexivity|].
    rewrite Ef. destruct n'; reflexivity.
Qed.

Lemma lists_sorted (t : node) (dir : path) (es : list (string * node))
    (items : list metadata) :
  Forall2 (lists t dir) es items ->
  StronglySorted (fun a b => entry_le t dir a b = true) es ->
  StronglySorted (fun a b => item_le a b = true) items.
Proof.
  intros HF. induction HF as [|e m es items Hem HF IH]; intros Hs.
  - constructor.
  - inversion Hs as [|? ? Hs' He]; subst.
    constructor; [apply IH, Hs'|].
    clear IH Hs Hs'. induction HF as [|e' m' es items Hem' HF IH'].
    + constructor.
    + inversion He as [|? ? He1 He2]; subst.
      constructor; [|apply IH', He2].
      destruct Hem as [Hn Hd], Hem' as [Hn' Hd'].
      unfold item_le. rewrite Hn, Hd, Hn', Hd'.
      unfold entry_le in He1.
      destruct (follow t (dir ++ [e.1])) as [[| |]|];
        destruct (follow t (dir ++ [e'.1])) as [[| |]|]; exact He1.
Qed.

(** X6.  A listing that succeeds leaves the tree alone, has one item for
    each entry of the directory, names every entry once for each time
    the directory holds it, and puts directories before files, each
    group in ascending order of name. *)
Theorem list_directory_order (t t' : node) (relpath : string)
    (items : list metadata) :
  list_directory guess_type self relpath t = (Ok items, t') ->
  t' = t
  /\ StronglySorted (fun a b => item_le a b = true) items
  /\ exists abs_path es,
       safe_join self t relpath = Ok abs_path
       /\ node_at t abs_path = Some (Dir es)
       /\ Permutation (List.map m_name items) (List.map fst es).
Proof.
  unfold list_directory.
  destruct (safe_join self t relpath) as [abs_path|e] eqn:Hsj; [|refuse].
  destruct (node_at t abs_path) as [[d|s|es]|] eqn:Hn; try refuse.
  intros H. injection H as Hl <-. split; [reflexivity|].
  pose proof (list_items_each t abs_path _ items Hl) as HF.
  split.
  - apply (lists_sorted t abs_path _ items HF).
    apply sort_by_sorted; [apply entry_le_total | apply entry_le_trans].
  - exists abs_path, es. split; [reflexivity|]. split; [exact Hn|].
    rewrite <- (Permutation_map fst (sort_by_perm (entry_le t abs_path) es)).
    clear Hl. induction HF as [|e m es' items' [Hn' _] HF IH]; simpl.
    + reflexivity.
    + rewrite Hn'. apply perm_skip, IH.
Qed.

End Operations.

(** The witnesses work on the fixture of the security tests. *)


Lemma write_file_then_read_witness :
  exists m t',
    write_file StorageFacts.no_mime StorageFacts.temp_storage "00_inbox/new.txt"
      [x68; x69] false StorageFacts.fixture = (Ok m, t')
    /\ read_file StorageFacts.temp_storage "00_inbox/new.txt" t' = (Ok [x68; x69], t')
    /\ m_size m = Some 2.
Proof.
  eexists _, _. split; [reflexivity|].
  match goal with
  | |- read_file _ _ ?t' = _ /\ m_size ?m = _ =>
      destruct (write_file_then_read StorageFacts.no_mime StorageFacts.temp_storage
                  StorageFacts.fixture t' "00_inbox/new.txt" [x68; x69] false m
                  eq_refl) as (Hread & _ & Hsize & _)
  end.
  split; [exact Hread | exact Hsize].
Defined.

Lemma write_file_keeps_files_witness :
  fst (write_file StorageFacts.no_mime StorageFacts.temp_storage "00_inbox/test.txt"
         [x68; x69] false StorageFacts.fixture)
  = Raise (StorageError "File already exists: 00_inbox/test.txt")
  /\ node_at (snd (write_file StorageFacts.no_mime StorageFacts.temp_storage
                     "00_inbox/test.txt" [x68; x69] false StorageFacts.fixture))
             ["srv"; "ss"; "00_inbox"; "test.txt"]
     = Some (File [x74; x65; x73; x74]).
Proof.
  split; [reflexivity|].
  apply (proj1 (write_file_keeps_files StorageFacts.no_mime StorageFacts.temp_storage
                  StorageFacts.fixture _ "00_inbox/test.txt" [x68; x69] _
                  (surjective_pairing _))).
  reflexivity.
Defined.

Lemma copy_file_copies_witness :
  exists m t',
    copy_file StorageFacts.no_mime StorageFacts.temp_storage "00_inbox/test.txt"
      "01_ingested/copy.txt" false StorageFacts.fixture = (Ok m, t')
    /\ read_file StorageFacts.temp_storage "01_ingested/copy.txt" t'
       = (Ok [x74; x65; x73; x74], t')
    /\ node_at t' ["etc"; "passwd"] = Some (File [x72; x6f; x6f; x74]).
Proof.
  eexists _, _. split; [reflexivity|].
  match goal with
  | |- read_file _ _ ?t' = _ /\ _ =>
      destruct (copy_file_copies StorageFacts.no_mime StorageFacts.temp_storage
                  StorageFacts.fixture t' "00_inbox/test.txt" "01_ingested/copy.txt"
                  _ eq_refl) as (data & Hsrc & _ & Hdst & _ & Hkept)
  end.
  assert (E : data = [x74; x65; x73; x74]) by (injection Hsrc as <-; reflexivity).
  rewrite E in Hdst. split; [exact Hdst|].
  apply Hkept. reflexivity.
Defined.

Lemma ensure_directory_idempotent_witness :
  exists t',
    ensure_directory StorageFacts.temp_storage "02_staging/2024" StorageFacts.fixture
    = (Ok ["srv"; "ss"; "02_staging"; "2024"], t')
    /\ p_is_dir t' ["srv"; "ss"; "02_staging"; "2024"] = true
    /\ ensure_directory StorageFacts.temp_storage "02_staging/2024" t'
       = (Ok ["srv"; "ss"; "02_staging"; "2024"], t').
Proof.
  eexists. split; [reflexivity|].
  match goal with
  | |- p_is_dir ?t' _ = _ /\ _ =>
      destruct (ensure_directory_idempotent StorageFacts.temp_storage
                  StorageFacts.fixture t' "02_staging/2024"
                  ["srv"; "ss"; "02_staging"; "2024"] eq_refl) as (Hd & _ & Hagain)
  end.
  split; [exact Hd | exact Hagain].
Defined.

Lemma list_directory_order_witness :
  exists items,
    list_directory StorageFacts.no_mime StorageFacts.temp_storage "" StorageFacts.fixture
    = (Ok items, StorageFacts.fixture)
    /\ StronglySorted
         (fun a b => item_le a b = true) items
    /\ List.map m_name items = ["00_inbox"; "01_ingested"; "secret"].
Proof.
  eexists. split; [reflexivity|].
  match goal with
  | |- StronglySorted _ ?items /\ _ =>
      destruct (list_directory_order StorageFacts.no_mime StorageFacts.temp_storage
                  StorageFacts.fixture StorageFacts.fixture "" items eq_refl)
        as (_ & Hsorted & _)
  end.
  split; [exact Hsorted | reflexivity].
Defined.

End SandboxFacts.

(** *** The life of a job in the queue *)

Module LifecycleFacts.
Import Queue.

#[local] Arguments member : simpl never.
#[local] Arguments zentry_le : simpl never.

Lemma job_key_inj (a b : string) : job_key a = job_key b -> a = b.
Proof. unfold job_key. cbn. intros H. now injection H. Qed.

(** The ids of the jobs that wait in the sorted set. *)
Definition waiting (r : redis) : list string :=
  List.map (fun e => job_id (fst e)) (zset r).

(** The hash of a waiting job holds the job and says PENDING. *)
Definition pending_in (h : gmap string job_hash) (e : job_data * Z) : Prop :=
  exists jh, h !! job_key (job_id (fst e)) = Some jh
             /\ h_data jh = Some (fst e)
             /\ h_status jh = Some "PENDING".

(** What the queue keeps true of itself when job ids are not reused
    while they wait. *)
Definition tracked (r : redis) : Prop :=
  List.NoDup (waiting r) /\ Forall (pending_in (hashes r)) (zset r).

Lemma pending_in_insert (h : gmap string job_hash) (k : string) (jh : job_hash)
    (e : job_data * Z) :
  k <> job_key (job_id (fst e)) -> pending_in h e -> pending_in (<[k := jh]> h) e.
Proof.
  intros Hne (jh' & Hl & Hd & Hs). exists jh'.
  rewrite lookup_insert_ne; auto.
Qed.

Lemma pending_in_other (h : gmap string job_hash) (id : string) (jh : job_hash)
    (zs : list (job_data * Z)) :
  ~ In id (List.map (fun e => job_id (fst e)) zs) ->
  Forall (pending_in h) zs -> Forall (pending_in (<[job_key id := jh]> h)) zs.
Proof.
  intros Hfresh HF. rewrite List.Forall_forall in *. intros e He.
  apply pending_in_insert; [|apply HF, He].
  intros E. apply job_key_inj in E. apply Hfresh.
  apply List.in_map_iff. exists e. split; [now symmetry | exact He].
Qed.

Lemma insert_sorted_ids (x : job_data * Z) (zs : list (job_data * Z)) :
  Permutation (List.map (fun e => job_id (fst e)) (insert_sorted zentry_le x zs))
              (job_id (fst x) :: List.map (fun e => job_id (fst e)) zs).
Proof.
  apply (Permutation_map (fun e => job_id (fst e))
           (insert_sorted_perm zentry_le x zs)).
Qed.

Lemma filter_ids_nodup (f : job_data * Z -> bool) (zs : list (job_data * Z)) :
  List.NoDup (List.map (fun e => job_id (fst e)) zs) ->
  List.NoDup (List.map (fun e => job_id (fst e)) (List.filter f zs)).
Proof.
  induction zs as [|e zs IH]; simpl; [auto|].
  intros H. apply List.NoDup_cons_iff in H. destruct H as [Hn Hd].
  destruct (f e); simpl; [|apply IH, Hd].
  apply List.NoDup_cons; [|apply IH, Hd].
  intros Hin. apply Hn. apply List.in_map_iff in Hin.
  destruct Hin as (e' & He' & Hin). apply List.filter_In in Hin.
  apply List.in_map_iff. exists e'. tauto.
Qed.

Lemma filter_ids_fresh (f : job_data * Z -> bool) (id : string)
    (zs : list (job_data * Z)) :
  ~ In id (List.map (fun e => job_id (fst e)) zs) ->
  ~ In id (List.map (fun e => job_id (fst e)) (List.filter f zs)).
Proof.
  intros Hn Hin. apply Hn. apply List.in_map_iff in Hin.
  destruct Hin as (e' & He' & Hin). apply List.filter_In in Hin.
  apply List.in_map_iff. exists e'. tauto.
Qed.

Lemma enqueue_tracked (uuid4 utcnow job_type : string) (payload : list (string * json))
    (priority : Z) (document_id : option Z) (r : redis) :
  tracked r -> ~ In uuid4 (waiting r) ->
  tracked (snd (enqueue uuid4 utcnow job_type payload priority document_id r)).
Proof.
  intros [Hnd HF] Hfresh. unfold tracked, waiting, enqueue, zadd. cbn [snd zset hashes].
  set (job := {| job_id := uuid4 |}).
  set (keep := fun e : job_data * Z => negb (String.eqb (member (fst e)) (member job))).
  split.
  - eapply Permutation_NoDup; [symmetry; apply insert_sorted_ids|].
    apply List.NoDup_cons.
    + apply filter_ids_fresh, Hfresh.
    + apply filter_ids_nodup, Hnd.
  - apply insert_sorted_Forall.
    + eexists. rewrite lookup_insert_eq. split; [reflexivity|]. split; reflexivity.
    + apply pending_in_other; [apply filter_ids_fresh, Hfresh|].
      rewrite List.Forall_forall in *. intros e He.
      apply List.filter_In in He. apply HF, He.
Qed.

Lemma dequeue_tracked (r r' : redis) (o : option job_data) :
  tracked r -> dequeue r = (o, r') -> tracked r'.
Proof.
  intros [Hnd HF]. unfold dequeue, waiting in *.
  destruct (zset r) as [|[j s] zs] eqn:Ez; simpl.
  - intros H; injection H as _ <-. unfold tracked, waiting. rewrite Ez.
    split; [constructor | constructor].
  - intros H; injection H as _ <-. unfold tracked, waiting, hset_status.
    cbn [zset hashes]. simpl in Hnd.
    apply List.NoDup_cons_iff in Hnd. destruct Hnd as [Hj Hnd].
    split; [exact Hnd|].
    apply pending_in_other; [exact Hj|].
    now inversion HF.
Qed.

Lemma fail_job_tracked (utcnow id error : string) (r : redis) :
  tracked r -> ~ In id (waiting r) -> tracked (fail_job utcnow id error r).
Proof.
  intros [Hnd HF] Hfresh. unfold tracked, waiting, fail_job. cbn [zset hashes].
  split; [exact Hnd|]. apply pending_in_other; assumption.
Qed.

Lemma complete_job_tracked (utcnow id : string) (res : option json)
    (x : result unit) (r r' : redis) :
  tracked r -> ~ In id (waiting r) -> complete_job utcnow id res r = (x, r') ->
  tracked r'.
Proof.
  intros Ht Hfresh. unfold complete_job.
  destruct res as [[| | | | | |[|f fs]]|];
    intros H; injection H as _ <-; try exact Ht;
    destruct Ht as [Hnd HF]; (split; [exact Hnd|]);
    cbn [zset hashes]; apply pending_in_other; assumption.
Qed.

(** X7.  While no id is reused for a job that still waits, the queue
    keeps its books: each job in the sorted set has a hash that holds
    the job itself with status PENDING, and no two waiting jobs share
    an id.  [enqueue], [dequeue], [complete_job] and [fail_job] all
    preserve this, the last two for a job that is no longer waiting. *)
Theorem queue_keeps_pending_jobs_tracked (r : redis) :
  tracked r ->
  (forall uuid4 utcnow job_type payload priority document_id,
     ~ In uuid4 (waiting r) ->
     tracked (snd (enqueue uuid4 utcnow job_type payload priority document_id r)))
  /\ tracked (snd (dequeue r))
  /\ (forall utcnow id res,
        ~ In id (waiting r) -> tracked (snd (complete_job utcnow id res r)))
  /\ (forall utcnow id error,
        ~ In id (waiting r) -> tracked (fail_job utcnow id error r)).
Proof.
  intros Ht. split; [|split; [|split]].
  - intros. now apply enqueue_tracked.
  - destruct (dequeue r) as [o r'] eqn:E. exact (dequeue_tracked r r' o Ht E).
  - intros utcnow id res Hf.
    destruct (complete_job utcnow id res r) as [x r'] eqn:E.
    exact (complete_job_tracked utcnow id res x r r' Ht Hf E).
  - intros. now apply fail_job_tracked.
Qed.

(** X8.  What [enqueue] stored is what [get_job_status] reports: under
    the id returned, the job as built from the arguments with status
    PENDING; under any other id, what was reported before. *)
Theorem enqueue_then_get_job_status (uuid4 utcnow job_type : string)
    (payload : list (string * json)) (priority : Z) (document_id : option Z)
    (r : redis) :
  let '(id, r') := enqueue uuid4 utcnow job_type payload priority document_id r in
  id = uuid4
  /\ (exists st, get_job_status id r' = Some st
                 /\ s_job st = {| job_id := uuid4; job_type := job_type;
                                  payload := payload; priority := priority;
                                  document_id := document_id;
                                  created_at := utcnow; status := "PENDING" |}
                 /\ s_status st = Some "PENDING")
  /\ (forall other, other <> uuid4 ->
                    get_job_status other r' = get_job_status other r).
Proof.
  unfold enqueue. split; [reflexivity|]. split.
  - eexists. unfold get_job_status. cbn [hashes]. rewrite lookup_insert_eq.
    cbn [h_data]. split; [reflexivity|]. split; reflexivity.
  - intros other Hne. unfold get_job_status. cbn [hashes].
    rewrite lookup_insert_ne; [reflexivity|].
    intros E. apply job_key_inj in E. congruence.
Qed.

(** X9.  Under the same discipline a job that [dequeue] hands out was
    PENDING and is RUNNING afterwards, it no longer waits, the queue is
    one shorter, and the status of every other job is as before; on an
    empty queue [dequeue] returns nothing and changes nothing. *)
Theorem dequeue_marks_running (r r' : redis) (o : option job_data) :
  tracked r -> dequeue r = (o, r') ->
  match o with
  | None => zset r = [] /\ r' = r
  | Some j =>
      Worker.status_of (job_id j) r = Some "PENDING"
      /\ Worker.status_of (job_id j) r' = Some "RUNNING"
      /\ ~ In (job_id j) (waiting r')
      /\ get_queue_length r' = get_queue_length r - 1
      /\ (forall other, other <> job_id j ->
                        get_job_status other r' = get_job_status other r)
  end.
Proof.
  intros [Hnd HF]. unfold dequeue, waiting, get_queue_length in *.
  destruct (zset r) as [|[j s] zs] eqn:Ez; cbn [bzpopmin].
  - intros H; injection H as <- <-. split; reflexivity.
  - intros H; injection H as <- <-.
    inversion HF as [|? ? (jh & Hl & Hd & Hs) _]; subst. cbn [fst] in *.
    simpl in Hnd. apply List.NoDup_cons_iff in Hnd. destruct Hnd as [Hj _].
    unfold Worker.status_of, get_job_status, hset_status, hash_of. cbn [hashes zset].
    rewrite lookup_insert_eq, Hl. cbn [h_data h_status]. rewrite Hd. cbn [s_status].
    split; [exact Hs|]. split; [reflexivity|]. split; [exact Hj|].
    split; [cbn [List.length]; lia|].
    intros other Hne. rewrite lookup_insert_ne; [reflexivity|].
    intros E. apply job_key_inj in E. congruence.
Qed.

(** A queue that holds one job. *)
Definition one_waiting : redis :=
  snd (enqueue "6f1c2b3a-0d4e-4f5a-8b6c-7d8e9f0a1b2c" "2024-05-01T10:00:00.000000"
         "extract_text" [("document_id", JInt 1)] 50 (Some 1) empty_redis).

Lemma empty_redis_tracked : tracked empty_redis.
Proof. split; constructor. Qed.

Lemma queue_keeps_pending_jobs_tracked_witness :
  tracked one_waiting /\ tracked (snd (dequeue empty_redis)).
Proof.
  destruct (queue_keeps_pending_jobs_tracked empty_redis empty_redis_tracked)
    as (Henq & Hdeq & _).
  split; [|exact Hdeq].
  apply Henq. intros [].
Defined.

Lemma dequeue_marks_running_witness :
  Worker.status_of "6f1c2b3a-0d4e-4f5a-8b6c-7d8e9f0a1b2c" one_waiting = Some "PENDING"
  /\ Worker.status_of "6f1c2b3a-0d4e-4f5a-8b6c-7d8e9f0a1b2c" (snd (dequeue one_waiting))
     = Some "RUNNING"
  /\ get_queue_length (snd (dequeue one_waiting)) = 0.
Proof.
  pose proof (dequeue_marks_running one_waiting (snd (dequeue one_waiting))
                (fst (dequeue one_waiting))
                (enqueue_tracked _ _ _ _ _ _ empty_redis empty_redis_tracked
                   (fun H : In _ [] => H))
                (surjective_pairing _)) as H.
  cbn in H. destruct H as (H1 & H2 & _ & H4 & _).
  split; [exact H1|]. split; [exact H2 | exact H4].
Defined.

End LifecycleFacts.

(** *** The member string names its job *)

Module MemberFacts.
Import Queue.

#[local] Arguments String.append !s1 s2 : simpl nomatch.

Definition all_chars : list ascii := List.map ascii_of_nat (List.seq 0 256).

Lemma in_all_chars (c : ascii) : In c all_chars.
Proof.
  unfold all_chars. apply List.in_map_iff. exists (nat_of_ascii c).
  split; [apply ascii_nat_embedding|].
  apply List.in_seq. pose proof (nat_ascii_bounded c). lia.
Qed.

(** No escape sequence starts another one, and none starts with the
    closing quote. *)
Definition escapes_prefix_free : bool :=
  List.forallb
    (fun c =>
       negb (String.prefix dq (escape_char c))
       && negb (String.prefix (escape_char c) dq)
       && List.forallb
            (fun c' => Ascii.eqb c c'
                       || negb (String.prefix (escape_char c) (escape_char c')))
            all_chars)
    all_chars.

Lemma escapes_prefix_free_holds : escapes_prefix_free = true.
Proof. vm_compute. reflexivity. Qed.

Lemma append_split (a b x y : string) :
  (a ++ x = b ++ y)%string -> String.prefix a b = true \/ String.prefix b a = true.
Proof.
  revert b. induction a as [|c a IH]; intros b H.
  - left. now destruct b.
  - destruct b as [|d b]; [right; reflexivity|].
    simpl in H. injection H as -> H. simpl.
    destruct (ascii_dec d d); [|contradiction]. apply (IH b H).
Qed.

Lemma append_cancel (a x y : string) : (a ++ x = a ++ y)%string -> x = y.
Proof.
  induction a as [|c a IH]; simpl; [auto|]. intros H. injection H as H. auto.
Qed.

Lemma append_assoc (a b c : string) : ((a ++ b) ++ c = a ++ (b ++ c))%string.
Proof. induction a as [|x a IH]; simpl; [reflexivity | now rewrite IH]. Qed.

Lemma escape_char_facts (c : ascii) :
  String.prefix dq (escape_char c) = false
  /\ String.prefix (escape_char c) dq = false
  /\ forall c', String.prefix (escape_char c) (escape_char c') = true -> c = c'.
Proof.
  pose proof escapes_prefix_free_holds as H. unfold escapes_prefix_free in H.
  rewrite List.forallb_forall in H. specialize (H c (in_all_chars c)).
  apply andb_true_iff in H. destruct H as [H Hall].
  apply andb_true_iff in H. destruct H as [H1 H2].
  apply negb_true_iff in H1, H2. split; [exact H1|]. split; [exact H2|].
  intros c' Hp. rewrite List.forallb_forall in Hall.
  specialize (Hall c' (in_all_chars c')).
  apply orb_true_iff in Hall. destruct Hall as [E|N].
  - now apply Ascii.eqb_eq.
  - rewrite Hp in N. discriminate.
Qed.

(** The text of a JSON string ends at its first unescaped quote. *)
Lemma escape_inj (a b x y : string) :
  (escape a ++ dq ++ x = escape b ++ dq ++ y)%string -> a = b /\ x = y.
Proof.
  revert b. induction a as [|c a IH]; intros [|d b] H.
  - split; [reflexivity|]. simpl in H. now injection H.
  - exfalso. cbn [escape] in H. rewrite append_assoc in H.
    change (escape "") with "" in H. cbn [String.append] in H.
    destruct (append_split dq (escape_char d) _ _ H) as [P|P];
      destruct (escape_char_facts d) as (F1 & F2 & _); congruence.
  - exfalso. cbn [escape] in H. rewrite append_assoc in H.
    change (escape "") with "" in H. cbn [String.append] in H. symmetry in H.
    destruct (append_split dq (escape_char c) _ _ H) as [P|P];
      destruct (escape_char_facts c) as (F1 & F2 & _); congruence.
  - cbn [escape] in H. rewrite !append_assoc in H.
    assert (E : c = d).
    { destruct (append_split _ _ _ _ H) as [P|P].
      - now apply (proj2 (proj2 (escape_char_facts c))).
      - symmetry. now apply (proj2 (proj2 (escape_char_facts d))). }
    subst d. apply append_cancel in H.
    destruct (IH b H) as [-> ->]. split; reflexivity.
Qed.

(** Two jobs with the same member string have the same id. *)
Lemma member_job_id (a b : job_data) : member a = member b -> job_id a = job_id b.
Proof.
  unfold member, job_json. cbn [dumps]. unfold quote.
  rewrite !append_assoc. intros H.
  do 6 apply append_cancel in H.
  exact (proj1 (escape_inj _ _ _ _ H)).
Qed.

End MemberFacts.

(** *** Nothing is lost, and every job ends *)

Module DeliveryFacts.
Import Queue QueueFacts LifecycleFacts MemberFacts.

#[local] Arguments member : simpl never.
#[local] Arguments zentry_le : simpl never.

Lemma nodup_map_finer {A B C} (f : A -> B) (g : A -> C) (l : list A) :
  (forall x y, f x = f y -> g x = g y) ->
  List.NoDup (List.map g l) -> List.NoDup (List.map f l).
Proof.
  intros Hfg. induction l as [|x l IH]; simpl; intros H; [constructor|].
  apply List.NoDup_cons_iff in H. destruct H as [Hx Hl].
  apply List.NoDup_cons; [|apply IH, Hl].
  intros Hin. apply Hx. apply List.in_map_iff in Hin.
  destruct Hin as (y & Hy & Hin). apply List.in_map_iff.
  exists y. split; [now apply Hfg | exact Hin].
Qed.

(** X10.  When the ids drawn for a sequence of [enqueue] calls differ
    from one another and from the ids of the jobs already waiting,
    no job replaces another in the sorted set: repeated [dequeue]
    delivers every job that waited and every job enqueued, each once,
    and the queue has grown by the number of calls. *)
Theorem distinct_ids_lose_no_job (calls : list call) (r : redis) :
  List.NoDup (List.map c_uuid4 calls ++ waiting r) ->
  Permutation (dequeue_all (enqueue_all calls r))
              (dequeue_all r ++ List.map job_of_call calls)
  /\ get_queue_length (enqueue_all calls r)
     = get_queue_length r + Z.of_nat (List.length calls).
Proof.
  intros Hnd.
  assert (Hm : List.NoDup (List.map (fun c => member (job_of_call c)) calls
                           ++ List.map (fun e => member (fst e)) (zset r))).
  { unfold waiting in Hnd.
    assert (E : forall (A : Type) (f : A -> job_data) (g : job_data -> string)
                       (l : list A),
               List.map (fun x => g (f x)) l = List.map g (List.map f l))
      by (intros; now rewrite List.map_map).
    rewrite (E _ job_of_call member), (E _ fst member), <- List.map_app.
    apply (nodup_map_finer member job_id); [exact member_job_id|].
    rewrite List.map_app, !List.map_map. exact Hnd. }
  pose proof (enqueue_all_perm calls r Hm) as Hp.
  split.
  - rewrite !dequeue_all_zset. exact Hp.
  - unfold get_queue_length.
    rewrite <- (List.length_map fst (zset (enqueue_all calls r))).
    rewrite (Permutation_length Hp), List.length_app, !List.length_map. lia.
Qed.

(** What [process_job] does to the queue's books. *)
Lemma process_job_books (handlers : string -> option Worker.handler)
    (utcnow : string) (job : job_data) (db : Models.database) (r : redis) :
  let r' := snd (Worker.process_job handlers utcnow job (db, r)) in
  let h' := hash_of r' (job_key (job_id job)) in
  zset r' = zset r
  /\ (h_status h' = Some "COMPLETED" \/ h_status h' = Some "FAILED")
  /\ (forall other, other <> job_id job ->
                    hashes r' !! job_key other = hashes r !! job_key other).
Proof.
  unfold Worker.process_job.
  assert (Hother : forall (m : gmap string job_hash) jh other,
             other <> job_id job ->
             <[job_key (job_id job) := jh]> m !! job_key other = m !! job_key other).
  { intros m jh other Hne. apply lookup_insert_ne.
    intros E. apply job_key_inj in E. congruence. }
  destruct (handlers (job_type job)) as [execute|].
  - destruct (execute (payload job) db) as [[returned|e] db'] eqn:Ex; cbn [fst snd].
    + unfold complete_job.
      destruct returned as [| | | | | |[|f fs]];
        unfold fail_job, hash_of; cbn [zset hashes snd];
        rewrite ?lookup_insert_eq; cbn [h_status];
        repeat split; auto.
    + unfold fail_job, hash_of; cbn [zset hashes snd];
        rewrite ?lookup_insert_eq; cbn [h_status];
        repeat split; auto.
  - unfold fail_job, hash_of; cbn [zset hashes snd];
      rewrite ?lookup_insert_eq; cbn [h_status];
      repeat split; auto.
Qed.

(** X11.  [process_job] always ends the job: whatever the handler does,
    the job's hash says COMPLETED or FAILED afterwards, the sorted set
    is as it was (nothing is put back), and no other job's hash is
    touched.  A job type without a handler fails with "Unknown job
    type" and the database untouched; a handler that raises fails the
    job with the exception's name and text; a handler that returns a
    non-empty object completes the job with that object as result. *)
Theorem process_job_ends_the_job (handlers : string -> option Worker.handler)
    (utcnow : string) (job : job_data) (db : Models.database) (r : redis) :
  let '(db', r') := Worker.process_job handlers utcnow job (db, r) in
  let h' := hash_of r' (job_key (job_id job)) in
  zset r' = zset r
  /\ (h_status h' = Some "COMPLETED" \/ h_status h' = Some "FAILED")
  /\ h_data h' = h_data (hash_of r (job_key (job_id job)))
  /\ (forall other, other <> job_id job ->
                    hashes r' !! job_key other = hashes r !! job_key other)
  /\ match handlers (job_type job) with
     | None =>
         db' = db
         /\ h_status h' = Some "FAILED"
         /\ h_error h' = Some ("Unknown job type: " ++ job_type job)%string
     | Some execute =>
         db' = snd (execute (payload job) db)
         /\ match fst (execute (payload job) db) with
            | Raise e =>
                h_status h' = Some "FAILED"
                /\ h_error h'
                   = Some (Worker.exn_name e ++ ": " ++ Ingest.exn_str e)%string
            | Ok (JObj (f :: fs)) =>
                h_status h' = Some "COMPLETED"
                /\ h_result h' = Some (dumps (JObj (f :: fs)))
            | Ok _ => True
            end
     end.
Proof.
  unfold Worker.process_job.
  assert (Hother : forall (m : gmap string job_hash) jh other,
             other <> job_id job ->
             <[job_key (job_id job) := jh]> m !! job_key other = m !! job_key other).
  { intros m jh other Hne. apply lookup_insert_ne.
    intros E. apply job_key_inj in E. congruence. }
  destruct (handlers (job_type job)) as [execute|].
  - destruct (execute (payload job) db) as [[returned|e] db'] eqn:Ex; cbn [fst snd].
    + unfold complete_job.
      destruct returned as [| | | | | |[|f fs]];
        unfold fail_job, hash_of; cbn [zset hashes];
        rewrite ?lookup_insert_eq; cbn [h_status h_data h_result h_error];
        repeat split; auto.
    + unfold fail_job, hash_of; cbn [zset hashes];
        rewrite ?lookup_insert_eq; cbn [h_status h_data h_result h_error];
        repeat split; auto.
  - unfold fail_job, hash_of; cbn [zset hashes];
      rewrite ?lookup_insert_eq; cbn [h_status h_data h_result h_error];
      repeat split; auto.
Qed.

(** The loop touches the hash of no job that is not waiting. *)
Lemma run_loop_untouched (handlers : string -> option Worker.handler)
    (clock : nat -> string) (n : nat) (db : Models.database) (r : redis)
    (id : string) :
  ~ In id (waiting r) ->
  hashes (snd (Runner.run_loop handlers clock n (db, r))) !! job_key id
  = hashes r !! job_key id.
Proof.
  revert db r. induction n as [|n IH]; intros db r Hid; [reflexivity|].
  cbn [Runner.run_loop]. unfold dequeue, waiting in *.
  destruct (zset r) as [|[j s] zs] eqn:Ez; cbn [bzpopmin].
  - rewrite IH; [reflexivity|]. unfold waiting. now rewrite Ez.
  - pose proof (process_job_books handlers (clock n) j db
                  (hset_status (job_key (job_id j)) "RUNNING"
                     {| zset := zs; hashes := hashes r |})) as Hb.
    destruct (Worker.process_job handlers (clock n) j _) as [db2 r2].
    cbn [snd] in Hb. destruct Hb as (Hz & _ & Ho).
    assert (Hne : id <> job_id j) by (intros ->; apply Hid; now left).
    rewrite IH.
    + rewrite (Ho id Hne). unfold hset_status. cbn [hashes].
      apply lookup_insert_ne. intros E. apply job_key_inj in E. congruence.
    + unfold waiting. rewrite Hz. unfold hset_status. cbn [zset].
      intros Hin. apply Hid. now right.
Qed.

(** X12.  A worker that makes at least as many passes as jobs wait
    empties the queue and ends every one of them: when no two waiting
    jobs share an id, each job that waited has status COMPLETED or
    FAILED afterwards, and the hash of any job that did not wait is
    untouched.  A worker whose health check fails changes nothing. *)
Theorem worker_drains_the_queue (handlers : string -> option Worker.handler)
    (clock : nat -> string) (iterations : nat) (db : Models.database) (r : redis) :
  List.NoDup (waiting r) ->
  (List.length (zset r) <= iterations)%nat ->
  let r' := snd (Runner.run_worker true handlers clock iterations (db, r)) in
  zset r' = []
  /\ (forall id, In id (waiting r) ->
                 h_status (hash_of r' (job_key id)) = Some "COMPLETED"
                 \/ h_status (hash_of r' (job_key id)) = Some "FAILED")
  /\ (forall id, ~ In id (waiting r) ->
                 hashes r' !! job_key id = hashes r !! job_key id)
  /\ Runner.run_worker false handlers clock iterations (db, r) = (db, r).
Proof.
  unfold Runner.run_worker. cbn [negb]. intros Hnd Hlen.
  split; [|split; [|split; [|reflexivity]]].
  3: { intros id Hid. now apply run_loop_untouched. }
  - revert db r Hnd Hlen. induction iterations as [|n IH]; intros db r Hnd Hlen.
    + cbn. destruct (zset r); [reflexivity | simpl in Hlen; lia].
    + cbn [Runner.run_loop]. unfold dequeue, waiting in *.
      destruct (zset r) as [|[j s] zs] eqn:Ez; cbn [bzpopmin].
      * apply IH; unfold waiting; rewrite Ez; [constructor | simpl; lia].
      * pose proof (process_job_books handlers (clock n) j db
                      (hset_status (job_key (job_id j)) "RUNNING"
                         {| zset := zs; hashes := hashes r |})) as Hb.
        destruct (Worker.process_job handlers (clock n) j _) as [db2 r2].
        cbn [snd] in Hb. destruct Hb as (Hz & _ & _).
        unfold hset_status in Hz. cbn [zset] in Hz.
        simpl in Hnd. apply List.NoDup_cons_iff in Hnd.
        apply IH; unfold waiting; rewrite Hz; [tauto | simpl in Hlen; lia].
  - revert db r Hnd Hlen. induction iterations as [|n IH]; intros db r Hnd Hlen id Hid.
    + unfold waiting in Hid. destruct (zset r); [destruct Hid | simpl in Hlen; lia].
    + cbn [Runner.run_loop]. unfold dequeue, waiting in *.
      destruct (zset r) as [|[j s] zs] eqn:Ez; cbn [bzpopmin]; [destruct Hid|].
      pose proof (process_job_books handlers (clock n) j db
                    (hset_status (job_key (job_id j)) "RUNNING"
                       {| zset := zs; hashes := hashes r |})) as Hb.
      destruct (Worker.process_job handlers (clock n) j _) as [db2 r2].
      cbn [snd] in Hb. destruct Hb as (Hz & Hs & _).
      unfold hset_status in Hz. cbn [zset] in Hz.
      simpl in Hnd. apply List.NoDup_cons_iff in Hnd. destruct Hnd as [Hj Hnd].
      destruct (in_dec string_dec id (List.map (fun e => job_id (fst e)) zs))
        as [Hin|Hout].
      * apply IH; unfold waiting; rewrite ?Hz; [exact Hnd | simpl in Hlen; lia | exact Hin].
      * assert (E : id = job_id j).
        { simpl in Hid. destruct Hid as [E|Hin]; [now symmetry | contradiction]. }
        subst id. unfold hash_of.
        rewrite (run_loop_untouched handlers clock n db2 r2 (job_id j)).
        -- exact Hs.
        -- unfold waiting. now rewrite Hz.
Qed.

Lemma two_ids_differ :
  List.NoDup (List.map c_uuid4 [first_call; second_call] ++ waiting empty_redis).
Proof.
  apply List.NoDup_cons; [intros [H|[]]; discriminate H|].
  apply List.NoDup_cons; [intros [] | constructor].
Qed.

Lemma distinct_ids_lose_no_job_witness :
  Permutation (dequeue_all (enqueue_all [first_call; second_call] empty_redis))
              [job_of_call first_call; job_of_call second_call]
  /\ get_queue_length (enqueue_all [first_call; second_call] empty_redis) = 2.
Proof.
  exact (distinct_ids_lose_no_job [first_call; second_call] empty_redis two_ids_differ).
Defined.

(** A worker that knows no job type at all. *)
Definition no_handlers (job_type : string) : option Worker.handler := None.

Definition midnight (pass : nat) : string := "2024-05-02T00:00:00.000000".

Definition empty_database : Models.database :=
  {| Models.documents := []; Models.next_document_id := 1;
     Models.chunks := []; Models.next_chunk_id := 1;
     Models.rules := []; Models.audit_events := [] |}.

Lemma worker_drains_the_queue_witness :
  zset (snd (Runner.run_worker true no_handlers midnight 3
               (empty_database, one_waiting))) = []
  /\ h_status (hash_of (snd (Runner.run_worker true no_handlers midnight 3
                               (empty_database, one_waiting)))
                 (job_key "6f1c2b3a-0d4e-4f5a-8b6c-7d8e9f0a1b2c"))
     = Some "FAILED".
Proof.
  assert (Hnd : List.NoDup (waiting one_waiting))
    by (apply List.NoDup_cons; [intros [] | constructor]).
  assert (Hlen : (List.length (zset one_waiting) <= 3)%nat) by (cbn; lia).
  destruct (worker_drains_the_queue no_handlers midnight 3 empty_database one_waiting
              Hnd Hlen) as (Hz & _).
  split; [exact Hz | reflexivity].
Defined.

End DeliveryFacts.

(** *** What one ingest request can do to the table *)

Module IngestRowFacts.
Import Models Ingest.

Lemma unknown_sha (d : database) (h : string) :
  List.existsb (fun d' => String.eqb (file_sha256 d') h) (documents d) = false ->
  get_document_by_sha d h = None.
Proof.
  unfold get_document_by_sha. intros H.
  destruct (List.find _ (documents d)) as [doc|] eqn:E; [|reflexivity].
  rewrite (IngestFacts.known_sha_exists d h doc E) in H. discriminate.
Qed.

(** The row a successful request added. *)
Definition added (w w' : world) (row : Document) : Prop :=
  documents (db w') = documents (db w) ++ [row]
  /\ get_document_by_sha (db w) (file_sha256 row) = None
  /\ status row = INGESTED
  /\ id row = next_document_id (db w).

Lemma on_fs_keeps_db {A} (m : io Storage.node A) (w w1 : world) (r : result A) :
  on_fs m w = (r, w1) -> db w1 = db w.
Proof.
  intros E. replace w1 with (snd (on_fs m w)) by (rewrite E; reflexivity).
  apply IngestFacts.on_fs_db.
Qed.

Section Requests.
Variable sha256_hex : list byte -> string.
Variable guess_type : string -> option string.
Variable storage : Storage.StorageService.
Variable env : draws.

Lemma ingest_new_outcome (inbox_path h : string) (w w' : world)
    (r : result IngestResponse) :
  ingest_new guess_type storage env inbox_path h w = (r, w') ->
  match r with
  | Ok resp => r_status resp = "INGESTED" /\ r_sha256 resp = h
               /\ exists row, added w w' row /\ file_sha256 row = h
                              /\ r_document_id resp = Some (id row)
  | Raise e => documents (db w') = documents (db w)
  end.
Proof.
  unfold ingest_new, bind.
  destruct (on_fs (Storage.stat guess_type storage inbox_path) w)
    as [[file_stat|e] w1] eqn:E1.
  2:{ intros H; injection H as <- <-.
      now rewrite (on_fs_keeps_db _ w w1 _ E1). }
  pose proof (on_fs_keeps_db _ w w1 _ E1) as Hdb1.
  match goal with
  | |- context [on_fs ?m w1] =>
      destruct (on_fs m w1) as [[copied|e] w2] eqn:E2;
      pose proof (on_fs_keeps_db m w1 w2 _ E2) as Hdb2
  end.
  2:{ intros H; injection H as <- <-. now rewrite Hdb2, Hdb1. }
  assert (Hdb : db w2 = db w) by congruence.
  unfold on_db, add_document. rewrite Hdb.
  destruct (List.existsb _ (documents (db w))) eqn:Ex.
  - intros H; injection H as <- <-. reflexivity.
  - cbn [db fs queue id]. unfold on_queue, ret.
    destruct (enqueue_pipeline env _ _ _ _) as [u q4].
    intros H; injection H as <- <-. cbn [r_status r_sha256 r_document_id db].
    split; [reflexivity|]. split; [reflexivity|].
    eexists. split.
    { unfold added, log_document_event. cbn [db documents].
      split; [reflexivity|]. cbn [file_sha256 status id].
      split; [|split; reflexivity].
      apply unknown_sha. exact Ex. }
    split; reflexivity.
Qed.


(** X14.  A request for a path outside [00_inbox/] is refused without
    reading or changing anything, but the refusal reaches the client
    with code 500: the 403 raised inside the [try] is caught by the
    endpoint's own [except Exception]. *)
Theorem ingest_outside_inbox_answers_500 (request_body : IngestRequest) (w : world) :
  startswith (inbox_path request_body) "00_inbox/" = false ->
  exists detail,
    ingest_document sha256_hex guess_type storage env request_body w
    = (Raise (HTTPException 500 detail), w).
Proof.
  intros Hout. unfold ingest_document, try_except, bind.
  rewrite Hout. cbn [negb]. eexists. reflexivity.
Qed.

End Requests.

Lemma ingest_outside_inbox_answers_500_witness :
  exists detail,
    ingest_document StorageFacts.toy_digest IngestFacts.guess_by_suffix
      StorageFacts.temp_storage IngestFacts.some_draws
      {| inbox_path := "01_ingested/a.txt"; skip_duplicate_check := false |}
      IngestFacts.before_reingest
    = (Raise (HTTPException 500 detail), IngestFacts.before_reingest).
Proof.
  exact (ingest_outside_inbox_answers_500 StorageFacts.toy_digest
           IngestFacts.guess_by_suffix StorageFacts.temp_storage
           IngestFacts.some_draws
           {| inbox_path := "01_ingested/a.txt"; skip_duplicate_check := false |}
           IngestFacts.before_reingest eq_refl).
Defined.

End IngestRowFacts.

(** *** The four jobs of a document *)

Module StageFacts.
Import Queue QueueFacts LifecycleFacts MemberFacts DeliveryFacts.

#[local] Arguments member : simpl never.
#[local] Arguments zentry_le : simpl never.

(** The calls [enqueue_pipeline] makes, in order. *)
Definition pipeline_calls (env : Ingest.draws) (doc : Z) (ingested_path : string)
    (mime : option string) : list call :=
  [ {| c_uuid4 := Ingest.uuid_extract env; c_utcnow := Ingest.now_extract env;
       c_job_type := "extract_text";
       c_payload := [("document_id", JInt doc); ("file_path", JStr ingested_path);
                     ("mime_type", json_opt_str mime)];
       c_priority := 50; c_document_id := Some doc |};
    {| c_uuid4 := Ingest.uuid_chunk env; c_utcnow := Ingest.now_chunk env;
       c_job_type := "chunk_text";
       c_payload := [("document_id", JInt doc);
                     ("depends_on", JStr (Ingest.uuid_extract env))];
       c_priority := 100; c_document_id := Some doc |};
    {| c_uuid4 := Ingest.uuid_embed env; c_utcnow := Ingest.now_embed env;
       c_job_type := "embed_chunks";
       c_payload := [("document_id", JInt doc);
                     ("depends_on", JStr (Ingest.uuid_chunk env))];
       c_priority := 150; c_document_id := Some doc |};
    {| c_uuid4 := Ingest.uuid_classify env; c_utcnow := Ingest.now_classify env;
       c_job_type := "classify_document";
       c_payload := [("document_id", JInt doc);
                     ("depends_on", JStr (Ingest.uuid_embed env))];
       c_priority := 200; c_document_id := Some doc |} ].

Lemma enqueue_pipeline_calls (env : Ingest.draws) (doc : Z) (ingested_path : string)
    (mime : option string) (q : redis) :
  snd (Ingest.enqueue_pipeline env doc ingested_path mime q)
  = enqueue_all (pipeline_calls env doc ingested_path mime) q.
Proof. reflexivity. Qed.

(** In a list in ascending order of priority, a job of smaller
    priority stands before one of greater priority. *)
Lemma sorted_before (l : list job_data) (a b : job_data) :
  StronglySorted (fun x y => priority x <= priority y) l ->
  In a l -> In b l -> priority a < priority b -> before a b l.
Proof.
  intros Hs. induction Hs as [|x l Hs IH Hx]; intros Ha Hb Hlt; [destruct Ha|].
  destruct Ha as [->|Ha].
  - destruct Hb as [->|Hb]; [lia|].
    apply in_split in Hb. destruct Hb as (l1 & l2 & ->).
    exists [], l1, l2. reflexivity.
  - destruct Hb as [->|Hb].
    + rewrite List.Forall_forall in Hx. specialize (Hx a Ha). lia.
    + destruct (IH Ha Hb Hlt) as (l1 & l2 & l3 & ->).
      exists (x :: l1), l2, l3. reflexivity.
Qed.

(** X15.  On a queue in the server's order, the four jobs that ingest
    enqueues for a document, with ids that differ from one another and
    from the ids of the waiting jobs, are all delivered, next to the jobs
    that waited, and in the order of the stages: extract_text before
    chunk_text before embed_chunks before classify_document.  Each later
    job names its predecessor in [depends_on]. *)
Theorem pipeline_jobs_come_in_stage_order (env : Ingest.draws) (doc : Z)
    (ingested_path : string) (mime : option string) (q : redis) :
  zset_ok (zset q) ->
  List.NoDup ([Ingest.uuid_extract env; Ingest.uuid_chunk env;
               Ingest.uuid_embed env; Ingest.uuid_classify env] ++ waiting q) ->
  let jobs := dequeue_all (snd (Ingest.enqueue_pipeline env doc ingested_path mime q)) in
  exists extract chunk embed classify,
    Permutation jobs (dequeue_all q ++ [extract; chunk; embed; classify])
    /\ before extract chunk jobs /\ before chunk embed jobs
    /\ before embed classify jobs
    /\ List.map job_type [extract; chunk; embed; classify]
       = ["extract_text"; "chunk_text"; "embed_chunks"; "classify_document"]
    /\ Storage.assoc "depends_on" (payload chunk) = Some (JStr (job_id extract))
    /\ Storage.assoc "depends_on" (payload embed) = Some (JStr (job_id chunk))
    /\ Storage.assoc "depends_on" (payload classify) = Some (JStr (job_id embed)).
Proof.
  intros Hok Hnd. cbv zeta. rewrite enqueue_pipeline_calls.
  set (calls := pipeline_calls env doc ingested_path mime).
  assert (Hm : List.NoDup (List.map (fun c => member (job_of_call c)) calls
                           ++ List.map (fun e => member (fst e)) (zset q))).
  { unfold waiting in Hnd.
    assert (E : forall (A : Type) (f : A -> job_data) (g : job_data -> string)
                       (l : list A),
               List.map (fun x => g (f x)) l = List.map g (List.map f l))
      by (intros; now rewrite List.map_map).
    rewrite (E _ job_of_call member), (E _ fst member), <- List.map_app.
    apply (nodup_map_finer member job_id); [exact member_job_id|].
    rewrite List.map_app, !List.map_map. exact Hnd. }
  pose proof (enqueue_all_perm calls q Hm) as Hp.
  rewrite <- !dequeue_all_zset in Hp.
  pose proof (enqueue_all_ok calls q Hok) as Hok'.
  destruct (zset_ok_jobs _ Hok') as [Hs _].
  rewrite <- dequeue_all_zset in Hs.
  exists (job_of_call (nth 0 calls first_call)),
         (job_of_call (nth 1 calls first_call)),
         (job_of_call (nth 2 calls first_call)),
         (job_of_call (nth 3 calls first_call)).
  split; [exact Hp|].
  assert (Hin : forall j, In j (List.map job_of_call calls) ->
                          In j (dequeue_all (enqueue_all calls q))).
  { intros j Hj. eapply Permutation_in; [symmetry; exact Hp|].
    apply in_or_app. now right. }
  split; [|split; [|split]].
  1-3: apply sorted_before;
         [exact Hs | apply Hin; cbn; tauto | apply Hin; cbn; tauto | cbn; lia].
  repeat split; reflexivity.
Qed.

(** The head of the sorted set stays the head when a job with another
    member string and a greater score is added. *)
Lemma zadd_keeps_head (j : job_data) (s : Z) (h : job_data) (p : Z)
    (zs : list (job_data * Z)) :
  job_id h <> job_id j -> p < s ->
  exists zs', zadd j s ((h, p) :: zs) = (h, p) :: zs'.
Proof.
  intros Hid Hlt. unfold zadd. cbn [List.filter fst].
  destruct (String.eqb_spec (member h) (member j)) as [E|N]; cbn [negb].
  - exfalso. apply Hid. now apply member_job_id.
  - cbn [insert_sorted]. unfold zentry_le at 1. cbn [fst snd].
    destruct (Z.ltb_spec p s); [|lia]. cbn [orb]. eauto.
Qed.

Section Extraction.
Variable pdf_pages : list byte -> result (list ExtractTextHandler.text).
Variable column_text : ExtractTextHandler.text -> string.
Variable storage : Storage.StorageService.

(** X16.  A file whose name gives no mime type cannot be extracted:
    ingest then enqueues the extract_text job with [mime_type: None],
    the worker receives that job first, and the handler, having
    accepted the path, raises [AttributeError] on [mime_type.lower()]
    before it reads the file; nothing is written. *)
Theorem unknown_mime_type_fails_extraction (env : Ingest.draws) (doc : Z)
    (ingested_path : string) (t : Storage.node) (db : Models.database) :
  ~ In (Ingest.uuid_extract env)
       [Ingest.uuid_chunk env; Ingest.uuid_embed env; Ingest.uuid_classify env] ->
  is_ok (Storage.safe_join storage t ingested_path) = true ->
  exists job q' msg,
    dequeue (snd (Ingest.enqueue_pipeline env doc ingested_path None empty_redis))
    = (Some job, q')
    /\ job_type job = "extract_text"
    /\ ExtractTextHandler.execute pdf_pages column_text storage (payload job) (t, db)
       = (Raise (AttributeError msg), (t, db)).
Proof.
  intros Hfresh Hsj. rewrite enqueue_pipeline_calls.
  set (calls := pipeline_calls env doc ingested_path None).
  set (j1 := job_of_call (nth 0 calls first_call)).
  assert (Hz : exists zs, zset (enqueue_all calls empty_redis) = (j1, 50) :: zs).
  { unfold calls, pipeline_calls, enqueue_all. cbn [fold_left].
    rewrite !do_enqueue_zset. cbn [c_priority].
    assert (H1 : zset (do_enqueue (nth 0 calls first_call) empty_redis) = [(j1, 50)])
      by reflexivity.
    unfold calls, pipeline_calls in H1. cbn [nth] in H1. rewrite do_enqueue_zset in H1.
    cbn [c_priority] in H1. rewrite H1.
    destruct (zadd_keeps_head
                (job_of_call (nth 1 calls first_call)) 100 j1 50 []) as [z2 E2];
      [cbn; intros E; apply Hfresh; cbn; auto | lia |].
    unfold calls, pipeline_calls in E2. cbn [nth] in E2. rewrite E2.
    destruct (zadd_keeps_head
                (job_of_call (nth 2 calls first_call)) 150 j1 50 z2) as [z3 E3];
      [cbn; intros E; apply Hfresh; cbn; auto | lia |].
    unfold calls, pipeline_calls in E3. cbn [nth] in E3. rewrite E3.
    destruct (zadd_keeps_head
                (job_of_call (nth 3 calls first_call)) 200 j1 50 z3) as [z4 E4];
      [cbn; intros E; apply Hfresh; cbn; auto | lia |].
    unfold calls, pipeline_calls in E4. cbn [nth] in E4. rewrite E4.
    eauto. }
  destruct Hz as [zs Hz].
  unfold dequeue. rewrite Hz. cbn [bzpopmin].
  eexists j1, _, _. split; [reflexivity|]. split; [reflexivity|].
  unfold ExtractTextHandler.execute. cbn.
  destruct (Storage.safe_join storage t ingested_path); [|discriminate].
  reflexivity.
Qed.

End Extraction.

Lemma four_ids_differ :
  List.NoDup ([Ingest.uuid_extract IngestFacts.some_draws;
               Ingest.uuid_chunk IngestFacts.some_draws;
               Ingest.uuid_embed IngestFacts.some_draws;
               Ingest.uuid_classify IngestFacts.some_draws] ++ waiting empty_redis).
Proof.
  repeat (apply List.NoDup_cons;
          [cbn; intros H;
           repeat (destruct H as [H|H]; [discriminate H|]); exact H|]).
  constructor.
Qed.

Lemma pipeline_jobs_come_in_stage_order_witness :
  exists extract chunk embed classify,
    Permutation
      (dequeue_all (snd (Ingest.enqueue_pipeline IngestFacts.some_draws 1
                           "01_ingested/5_a.txt" (Some "text/plain") empty_redis)))
      [extract; chunk; embed; classify]
    /\ List.map job_type [extract; chunk; embed; classify]
       = ["extract_text"; "chunk_text"; "embed_chunks"; "classify_document"].
Proof.
  destruct (pipeline_jobs_come_in_stage_order IngestFacts.some_draws 1
              "01_ingested/5_a.txt" (Some "text/plain") empty_redis
              (conj (SSorted_nil _) (List.Forall_nil _)) four_ids_differ)
    as (extract & chunk & embed & classify & Hp & _ & _ & _ & Ht & _).
  exists extract, chunk, embed, classify. split; [exact Hp | exact Ht].
Defined.

Definition no_pages (data : list byte) : result (list ExtractTextHandler.text) := Ok [].
Definition as_spaces (cs : ExtractTextHandler.text) : string := "".

Lemma unknown_mime_type_fails_extraction_witness :
  exists job q' msg,
    dequeue (snd (Ingest.enqueue_pipeline IngestFacts.some_draws 1
                    "00_inbox/test.txt" None empty_redis))
    = (Some job, q')
    /\ job_type job = "extract_text"
    /\ ExtractTextHandler.execute no_pages as_spaces StorageFacts.temp_storage
         (payload job) (StorageFacts.fixture, empty_database)
       = (Raise (AttributeError msg), (StorageFacts.fixture, empty_database)).
Proof.
  apply (unknown_mime_type_fails_extraction no_pages as_spaces
           StorageFacts.temp_storage IngestFacts.some_draws 1 "00_inbox/test.txt"
           StorageFacts.fixture empty_database).
  - cbn. intros H. repeat (destruct H as [H|H]; [discriminate H|]). exact H.
  - reflexivity.
Defined.

End StageFacts.

(** *** What a rule's conditions and actions amount to *)

Module ConditionFacts.
Import Models RulesEngine.

(** The keys [evaluate_condition] looks for. *)
Definition known_keys : list string :=
  ["filename_regex"; "mime_type"; "mime_type_contains";
   "file_size_min"; "file_size_max"; "text_contains"].

(** [rule.get("conditions", {})] as the list of its items. *)
Definition items_of (rule : Rule) : list (string * json) :=
  match conditions rule with
  | Some items => items
  | None => []
  end.

Lemma assoc_single_other {A} (k key : string) (v : A) :
  k <> key -> Storage.assoc k [(key, v)] = None.
Proof.
  intros Hne. simpl. destruct (String.eqb_spec k key); [contradiction | reflexivity].
Qed.

Section Engine.
Variable re_search_ignorecase : string -> string -> result bool.

Lemma unknown_key_matches (document : Document) (key : string) (value : json) :
  ~ In key known_keys ->
  evaluate_condition re_search_ignorecase document [(key, value)] = Ok true.
Proof.
  intros Hk. unfold known_keys in Hk. cbn [In] in Hk.
  unfold evaluate_condition, check_filename_regex, check_mime_type,
    check_mime_type_contains, check_file_size_min, check_file_size_max,
    check_text_contains.
  rewrite !assoc_single_other by (intros E; apply Hk; rewrite E; tauto).
  reflexivity.
Qed.

Lemma evaluate_items_true (document : Document) (items : list (string * json)) :
  evaluate_items re_search_ignorecase document items = Ok true
  <-> Forall (fun kv => evaluate_condition re_search_ignorecase document [kv] = Ok true)
             items.
Proof.
  induction items as [|[key value] items IH]; cbn [evaluate_items].
  - split; [constructor | reflexivity].
  - destruct (evaluate_condition re_search_ignorecase document [(key, value)])
      as [[|]|e] eqn:E; cbn [and_then].
    + rewrite IH. split; [intros H; constructor; assumption|].
      intros H. now inversion H.
    + split; [discriminate|]. intros H. inversion H; congruence.
    + split; [discriminate|]. intros H. inversion H; congruence.
Qed.

Lemma evaluate_rule_items (document : Document) (rule : Rule) :
  evaluate_rule re_search_ignorecase document rule
  = evaluate_items re_search_ignorecase document (items_of rule).
Proof.
  unfold evaluate_rule, items_of. destruct (conditions rule) as [[|kv items]|];
    reflexivity.
Qed.

(** X17.  A rule matches exactly when each of its conditions, taken
    alone, matches (AND logic): so a rule without conditions matches
    every document, and so does a rule all of whose condition keys are
    none of the six the engine knows, since an unknown key is skipped
    without a word.  When a rule does not match, some condition is the
    first that fails, and none after it is looked at. *)
Theorem rule_matches_iff_every_condition_does (document : Document) (rule : Rule) :
  (evaluate_rule re_search_ignorecase document rule = Ok true
   <-> Forall (fun kv => evaluate_condition re_search_ignorecase document [kv] = Ok true)
              (items_of rule))
  /\ (Forall (fun kv => ~ In (fst kv) known_keys) (items_of rule) ->
      evaluate_rule re_search_ignorecase document rule = Ok true)
  /\ (forall outcome,
        evaluate_rule re_search_ignorecase document rule = outcome ->
        outcome <> Ok true ->
        exists before kv after,
          items_of rule = before ++ kv :: after
          /\ Forall (fun kv' => evaluate_condition re_search_ignorecase document [kv']
                                = Ok true) before
          /\ evaluate_condition re_search_ignorecase document [kv] = outcome).
Proof.
  rewrite evaluate_rule_items. split; [apply evaluate_items_true|]. split.
  - intros Hu. apply evaluate_items_true.
    eapply List.Forall_impl; [|exact Hu].
    intros [key value] Hk. now apply unknown_key_matches.
  - intros outcome. induction (items_of rule) as [|[key value] items IH];
      cbn [evaluate_items].
    + intros <- H. now contradiction H.
    + destruct (evaluate_condition re_search_ignorecase document [(key, value)])
        as [[|]|e] eqn:E; cbn [and_then].
      * intros Ho Hne. destruct (IH Ho Hne) as (before & kv & after & -> & Hb & Hk).
        exists ((key, value) :: before), kv, after.
        split; [reflexivity|]. split; [constructor; assumption | exact Hk].
      * intros <- _. exists [], (key, value), items.
        split; [reflexivity|]. split; [constructor | exact E].
      * intros <- _. exists [], (key, value), items.
        split; [reflexivity|]. split; [constructor | exact E].
Qed.

Lemma classify_loop_none (document : Document) (loaded : list Rule) :
  snd (classify_loop re_search_ignorecase document loaded) = Ok None
  <-> Forall (fun r => evaluate_rule re_search_ignorecase document r = Ok false) loaded.
Proof.
  induction loaded as [|r loaded IH]; cbn [classify_loop].
  - split; [constructor | reflexivity].
  - destruct (evaluate_rule re_search_ignorecase document r) as [[|]|e] eqn:E.
    + destruct (apply_actions document (actions r)). cbn [snd].
      split; [discriminate|]. intros H. inversion H; congruence.
    + destruct (classify_loop re_search_ignorecase document loaded) as [seen outcome].
      cbn [snd] in *. rewrite IH.
      split; [intros H; constructor; assumption | intros H; now inversion H].
    + cbn [snd]. split; [discriminate|]. intros H. inversion H; congruence.
Qed.

(** X18.  [classify_document] reports no match exactly when every
    active rule of the table evaluates to false for the document; a
    rule that is not active is never evaluated, so it can neither
    match nor make the classification fail. *)
Theorem no_match_iff_every_active_rule_fails (db : database) (document : Document) :
  (classify_document re_search_ignorecase db document = Ok None
   <-> forall r, In r (rules db) -> is_active r = true ->
                 evaluate_rule re_search_ignorecase document r = Ok false)
  /\ Forall (fun r => is_active r = true)
            (fst (classify_loop re_search_ignorecase document (get_active_rules db))).
Proof.
  destruct (RulesFacts.get_active_rules_spec db) as (Hperm & Hact & _).
  split.
  - unfold classify_document. rewrite classify_loop_none, List.Forall_forall.
    split; intros H r Hr.
    + intros Ha. apply H. eapply Permutation_in; [symmetry; exact Hperm|].
      apply List.filter_In. split; assumption.
    + apply (Permutation_in _ Hperm) in Hr. apply List.filter_In in Hr.
      apply H; tauto.
  - clear Hperm.
    induction Hact as [|r loaded Hr Hact IH]; cbn [classify_loop]; [constructor|].
    destruct (evaluate_rule re_search_ignorecase document r) as [[|]|e].
    + destruct (apply_actions document (actions r)). cbn [fst].
      constructor; [exact Hr | constructor].
    + destruct (classify_loop re_search_ignorecase document loaded) as [seen outcome].
      cbn [fst] in *. constructor; assumption.
    + cbn [fst]. constructor; [exact Hr | constructor].
Qed.

End Engine.

(** X19.  [apply_actions] touches three columns and no other: the
    category, the suggested target path and the suggested filename are
    set from the actions that name them and kept otherwise; the id, the
    hash, the names, sizes and paths, the status, the text, the
    confidence and the trace stay as they were.  A [tags] action changes
    nothing in the document; it is only reported.  Every reported change
    is one of the four actions with the value the rule gave it. *)
Theorem apply_actions_sets_three_columns (document : Document)
    (acts : list (string * json)) :
  let '(d, changes) := apply_actions document acts in
  category d = match Storage.assoc "category" acts with
               | Some v => text_column v
               | None => category document
               end
  /\ suggested_target_path d = match Storage.assoc "target_path" acts with
                               | Some v => text_column v
                               | None => suggested_target_path document
                               end
  /\ suggested_filename d = match Storage.assoc "suggested_filename" acts with
                            | Some v => text_column v
                            | None => suggested_filename document
                            end
  /\ set_category (category document)
       (set_suggested_target_path (suggested_target_path document)
          (set_suggested_filename (suggested_filename document) d))
     = document
  /\ Forall (fun kv => In (fst kv) ["category"; "target_path";
                                    "suggested_filename"; "tags"]
                       /\ Storage.assoc (fst kv) acts = Some (snd kv)) changes.
Proof.
  unfold apply_actions.
  destruct (Storage.assoc "category" acts) eqn:E1;
    destruct (Storage.assoc "target_path" acts) eqn:E2;
    destruct (Storage.assoc "suggested_filename" acts) eqn:E3;
    destruct (Storage.assoc "tags" acts) eqn:E4;
    destruct document; cbn;
    repeat split; try reflexivity;
    repeat (constructor; [cbn; split; [tauto | assumption]|]); constructor.
Qed.

End ConditionFacts.

(** *** What the model's answer becomes *)

Module AnswerFacts.
Import Models RulesEngine.

Lemma substring_length_le (n m : nat) (s : string) :
  (String.length (String.substring n m s) <= m)%nat.
Proof.
  revert n m. induction s as [|c s IH]; intros n m.
  - destruct n, m; simpl; lia.
  - destruct n as [|n].
    + destruct m as [|m]; simpl; [lia|]. specialize (IH 0%nat m). lia.
    + simpl. apply IH.
Qed.

Section Service.
Variable prompt_template : string -> string -> Z -> string -> string.
Variable json_loads : string -> option json.
Variable fenced_block : string -> option string.
Variable first_object : string -> option string.
Variable ollama_generate : string -> string -> LLMClassifier.http_reply.


(** What is behind a result of [classify]. *)
Lemma classify_some (self : LLMClassifier.LLMClassifier) (document : Document)
    (fields : list (string * json)) :
  LLMClassifier.classify prompt_template json_loads fenced_block
    first_object ollama_generate self document = Some fields ->
  LLMClassifier.available self = true
  /\ exists llm_text answered,
       ollama_generate (LLMClassifier.model self) (LLMClassifier.build_prompt prompt_template document)
       = LLMClassifier.Reply 200 (Some llm_text)
       /\ LLMClassifier.parse_llm_response json_loads fenced_block first_object
         llm_text = Some (JObj answered)
       /\ Storage.assoc "category" answered <> None
       /\ Storage.assoc "confidence" answered <> None
       /\ fields
          = Storage.assoc_set "llm_trace"
              (JObj [("model", JStr (LLMClassifier.model self));
                     ("prompt_length", JInt (len (LLMClassifier.build_prompt prompt_template document)));
                     ("response", JStr (String.substring 0 500 llm_text))])
              answered.
Proof.
  unfold LLMClassifier.classify.
  destruct (LLMClassifier.available self); cbn [negb]; [|discriminate].
  destruct (ollama_generate (LLMClassifier.model self) (LLMClassifier.build_prompt prompt_template document))
    as [| |status_code [llm_text|]] eqn:Eg; try discriminate;
    destruct (Z.eqb_spec status_code 200) as [->|]; cbn [negb]; try discriminate.
  destruct (LLMClassifier.parse_llm_response json_loads fenced_block first_object
         llm_text) as [classification|] eqn:Ep; [|discriminate].
  destruct (truthy classification); cbn [negb]; [|discriminate].
  destruct classification as [| | | | | |answered]; try discriminate.
  destruct (Storage.assoc "category" answered) eqn:Ec; [|discriminate].
  destruct (Storage.assoc "confidence" answered) eqn:Ef; [|discriminate].
  intros H; injection H as <-. split; [reflexivity|].
  exists llm_text, answered. repeat split; congruence.
Qed.


End Service.

Section Handler.
Variable re_search_ignorecase : string -> string -> result bool.
Variable prompt_template : string -> string -> Z -> string -> string.
Variable json_loads : string -> option json.
Variable fenced_block : string -> option string.
Variable first_object : string -> option string.
Variable ollama_generate : string -> string -> LLMClassifier.http_reply.
Variable llm : LLMClassifier.LLMClassifier.



End Handler.

(** A model service that answers every prompt with the same text, and
    a reading of that text. *)
Definition answering (model prompt : string) : LLMClassifier.http_reply :=
  LLMClassifier.Reply 200 (Some "ANSWER").

Definition read_answer (s : string) : option json :=
  if String.eqb s "ANSWER"
  then Some (JObj [("category", JStr "Invoice");
                   ("suggested_filename", JStr "invoice_42.pdf");
                   ("target_path", JStr "Finance/Invoices");
                   ("confidence", JFloat "0.95" (95 # 100))])
  else None.

Definition online_llm : LLMClassifier.LLMClassifier :=
  LLMClassifier.new_LLMClassifier "llama3" (LLMClassifier.Reply 200 None).


End AnswerFacts.

(** *** The shape of the chunks *)

Module SplitFacts.
Import Models ChunkTextHandler.

#[local] Arguments String.append !s1 s2 : simpl nomatch.

(** The paragraphs [split_into_chunks] works on. *)
Definition paragraphs_of (text : string) : list string :=
  List.map strip
    (List.filter (fun p => negb (String.eqb (strip p) "")) (split_paragraphs text)).

Lemma paragraphs_nonempty (text : string) :
  Forall (fun p => p <> "") (paragraphs_of text).
Proof.
  unfold paragraphs_of. rewrite List.Forall_forall. intros p Hp.
  apply List.in_map_iff in Hp. destruct Hp as (q & <- & Hq).
  apply List.filter_In in Hq. destruct Hq as [_ Hq].
  destruct (String.eqb_spec (strip q) ""); [discriminate | assumption].
Qed.

Lemma join_nonempty (l : list string) :
  l <> [] -> Forall (fun p => p <> "") l -> join_paragraphs l <> "".
Proof.
  intros Hne HF. destruct l as [|p l]; [contradiction|].
  inversion HF as [|? ? Hp _]; subst.
  unfold join_paragraphs. cbn [String.concat].
  destruct l as [|q l]; [exact Hp|].
  destruct p as [|c p]; [contradiction|]. discriminate.
Qed.

Lemma last_nonempty (l : list string) :
  l <> [] -> Forall (fun p => p <> "") l -> List.last l "" <> "".
Proof.
  intros Hne HF. rewrite List.Forall_forall in HF. apply HF.
  destruct l as [|x l] using rev_ind; [contradiction|].
  rewrite List.last_last. apply in_or_app. right. now left.
Qed.

(** One more for a chunk that is being filled. *)
Definition pending (current_chunk : list string) : nat :=
  match current_chunk with [] => 0 | _ :: _ => 1 end.

Lemma split_loop_shape (self : ChunkTextHandler) (paragraphs chunks current : list string)
    (current_length : Z) :
  Forall (fun p => p <> "") paragraphs ->
  Forall (fun c => c <> "") chunks ->
  Forall (fun p => p <> "") current ->
  let out := split_loop self paragraphs chunks current current_length in
  Forall (fun c => c <> "") out
  /\ (List.length chunks + pending current <= List.length out)%nat
  /\ (List.length out
      <= List.length chunks + pending current + List.length paragraphs)%nat
  /\ (paragraphs <> [] -> (List.length chunks + 1 <= List.length out)%nat).
Proof.
  cbv zeta. revert chunks current current_length.
  induction paragraphs as [|para rest IH]; intros chunks current cl Hp Hc Hcur.
  - cbn [split_loop]. destruct current as [|x current]; cbn [pending].
    + repeat split; auto; try lia. intros H; now contradiction H.
    + rewrite List.length_app. cbn [List.length].
      repeat split; try lia.
      apply Forall_app. split; [exact Hc|].
      constructor; [|constructor]. apply join_nonempty; [discriminate | exact Hcur].
  - inversion Hp as [|? ? Hpara Hrest]; subst. cbn [split_loop].
    destruct ((chunk_size self <? cl + len para)%Z
              && negb (Nat.eqb (List.length current) 0)) eqn:Eflush.
    + apply andb_true_iff in Eflush. destruct Eflush as [_ Hne].
      assert (Hcne : current <> []) by (intros ->; discriminate).
      assert (Hc' : Forall (fun c => c <> "") (chunks ++ [join_paragraphs current])).
      { apply Forall_app. split; [exact Hc|].
        constructor; [|constructor]. now apply join_nonempty. }
      assert (Hpc : pending current = 1%nat) by (destruct current; [contradiction | reflexivity]).
      destruct (1 <? List.length current)%nat.
      * destruct (IH (chunks ++ [join_paragraphs current]) [List.last current ""; para]
                     (len para + len para)%Z Hrest Hc') as (H1 & H2 & H3 & H4).
        { constructor; [now apply last_nonempty|]. constructor; [exact Hpara | constructor]. }
        rewrite List.length_app in H2, H3, H4. cbn [List.length pending] in *.
        repeat split; try exact H1; try lia.
      * destruct (IH (chunks ++ [join_paragraphs current]) [para] (len para)
                     Hrest Hc') as (H1 & H2 & H3 & H4).
        { constructor; [exact Hpara | constructor]. }
        rewrite List.length_app in H2, H3, H4. cbn [List.length pending] in *.
        repeat split; try exact H1; try lia.
    + destruct (IH chunks (current ++ [para]) (cl + len para)%Z Hrest Hc)
        as (H1 & H2 & H3 & H4).
      { apply Forall_app. split; [exact Hcur|]. constructor; [exact Hpara | constructor]. }
      assert (Hp1 : pending (current ++ [para]) = 1%nat)
        by (destruct current; reflexivity).
      rewrite Hp1 in *. cbn [List.length].
      assert (pending current <= 1)%nat by (destruct current; simpl; lia).
      repeat split; try exact H1; try lia.
Qed.

Lemma split_loop_fits (self : ChunkTextHandler) (paragraphs chunks current : list string)
    (current_length : Z) :
  (current_length + sum_len paragraphs <= chunk_size self)%Z ->
  split_loop self paragraphs chunks current current_length
  = match current ++ paragraphs with
    | [] => chunks
    | _ :: _ => chunks ++ [join_paragraphs (current ++ paragraphs)]
    end.
Proof.
  revert current current_length.
  induction paragraphs as [|para rest IH]; intros current cl Hfit.
  - cbn [split_loop]. rewrite app_nil_r. destruct current; reflexivity.
  - cbn [split_loop]. unfold sum_len in Hfit. cbn [List.fold_right] in Hfit.
    fold (sum_len rest) in Hfit.
    assert (Hrest : (0 <= sum_len rest)%Z).
    { clear. induction rest as [|p rest IH]; unfold sum_len; cbn [List.fold_right];
        [lia|]. fold (sum_len rest). unfold len. lia. }
    destruct (Z.ltb_spec (chunk_size self) (cl + len para)); [lia|].
    cbn [andb]. rewrite IH by lia.
    rewrite <- app_assoc. cbn [app].
    destruct current; reflexivity.
Qed.

Lemma split_loop_ignores_overlap (a b : ChunkTextHandler)
    (paragraphs chunks current : list string) (current_length : Z) :
  chunk_size a = chunk_size b ->
  split_loop a paragraphs chunks current current_length
  = split_loop b paragraphs chunks current current_length.
Proof.
  intros Hs. revert chunks current current_length.
  induction paragraphs as [|para rest IH]; intros chunks current cl; [reflexivity|].
  cbn [split_loop]. rewrite Hs.
  destruct ((chunk_size b <? cl + len para)%Z
            && negb (Nat.eqb (List.length current) 0)).
  - destruct (1 <? List.length current)%nat; apply IH.
  - apply IH.
Qed.

Lemma split_into_chunks_loop (self : ChunkTextHandler) (text : string) :
  split_into_chunks self text
  = if String.eqb text "" || String.eqb (strip text) "" then []
    else split_loop self (paragraphs_of text) [] [] 0.
Proof. reflexivity. Qed.

(** X22.  Every chunk has content, and there are never more chunks than
    paragraphs: a text with at least one paragraph of content gives at
    least one chunk, a text that is empty or blank gives none.  One
    paragraph gives one chunk however long it is. *)
Theorem chunks_are_nonempty_and_bounded (self : ChunkTextHandler) (text : string) :
  let out := split_into_chunks self text in
  Forall (fun c => c <> "") out
  /\ (List.length out <= List.length (paragraphs_of text))%nat
  /\ (text = "" \/ strip text = "" -> out = [])
  /\ (out <> [] -> paragraphs_of text <> [])
  /\ (strip text <> "" -> paragraphs_of text <> [] -> out <> []).
Proof.
  cbv zeta. rewrite split_into_chunks_loop.
  destruct (split_loop_shape self (paragraphs_of text) [] [] 0
              (paragraphs_nonempty text) (List.Forall_nil _) (List.Forall_nil _))
    as (H1 & H2 & H3 & H4).
  cbn [List.length pending] in *.
  destruct (String.eqb_spec text "") as [->|Hne]; cbn [orb].
  - repeat split; auto; try (cbn; lia); try (intros; congruence).
  - destruct (String.eqb_spec (strip text) "") as [Hs|Hs].
    + repeat split; auto; try (cbn; lia); try (intros; congruence).
    + split; [exact H1|]. split; [lia|]. split; [intros [H|H]; contradiction|].
      split.
      * intros Hout Hnil. rewrite Hnil in H3. cbn in H3.
        destruct (split_loop self [] [] [] 0) eqn:E; [|discriminate E].
        rewrite Hnil in Hout. now apply Hout.
      * intros _ Hp Hout. specialize (H4 Hp). rewrite Hout in H4. cbn in H4. lia.
Qed.

(** X23.  A text whose paragraphs together have no more characters than
    [chunk_size] becomes a single chunk, the paragraphs joined by blank
    lines; and the chunks never depend on [chunk_overlap], which the
    splitting does not read: two handlers with the same [chunk_size]
    split every text alike. *)
Theorem short_text_is_one_chunk (self : ChunkTextHandler) (text : string) :
  (strip text <> "" -> paragraphs_of text <> [] ->
   (sum_len (paragraphs_of text) <= chunk_size self)%Z ->
   split_into_chunks self text = [join_paragraphs (paragraphs_of text)])
  /\ (forall overlap,
        split_into_chunks {| chunk_size := chunk_size self; chunk_overlap := overlap |}
                          text
        = split_into_chunks self text).
Proof.
  split.
  - intros Hs Hp Hfit. rewrite split_into_chunks_loop.
    destruct (String.eqb_spec text "") as [->|Hne]; [now contradiction Hs|].
    destruct (String.eqb_spec (strip text) ""); [contradiction|]. cbn [orb].
    rewrite split_loop_fits by lia. cbn [app].
    destruct (paragraphs_of text); [contradiction | reflexivity].
  - intros overlap. rewrite !split_into_chunks_loop.
    destruct (String.eqb text "" || String.eqb (strip text) ""); [reflexivity|].
    now apply split_loop_ignores_overlap.
Qed.

End SplitFacts.

(** *** What embedding changes *)

Module PointFacts.
Import Models EmbedChunksHandler.

(** A chunk row without its reference into the vector index. *)
Definition without_point (c : DocumentChunk) : DocumentChunk :=
  {| chunk_id := chunk_id c; document_id := document_id c;
     chunk_index := chunk_index c; chunk_text := chunk_text c;
     chunk_tokens := chunk_tokens c; qdrant_point_id := None |}.

(** The row is as before, or as before with a point id set. *)
Definition repointed (c c' : DocumentChunk) : Prop :=
  c' = c \/ exists p, c' = set_point p c.

Lemma repointed_id (c c' : DocumentChunk) : repointed c c' -> chunk_id c' = chunk_id c.
Proof. intros [->|[p ->]]; reflexivity. Qed.

Lemma nodup_key_inj {A B} (f : A -> B) (l : list A) (a b : A) :
  List.NoDup (List.map f l) -> In a l -> In b l -> f a = f b -> a = b.
Proof.
  induction l as [|x l IH]; simpl; intros Hnd Ha Hb Hf; [destruct Ha|].
  apply List.NoDup_cons_iff in Hnd. destruct Hnd as [Hx Hnd].
  destruct Ha as [->|Ha], Hb as [->|Hb]; auto.
  - exfalso. apply Hx. rewrite Hf. now apply List.in_map.
  - exfalso. apply Hx. rewrite <- Hf. now apply List.in_map.
Qed.

Section Services.
Variable ollama_embeddings : string -> embed_reply.
Variable qdrant_upsert : string -> Z -> Z -> Z -> string -> list Q -> result unit.
Variable uuid4_for : Z -> string.
Variable self : EmbedChunksHandler.

Lemma embed_loop_shape (doc_id : Z) (todo done : list DocumentChunk) (n : Z) :
  embed_loop ollama_embeddings qdrant_upsert uuid4_for self doc_id todo = Ok (done, n) ->
  Forall2 repointed todo done /\ 0 <= n <= Z.of_nat (List.length todo).
Proof.
  revert done n. induction todo as [|chunk rest IH]; intros done n; cbn [embed_loop].
  - intros H; injection H as <- <-. split; [constructor | simpl; lia].
  - destruct (generate_embedding ollama_embeddings self (chunk_text chunk))
      as [embedding|e]; [|discriminate].
    destruct (if Nat.eqb (List.length embedding) 0 then Ok None
              else upsert_to_qdrant qdrant_upsert uuid4_for self doc_id
                     (chunk_id chunk) (chunk_index chunk) (chunk_text chunk) embedding)
      as [point|e]; [|discriminate].
    destruct (embed_loop ollama_embeddings qdrant_upsert uuid4_for self doc_id rest)
      as [[done' n']|e]; [|discriminate].
    destruct (IH done' n' eq_refl) as [HF Hn].
    destruct point as [point_id|]; intros H; injection H as <- <-.
    + split; [constructor; [right; eauto | exact HF]|].
      cbn [List.length]. lia.
    + split; [constructor; [now left | exact HF]|].
      cbn [List.length]. lia.
Qed.

Lemma forall2_in_right {A B} (R : A -> B -> Prop) (l : list A) (l' : list B) (b : B) :
  Forall2 R l l' -> In b l' -> exists a, In a l /\ R a b.
Proof.
  induction 1 as [|x y l l' Hxy HF IH]; intros Hin; [destruct Hin|].
  destruct Hin as [->|Hin]; [exists x; split; [now left | exact Hxy]|].
  destruct (IH Hin) as (a & Ha & Hr). exists a. split; [now right | exact Hr].
Qed.

(** X24.  A run of the embed handler that succeeds changes, in the
    table of chunks, nothing but references into the vector index, and
    only of the document it was asked to embed: every row keeps its id,
    document, index, text and token count, the rows of other documents
    are exactly as before, and the number it reports is between zero
    and the number of the document's chunks.  This holds for a table
    in which no two chunks share an id. *)
Theorem embedding_changes_point_ids_only (payload : list (string * json))
    (db db' : database) (i : Z) (returned : json) :
  List.NoDup (List.map chunk_id (chunks db)) ->
  ClassifyDocumentHandler.payload_document_id payload = Ok i ->
  execute ollama_embeddings qdrant_upsert uuid4_for self payload db
  = (Ok returned, db') ->
  List.map without_point (chunks db') = List.map without_point (chunks db)
  /\ (forall j, j <> i ->
                ChunkTextHandler.chunks_of db' j = ChunkTextHandler.chunks_of db j)
  /\ exists fields n,
       returned = JObj fields
       /\ Storage.assoc "embedded_count" fields = Some (JInt n)
       /\ 0 <= n <= Z.of_nat (List.length (ChunkTextHandler.chunks_of db i)).
Proof.
  intros Hnd Hp. unfold execute. rewrite Hp.
  assert (Hmark : forall d, chunks (mark_analyzed i d) = chunks d).
  { intros d. unfold mark_analyzed. destruct (get_document d i); reflexivity. }
  destruct (negb (ollama_available self) || negb (qdrant_available self)).
  { intros H; injection H as <- <-.
    unfold ChunkTextHandler.chunks_of. rewrite Hmark.
    split; [reflexivity|]. split; [reflexivity|].
    eexists _, 0. split; [reflexivity|]. split; [reflexivity | lia]. }
  set (found := sort_by (fun a b => (chunk_index a <=? chunk_index b)%Z)
                  (List.filter (fun c => (document_id c =? i)%Z) (chunks db))).
  assert (Hfound : forall c, In c found -> In c (chunks db) /\ document_id c = i).
  { intros c Hc. unfold found in Hc.
    apply (Permutation_in _ (sort_by_perm _ _)) in Hc.
    apply List.filter_In in Hc. destruct Hc as [Hin Hd].
    split; [exact Hin | now apply Z.eqb_eq]. }
  assert (Hlen : List.length found = List.length (ChunkTextHandler.chunks_of db i)).
  { unfold found, ChunkTextHandler.chunks_of.
    apply Permutation_length, sort_by_perm. }
  destruct found as [|c0 found'] eqn:Ef; [discriminate|]. rewrite <- Ef in *.
  clear Ef c0 found'.
  destruct (embed_loop ollama_embeddings qdrant_upsert uuid4_for self i found)
    as [[changed n]|e] eqn:El; [|discriminate].
  destruct (embed_loop_shape i found changed n El) as [HF Hn].
  intros H; injection H as <- <-.
  assert (Hpoint : forall c, In c (chunks db) ->
             let c' := match List.find (fun x => (chunk_id x =? chunk_id c)%Z) changed with
                       | Some x => x
                       | None => c
                       end in
             c' = c \/ (document_id c = i /\ exists p, c' = set_point p c)).
  { intros c Hc. cbv zeta.
    destruct (List.find (fun x => (chunk_id x =? chunk_id c)%Z) changed)
      as [x|] eqn:Efind; [|now left].
    apply List.find_some in Efind. destruct Efind as [Hx Hid].
    apply Z.eqb_eq in Hid.
    destruct (forall2_in_right repointed found changed x HF Hx) as (a & Ha & Hr).
    destruct (Hfound a Ha) as [Hain Hadoc].
    assert (a = c).
    { apply (nodup_key_inj chunk_id (chunks db)); auto.
      rewrite <- Hid. symmetry. now apply repointed_id. }
    subst a. destruct Hr as [->|[p ->]]; [now left|]. right. eauto. }
  unfold ChunkTextHandler.chunks_of in *. rewrite Hmark.
  unfold save_chunks. cbn [chunks].
  split; [|split].
  - rewrite List.map_map. apply List.map_ext_in. intros c Hc.
    destruct (Hpoint c Hc) as [->|[_ [p ->]]]; reflexivity.
  - intros j Hj. clear Hlen Hn Hfound HF El Hnd.
    induction (chunks db) as [|c l IH]; [reflexivity|].
    cbn [List.map List.filter].
    destruct (Hpoint c (or_introl eq_refl)) as [->|[Hd [p ->]]].
    + rewrite IH; [reflexivity|]. intros x Hx. apply Hpoint. now right.
    + cbn [document_id set_point].
      destruct (Z.eqb_spec (document_id c) j); [congruence|].
      apply IH. intros x Hx. apply Hpoint. now right.
  - eexists _, n. split; [reflexivity|]. split; [reflexivity|].
    rewrite <- Hlen. exact Hn.
Qed.

End Services.

Lemma chunk_ids_are_a_key : List.NoDup (List.map chunk_id (chunks EmbedFacts.chunked)).
Proof. vm_compute. repeat constructor. intros []. Qed.

Lemma embedding_changes_point_ids_only_witness :
  exists returned db',
    execute EmbedFacts.embeddings_up EmbedFacts.index_up EmbedFacts.point_for
      EmbedFacts.full_handler [("document_id", JInt 7)] EmbedFacts.chunked
    = (Ok returned, db')
    /\ List.map without_point (chunks db')
       = List.map without_point (chunks EmbedFacts.chunked)
    /\ List.map qdrant_point_id (chunks db')
       = [Some "00000000-0000-4000-8000-000000000001"].
Proof.
  eexists _, _. split; [reflexivity|].
  match goal with
  | |- List.map _ (chunks ?db') = _ /\ _ =>
      destruct (embedding_changes_point_ids_only EmbedFacts.embeddings_up
                  EmbedFacts.index_up EmbedFacts.point_for EmbedFacts.full_handler
                  [("document_id", JInt 7)] EmbedFacts.chunked db' 7 _
                  chunk_ids_are_a_key eq_refl eq_refl) as (Hsame & _)
  end.
  split; [exact Hsame | reflexivity].
Defined.

End PointFacts.

(** *** Who gets past the API key check *)

Module AccessFacts.
Import Security.

(** X25.  The middleware and [verify_api_key] agree: a request is
    handed on, unchanged, exactly when its path is one of the public
    paths or its [x-ss-api-key] header verifies; otherwise the handler
    is never called, and the answer is 401 for a missing or empty key
    and 403 for a wrong one.  With an empty key configured nobody
    passes: every request outside the public paths is refused. *)
Theorem api_key_decides_access {A : Type} (API_KEY : string) (call_next : Request -> A)
    (request : Request) :
  let key := header "x-ss-api-key" request in
  match dispatch API_KEY call_next request with
  | Forwarded response =>
      response = call_next request
      /\ (In (url_path request) PUBLIC_PATHS \/ verify_api_key API_KEY key = true)
  | JSONResponse code detail =>
      ~ In (url_path request) PUBLIC_PATHS
      /\ verify_api_key API_KEY key = false
      /\ ((code = 401 /\ (key = None \/ key = Some ""))
          \/ (code = 403 /\ exists k, key = Some k /\ k <> "" /\ k <> API_KEY))
  end
  /\ (API_KEY = "" -> ~ In (url_path request) PUBLIC_PATHS ->
      exists code detail, dispatch API_KEY call_next request = JSONResponse code detail).
Proof.
  cbv zeta. unfold dispatch, verify_api_key.
  destruct (List.existsb (String.eqb (url_path request)) PUBLIC_PATHS) eqn:Ep.
  - apply List.existsb_exists in Ep. destruct Ep as (p & Hin & Heq).
    apply String.eqb_eq in Heq. subst p.
    split; [split; [reflexivity | now left]|].
    intros _ Hout. contradiction.
  - assert (Hout : ~ In (url_path request) PUBLIC_PATHS).
    { intros Hin. apply Bool.not_true_iff_false in Ep. apply Ep.
      apply List.existsb_exists. exists (url_path request).
      split; [exact Hin | apply String.eqb_refl]. }
    destruct (header "x-ss-api-key" request) as [[|c k]|].
    + split; [|eauto]. split; [exact Hout|]. split; [reflexivity|]. left. auto.
    + destruct (String.eqb_spec (String c k) API_KEY) as [E|N]; cbn [negb].
      * split; [split; [reflexivity | now right]|].
        intros HK. rewrite HK in E. discriminate.
      * split; [|eauto]. split; [exact Hout|]. split; [reflexivity|].
        right. split; [reflexivity|]. exists (String c k).
        split; [reflexivity|]. split; [discriminate | exact N].
    + split; [|eauto]. split; [exact Hout|]. split; [reflexivity|]. left. auto.
Qed.

End AccessFacts.

(** *** The file endpoints *)

Module EndpointFacts.
Import Storage Files.

Section Endpoints.
Variable guess_type : string -> option string.
Variable storage : StorageService.
Variable audit_event_type : string -> bool.
Variable request : Security.Request.

(** An endpoint that got as far as the audit log wrote at most the one
    event of its operation. *)
Definition audited (operation : string) (s s' : state) : Prop :=
  audit s' = audit s
  \/ exists event, audit s' = audit s ++ [event]
                   /\ event_type event = ("FILE_" ++ operation)%string
                   /\ audit_event_type (event_type event) = true.

Lemma log_audited (operation path : string) (data : list (string * json)) (s : state) :
  exists s', log_file_operation audit_event_type request operation path data s
             = (Ok tt, s')
             /\ tree s' = tree s /\ audited operation s s'.
Proof.
  unfold log_file_operation. cbn [event_type].
  destruct (audit_event_type ("FILE_" ++ operation)) eqn:E.
  - eexists. split; [reflexivity|]. split; [reflexivity|].
    right. eexists. split; [reflexivity|]. split; [reflexivity | exact E].
  - exists s. split; [reflexivity|]. split; [reflexivity|]. now left.
Qed.

Lemma on_tree_audit {A} (m : io node A) (s s' : state) (r : result A) :
  on_tree m s = (r, s') -> audit s' = audit s /\ (r, tree s') = m (tree s).
Proof.
  unfold on_tree. destruct (m (tree s)) as [x t].
  intros H; injection H as <- <-. split; reflexivity.
Qed.

Lemma http_error_not_storage (code : Z) (e : exn) :
  is_StorageError (http_error code e) = false.
Proof. destruct e; reflexivity. Qed.

(** The shape shared by the six endpoints: a storage step, then perhaps
    more storage steps that leave the audit alone, then the log. *)
Definition outcome_ok {A} (operation : string) (s : state) (out : result A * state)
  : Prop :=
  match out with
  | (Ok _, s') => audited operation s s'
  | (Raise e, s') => audit s' = audit s /\ is_StorageError e = false
  end.

Lemma guarded_raise {A} (code : Z) (operation : string) (s s1 : state) (e : exn) :
  audit s1 = audit s ->
  @outcome_ok A operation s (raise (http_error code e) s1).
Proof.
  intros Ha. cbn. split; [exact Ha | apply http_error_not_storage].
Qed.

Lemma audited_after (operation : string) (s s1 s2 : state) :
  audit s1 = audit s -> audited operation s1 s2 -> audited operation s s2.
Proof. unfold audited. intros ->. auto. Qed.

Ltac storage_step H s1 Ha :=
  match goal with
  | |- context [on_tree ?m ?s0] =>
      let r := fresh "r" in
      let E := fresh "E" in
      destruct (on_tree m s0) as [[r|r] s1] eqn:E;
      destruct (on_tree_audit m s0 s1 _ E) as [Ha H]
  end.

Ltac log_step s2 Hl Ht Hau :=
  match goal with
  | |- context [log_file_operation _ _ ?op ?p ?d ?s1] =>
      destruct (log_audited op p d s1) as (s2 & Hl & Ht & Hau); rewrite Hl
  end.

Lemma list_directory_tree (path : string) (t : node) :
  snd (list_directory guess_type storage path t) = t.
Proof.
  unfold list_directory. destruct (safe_join storage t path) as [p|]; [|reflexivity].
  destruct (node_at t p) as [[| |]|]; reflexivity.
Qed.

Lemma on_tree_reads {A} (m : io node A) (s s1 : state) (r : result A) :
  (forall t, snd (m t) = t) -> on_tree m s = (r, s1) -> s1 = s.
Proof.
  intros Hm. unfold on_tree. specialize (Hm (tree s)).
  destruct (m (tree s)) as [x t]. cbn in Hm. subst t.
  intros H; injection H as _ <-. destruct s; reflexivity.
Qed.

Lemma list_files_outcome (path : string) (s : state) :
  outcome_ok "LISTED" s (list_files guess_type storage audit_event_type request path s)
  /\ tree (snd (list_files guess_type storage audit_event_type request path s))
     = tree s.
Proof.
  unfold list_files, guarded, Ingest.try_except, bind, ret; cbv beta.
  match goal with
  | |- context [on_tree ?m s] =>
      destruct (on_tree m s) as [[r|r] s1] eqn:E;
      pose proof (on_tree_reads m s s1 _ (list_directory_tree path) E) as ->
  end.
  - log_step s2 Hl Ht Hau. cbn. split; [exact Hau | exact Ht].
  - split; [now apply guarded_raise | reflexivity].
Qed.

Lemma stat_tree (path : string) (t : node) :
  snd (stat guess_type storage path t) = t.
Proof. apply IngestFacts.stat_reads_only. Qed.

Lemma read_file_tree (path : string) (t : node) :
  snd (read_file storage path t) = t.
Proof.
  unfold read_file. destruct (safe_join storage t path) as [p|]; [|reflexivity].
  destruct (node_at t p) as [[| |]|]; reflexivity.
Qed.

Lemma get_file_stat_outcome (path : string) (s : state) :
  outcome_ok "STAT" s (get_file_stat guess_type storage audit_event_type request path s)
  /\ tree (snd (get_file_stat guess_type storage audit_event_type request path s))
     = tree s.
Proof.
  unfold get_file_stat, guarded, Ingest.try_except, bind, ret; cbv beta.
  match goal with
  | |- context [on_tree ?m s] =>
      destruct (on_tree m s) as [[r|r] s1] eqn:E;
      pose proof (on_tree_reads m s s1 _ (stat_tree path) E) as ->
  end.
  - log_step s2 Hl Ht Hau. cbn. split; [exact Hau | exact Ht].
  - split; [now apply guarded_raise | reflexivity].
Qed.

Lemma download_file_outcome (path : string) (s : state) :
  outcome_ok "DOWNLOADED" s
    (download_file guess_type storage audit_event_type request path s)
  /\ tree (snd (download_file guess_type storage audit_event_type request path s))
     = tree s.
Proof.
  unfold download_file, guarded, Ingest.try_except, bind, ret; cbv beta.
  match goal with
  | |- context [on_tree ?m s] =>
      destruct (on_tree m s) as [[metadata|r] s1] eqn:E;
      pose proof (on_tree_reads m s s1 _ (stat_tree path) E) as ->
  end.
  2:{ split; [now apply guarded_raise | reflexivity]. }
  destruct (negb (String.eqb (m_type metadata) "file")).
  { unfold raise at 1. cbv beta iota. split; [now apply guarded_raise | reflexivity]. }
  match goal with
  | |- context [on_tree ?m s] =>
      destruct (on_tree m s) as [[handle|r] s1] eqn:E2;
      pose proof (on_tree_reads m s s1 _ (read_file_tree path) E2) as ->
  end.
  - log_step s2 Hl Ht Hau. cbn. split; [exact Hau | exact Ht].
  - split; [now apply guarded_raise | reflexivity].
Qed.

Lemma upload_file_outcome (filename : string) (content : list byte) (path : string)
    (s : state) :
  outcome_ok "UPLOADED" s
    (upload_file guess_type storage audit_event_type request filename content path s).
Proof.
  unfold upload_file, guarded, Ingest.try_except, bind, ret; cbv beta.
  storage_step H s1 Ha.
  - log_step s2 Hl Ht Hau. cbn. eapply audited_after; eauto.
  - now apply guarded_raise.
Qed.

Lemma move_file_outcome (source destination : string) (overwrite : bool) (s : state) :
  outcome_ok "MOVED" s
    (Files.move_file guess_type storage audit_event_type request source destination
       overwrite s).
Proof.
  unfold Files.move_file, guarded, Ingest.try_except, bind, ret; cbv beta.
  storage_step H s1 Ha.
  - log_step s2 Hl Ht Hau. cbn. eapply audited_after; eauto.
  - now apply guarded_raise.
Qed.

Lemma rename_file_outcome (path new_name : string) (s : state) :
  outcome_ok "RENAMED" s
    (rename_file guess_type storage audit_event_type request path new_name s).
Proof.
  unfold rename_file, guarded, Ingest.try_except, bind, ret; cbv beta.
  storage_step H s1 Ha.
  2:{ now apply guarded_raise. }
  storage_step H2 s2 Ha2.
  - log_step s3 Hl Ht Hau. cbn. eapply audited_after; [|exact Hau]. congruence.
  - apply guarded_raise. congruence.
Qed.

(** X26.  The audit log records successes and nothing else: an endpoint
    that answers with an error has written no event, one that succeeds
    has written at most the single event of its operation (none when
    the event type is not one the audit table takes).  No endpoint lets
    a storage exception through as it is: an error that reaches the
    client is never a [StorageError].  The three reading endpoints leave
    the storage tree as it was. *)
Theorem file_endpoints_audit_successes_only (s : state) :
  (forall path,
     outcome_ok "LISTED" s
       (list_files guess_type storage audit_event_type request path s)
     /\ tree (snd (list_files guess_type storage audit_event_type request path s))
        = tree s)
  /\ (forall path,
        outcome_ok "STAT" s
          (get_file_stat guess_type storage audit_event_type request path s)
        /\ tree (snd (get_file_stat guess_type storage audit_event_type request path s))
           = tree s)
  /\ (forall path,
        outcome_ok "DOWNLOADED" s
          (download_file guess_type storage audit_event_type request path s)
        /\ tree (snd (download_file guess_type storage audit_event_type request
                        path s))
           = tree s)
  /\ (forall filename content path,
        outcome_ok "UPLOADED" s
          (upload_file guess_type storage audit_event_type request filename content
             path s))
  /\ (forall source destination overwrite,
        outcome_ok "MOVED" s
          (Files.move_file guess_type storage audit_event_type request source
             destination overwrite s))
  /\ (forall path new_name,
        outcome_ok "RENAMED" s
          (rename_file guess_type storage audit_event_type request path new_name s)).
Proof.
  split; [intros; apply list_files_outcome|].
  split; [intros; apply get_file_stat_outcome|].
  split; [intros; apply download_file_outcome|].
  split; [intros; apply upload_file_outcome|].
  split; [intros; apply move_file_outcome|].
  intros; apply rename_file_outcome.
Qed.

(** The answer to a path that leaves the sandbox. *)
Definition forbidden (relpath : string) : exn :=
  HTTPException 403 ("Path traversal attempt detected: " ++ relpath).


(** X28.  What was uploaded can be downloaded: after an upload that
    succeeded, a download of the target path returns the bytes
    uploaded, with their number as content length, and leaves the tree
    alone.  And an upload never
    replaces a file: every regular file that was in the tree is
    still there with its bytes, whether the upload succeeded or not. *)
Theorem upload_then_download (filename : string) (content : list byte) (path : string)
    (s s' : state) (r : result metadata) :
  upload_file guess_type storage audit_event_type request filename content path s
  = (r, s') ->
  (forall q data, node_at (tree s) q = Some (File data) ->
                  node_at (tree s') q = Some (File data))
  /\ (is_ok r = true ->
      exists d s'',
        download_file guess_type storage audit_event_type request
          (upload_target path filename) s' = (Ok d, s'')
        /\ d_content d = content
        /\ d_content_length d = str_of_Z (size_of content)
        /\ tree s'' = tree s').
Proof.
  unfold upload_file, guarded, Ingest.try_except, bind, ret; cbv beta.
  set (target := upload_target path filename).
  destruct (on_tree (write_file guess_type storage target content false) s)
    as [[m|e] s1] eqn:E.
  - destruct (on_tree_audit _ s s1 _ E) as [_ Hw]. symmetry in Hw.
    log_step s2 Hl Ht Hau. intros H; injection H as <- <-.
    rewrite Ht. split.
    + exact (SandboxFacts.write_file_frame guess_type storage _ _ _ _ _ Hw).
    + intros _.
      destruct (SandboxFacts.write_file_ok guess_type storage _ _ _ _ _ _ Hw)
        as (abs_path & Hsj & Hn & ->).
      unfold download_file, guarded, Ingest.try_except, bind, ret, on_tree; cbv beta.
      rewrite Ht.
      rewrite (SandboxFacts.stat_of_file guess_type storage _ _ _ _ Hsj Hn).
      cbn [describe m_type String.eqb Ascii.eqb Bool.eqb negb andb tree audit].
      rewrite (SandboxFacts.read_of_file storage _ _ _ _ Hsj Hn).
      match goal with
      | |- context [log_file_operation _ _ ?op ?p ?d ?s1] =>
          destruct (log_audited op p d s1) as (s3 & Hl3 & Ht3 & _); rewrite Hl3
      end.
      eexists _, _. split; [reflexivity|]. cbn. rewrite Ht3. auto.
  - destruct (on_tree_audit _ s s1 _ E) as [_ Hw]. symmetry in Hw.
    unfold raise. intros H; injection H as <- <-.
    split; [|discriminate].
    exact (SandboxFacts.write_file_frame guess_type storage _ _ _ _ _ Hw).
Qed.

End Endpoints.

(** A request with a key, and a storage with an empty audit log. *)
Definition some_request : Security.Request :=
  {| Security.url_path := "/api/files/upload";
     Security.headers := [("x-ss-api-key", "0123456789abcdef0123")];
     Security.client_host := Some "10.0.0.7" |}.

Definition every_type (event_type : string) : bool := true.

Definition quiet : state := {| tree := StorageFacts.fixture; audit := [] |}.


Lemma upload_then_download_witness :
  exists m s' d s'',
    upload_file StorageFacts.no_mime StorageFacts.temp_storage every_type some_request
      "new.txt" [x68; x69] "00_inbox" quiet = (Ok m, s')
    /\ download_file StorageFacts.no_mime StorageFacts.temp_storage every_type
         some_request "00_inbox/new.txt" s' = (Ok d, s'')
    /\ d_content d = [x68; x69]
    /\ List.map event_type (audit s'') = ["FILE_UPLOADED"; "FILE_DOWNLOADED"].
Proof.
  eexists _, _. 
  match goal with
  | |- exists d s'', ?up = (Ok ?m, ?s') /\ _ =>
      destruct (upload_then_download StorageFacts.no_mime StorageFacts.temp_storage
                  every_type some_request "new.txt" [x68; x69] "00_inbox" quiet
                  (snd up) (fst up) (surjective_pairing _)) as (_ & Hdown)
  end.
  destruct (Hdown eq_refl) as (d & s'' & Hd & Hc & _).
  exists d, s''. split; [reflexivity|]. split; [exact Hd|]. split; [exact Hc|].
  cbn in Hd. injection Hd as _ <-. reflexivity.
Defined.

End EndpointFacts.

(** *** Review: override and approval *)

Module ReviewFacts.
Import Models Review.

Lemma get_row_id (s : state) (i : Z) (row : Row) :
  get_row s i = Some row -> id (document row) = i.
Proof.
  unfold get_row. intros H. apply List.find_some in H. apply Z.eqb_eq, H.
Qed.

Lemma get_row_after_save (s : state) (i : Z) (old new : Row) :
  get_row s i = Some old -> id (document new) = i ->
  get_row (save_row new s) i = Some new.
Proof.
  unfold get_row, save_row. cbn [rows]. intros Hget Hid. subst i.
  induction (rows s) as [|r rs IH]; simpl in *; [discriminate|].
  destruct (Z.eqb_spec (id (document r)) (id (document new))) as [E|N]; simpl.
  - rewrite Z.eqb_refl. reflexivity.
  - destruct (Z.eqb_spec (id (document r)) (id (document new))); [contradiction|].
    apply IH, Hget.
Qed.

Lemma get_row_other (s : state) (i j : Z) (new : Row) :
  id (document new) = i -> j <> i ->
  get_row (save_row new s) j = get_row s j.
Proof.
  unfold get_row, save_row. cbn [rows]. intros Hid Hne. subst i.
  induction (rows s) as [|r rs IH]; simpl; [reflexivity|].
  destruct (Z.eqb_spec (id (document r)) (id (document new))) as [E|N]; simpl.
  - destruct (Z.eqb_spec (id (document new)) j); [congruence|].
    destruct (Z.eqb_spec (id (document r)) j); [congruence|]. exact IH.
  - destruct (Z.eqb_spec (id (document r)) j); [reflexivity | exact IH].
Qed.

Section Endpoints.
Variable status_text : DocStatus -> string.
Variable audit_event_type : string -> bool.

Lemma log_rows (event_type : string) (i : Z) (s : state) :
  rows (log_document_event audit_event_type event_type i s) = rows s.
Proof.
  unfold log_document_event. destruct (audit_event_type event_type); reflexivity.
Qed.

Lemma get_row_logged (event_type : string) (i j : Z) (s : state) :
  get_row (log_document_event audit_event_type event_type i s) j = get_row s j.
Proof. unfold get_row. now rewrite log_rows. Qed.

(** X29.  Only a document that waits for review can be approved.  A
    request for a row that does not exist is answered 404, one for a
    row whose status is neither ANALYZED nor NEEDS_REVIEW is answered
    400, and neither changes anything.  An approval sets the status to
    APPROVED and the time of approval, always leaves a target path that
    is not empty, touches no column the pipeline wrote except the
    status and no other row, and cannot be repeated: a second approval
    of the same document is answered 400. *)
Theorem approval_needs_a_reviewable_document (utcnow onupdate : string)
    (document_id : Z) (request_body : ApproveRequest) (s : state) :
  match approve_document status_text audit_event_type utcnow onupdate document_id
          request_body s with
  | (Ok row, s') =>
      exists old,
        get_row s document_id = Some old
        /\ reviewable (status (document old)) = true
        /\ get_row s' document_id = Some row
        /\ status (document row) = APPROVED
        /\ set_status (status (document old)) (document row) = document old
        /\ approved_at row = Some utcnow
        /\ (exists c rest, user_approved_target_path row = Some (String c rest))
        /\ (forall other, other <> document_id ->
                          get_row s' other = get_row s other)
        /\ (forall utcnow' onupdate' request_body',
              exists detail,
                approve_document status_text audit_event_type utcnow' onupdate'
                  document_id request_body' s'
                = (Raise (HTTPException 400 detail), s'))
  | (Raise e, s') =>
      s' = s
      /\ match get_row s document_id with
         | None => e = not_found document_id
         | Some old => reviewable (status (document old)) = false
                       /\ exists detail, e = HTTPException 400 detail
         end
  end.
Proof.
  unfold approve_document.
  destruct (get_row s document_id) as [old|] eqn:Hg; [|split; reflexivity].
  pose proof (get_row_id s document_id old Hg) as Hid.
  destruct (reviewable (status (document old))) eqn:Hr; cbn [negb].
  2:{ split; [reflexivity|]. split; [reflexivity | eauto]. }
  exists old. split; [reflexivity|]. split; [exact Hr|].
  match goal with
  | |- get_row (log_document_event _ _ _ (save_row ?new s)) _ = _ /\ _ =>
      set (row := new);
      assert (Hsaved : get_row (log_document_event audit_event_type "DOC_APPROVED"
                                  document_id (save_row row s)) document_id
                       = Some row)
        by (rewrite get_row_logged;
            apply (get_row_after_save s document_id old row Hg); exact Hid)
  end.
  split; [exact Hsaved|]. split; [reflexivity|].
  split; [destruct (document old); reflexivity|].
  split; [reflexivity|]. split.
  { cbn [user_approved_target_path row].
    destruct (final_target_path request_body) as [[|c rest]|]; cbn [or_else]; eauto;
      destruct (user_approved_target_path old) as [[|c rest]|]; cbn [or_else]; eauto;
      destruct (suggested_target_path (document old)) as [[|c rest]|];
      cbn [or_else]; eauto. }
  split.
  { intros other Hne. rewrite get_row_logged.
    apply (get_row_other s document_id other row); [exact Hid | exact Hne]. }
  intros utcnow' onupdate' request_body'. rewrite Hsaved.
  cbn [document row status set_status reviewable negb]. eauto.
Qed.


End Endpoints.

(** A classified document that waits for review. *)
Definition waiting_row : Row :=
  {| document := set_status NEEDS_REVIEW
                   (set_category (Some "Invoice") ClassifyFacts.blank_document);
     user_approved_category := None;
     user_approved_filename := None;
     user_approved_target_path := None;
     approved_at := None;
     updated_at := "2024-05-01T10:00:05.000000" |}.

Definition review_table : state := {| rows := [waiting_row]; events := [] |}.

Definition status_name (st : DocStatus) : string :=
  match st with
  | INGESTED => "INGESTED" | ANALYZING => "ANALYZING" | ANALYZED => "ANALYZED"
  | NEEDS_REVIEW => "NEEDS_REVIEW" | APPROVED => "APPROVED"
  | COMMITTED => "COMMITTED" | ERROR => "ERROR" | DUPLICATE => "DUPLICATE"
  end.

Definition every_event (event_type : string) : bool := true.


End ReviewFacts.
